(** * Buffer pool of cmu15445: the LRU-K replacer and the buffer pool manager

    A shallow embedding of [src/buffer/lru_k_replacer.cpp] and
    [src/buffer/buffer_pool_manager.cpp].

    - [std::unordered_map] is a [gmap], [std::list] a [list]; the order
      in which a loop walks an [unordered_map] is an input of the model;
    - [size_t] is a [Z] kept in [0, 2^64) and the 32-bit [page_id_t]
      counter a [Z] kept in [-2^31, 2^31), with the wrap-around written out;
    - [LRUKNode *] is an address into a store of live nodes, so that the
      node shared by [node_store_], [less_k_] and [more_k_] is one object and
      [delete] really takes it away;
    - a C++ [throw] and undefined behaviour are results of the [outcome]
      type: every operation is a total function into [outcome]. *)

From Stdlib Require Import ZArith Lia.
From stdpp Require Import gmap strings list.

Open Scope Z_scope.

(** ** Outcomes of a C++ call *)

Inductive failure : Type :=
| Thrown (msg : string)   (* [throw "..."] *)
| Undefined               (* dereference of a dead pointer, [front()] of an empty list *)
| LogicError.             (* a state the callers are meant to exclude *)

Inductive outcome (A : Type) : Type :=
| Done (a : A)
| Fail (f : failure).
Arguments Done {A} a.
Arguments Fail {A} f.

#[global] Instance outcome_ret : MRet outcome := λ A a, Done a.
#[global] Instance outcome_bind : MBind outcome := λ A B k c,
  match c with
  | Done a => k a
  | Fail f => Fail f
  end.

Definition deref {A : Type} (o : option A) : outcome A :=
  match o with
  | Some a => Done a
  | None => Fail Undefined
  end.

(** [size_t] arithmetic. *)
Definition SIZE_MOD : Z := 2 ^ 64.
Definition to_size_t (z : Z) : Z := z mod SIZE_MOD.

(** ** The LRU-K replacer *)

Module Replacer.

Abbreviation ptr := positive.

(** [struct LRUKNode]; the members used by [lru_k_replacer.cpp]. *)
Record LRUKNode : Type := mkNode {
  history_ : list Z;
  fid_ : Z;
  is_evictable_ : bool
}.

Definition with_history (n : LRUKNode) (h : list Z) : LRUKNode :=
  {| history_ := h; fid_ := fid_ n; is_evictable_ := is_evictable_ n |}.
Definition with_fid (n : LRUKNode) (f : Z) : LRUKNode :=
  {| history_ := history_ n; fid_ := f; is_evictable_ := is_evictable_ n |}.
Definition with_evictable (n : LRUKNode) (b : bool) : LRUKNode :=
  {| history_ := history_ n; fid_ := fid_ n; is_evictable_ := b |}.

Record LRUKReplacer : Type := mkReplacer {
  nodes : gmap ptr LRUKNode;      (* the live [LRUKNode] objects *)
  next_node : ptr;                (* the address [new] hands out next *)
  node_store_ : gmap Z ptr;
  current_timestamp_ : Z;
  curr_size_ : Z;
  replacer_size_ : Z;
  k_ : Z;
  less_k_ : list ptr;
  more_k_ : list ptr
}.

(** Modelled from the spec: the member initialisers of [lru_k_replacer.h]
    (not under src/): both counters start at zero and a new node is not
    evictable ("create it in the cold pool with is_evictable = false"). *)
Definition init (num_frames k : Z) : LRUKReplacer :=
  {| nodes := ∅; next_node := 1%positive; node_store_ := ∅;
     current_timestamp_ := 0; curr_size_ := 0;
     replacer_size_ := num_frames; k_ := k;
     less_k_ := []; more_k_ := [] |}.
Definition new_node : LRUKNode :=
  {| history_ := []; fid_ := 0; is_evictable_ := false |}.

(** [std::list::remove(value)]: every element equal to [value] goes. *)
Definition list_remove (p : ptr) (l : list ptr) : list ptr :=
  filter (λ q, q ≠ p) l.

(** The [for (auto node : pool) if (node->is_evictable_)] scan of [Evict]:
    the first node of the list whose flag is set. *)
Fixpoint scan_evictable (h : gmap ptr LRUKNode) (l : list ptr)
  : outcome (option (ptr * LRUKNode)) :=
  match l with
  | [] => Done None
  | p :: rest =>
      n ← deref (h !! p);
      if is_evictable_ n then Done (Some (p, n)) else scan_evictable h rest
  end.

Definition Evict (s : LRUKReplacer) : outcome (option Z * LRUKReplacer) :=
  r ← scan_evictable (nodes s) (less_k_ s);
  match r with
  | Some (p, n) =>
      Done (Some (fid_ n),
            {| nodes := delete p (nodes s); next_node := next_node s;
               node_store_ := delete (fid_ n) (node_store_ s);
               current_timestamp_ := current_timestamp_ s;
               curr_size_ := to_size_t (curr_size_ s - 1);
               replacer_size_ := replacer_size_ s; k_ := k_ s;
               less_k_ := list_remove p (less_k_ s);
               more_k_ := more_k_ s |})
  | None =>
      r ← scan_evictable (nodes s) (more_k_ s);
      match r with
      | Some (p, n) =>
          Done (Some (fid_ n),
                {| nodes := delete p (nodes s); next_node := next_node s;
                   node_store_ := delete (fid_ n) (node_store_ s);
                   current_timestamp_ := current_timestamp_ s;
                   curr_size_ := to_size_t (curr_size_ s - 1);
                   replacer_size_ := replacer_size_ s; k_ := k_ s;
                   less_k_ := less_k_ s;
                   more_k_ := list_remove p (more_k_ s) |})
      | None => Done (None, s)
      end
  end.

(** The scan of [RecordAccess] over [more_k_]: [node] goes in front of the
    first element whose oldest kept timestamp is greater than [kth], at the
    back when there is none. *)
Fixpoint insert_by_kth (h : gmap ptr LRUKNode) (kth : Z) (node : ptr)
    (l : list ptr) : outcome (list ptr) :=
  match l with
  | [] => Done [node]
  | q :: rest =>
      nq ← deref (h !! q);
      front ← deref (head (history_ nq));
      if front >? kth then Done (node :: q :: rest)
      else (rest' ← insert_by_kth h kth node rest; Done (q :: rest'))
  end.

Definition RecordAccess (s : LRUKReplacer) (frame_id : Z) : outcome LRUKReplacer :=
  if to_size_t frame_id >? replacer_size_ s then Fail (Thrown "unexpected fram_id")
  else
    let ts := to_size_t (current_timestamp_ s + 1) in
    match node_store_ s !! frame_id with
    | None =>
        let p := next_node s in
        let node := with_fid new_node frame_id in
        let node := with_history node (history_ node ++ [ts]) in
        Done {| nodes := <[p := node]> (nodes s); next_node := Pos.succ p;
                node_store_ := <[frame_id := p]> (node_store_ s);
                current_timestamp_ := ts;
                curr_size_ := curr_size_ s;
                replacer_size_ := replacer_size_ s; k_ := k_ s;
                less_k_ := less_k_ s ++ [p];
                more_k_ := more_k_ s |}
    | Some p =>
        n ← deref (nodes s !! p);
        let hist := history_ n ++ [ts] in
        let history_size := Z.of_nat (length hist) in
        if history_size <? k_ s then
          Done {| nodes := <[p := with_history n hist]> (nodes s);
                  next_node := next_node s;
                  node_store_ := node_store_ s;
                  current_timestamp_ := ts;
                  curr_size_ := curr_size_ s;
                  replacer_size_ := replacer_size_ s; k_ := k_ s;
                  less_k_ := less_k_ s;
                  more_k_ := more_k_ s |}
        else
          let '(less, more, hist') :=
            if history_size =? k_ s
            then (list_remove p (less_k_ s), more_k_ s, hist)
            else (less_k_ s, list_remove p (more_k_ s), tail hist) in
          let h' := <[p := with_history n hist']> (nodes s) in
          kth ← deref (head hist');
          more' ← insert_by_kth h' kth p more;
          Done {| nodes := h'; next_node := next_node s;
                  node_store_ := node_store_ s;
                  current_timestamp_ := ts;
                  curr_size_ := curr_size_ s;
                  replacer_size_ := replacer_size_ s; k_ := k_ s;
                  less_k_ := less;
                  more_k_ := more' |}
    end.

Definition set_flag (s : LRUKReplacer) (p : ptr) (n : LRUKNode) (b : bool)
    (size : Z) : LRUKReplacer :=
  {| nodes := <[p := with_evictable n b]> (nodes s);
     next_node := next_node s;
     node_store_ := node_store_ s;
     current_timestamp_ := current_timestamp_ s;
     curr_size_ := to_size_t size;
     replacer_size_ := replacer_size_ s; k_ := k_ s;
     less_k_ := less_k_ s;
     more_k_ := more_k_ s |}.

Definition SetEvictable (s : LRUKReplacer) (frame_id : Z) (set_evictable : bool)
  : outcome LRUKReplacer :=
  if to_size_t frame_id >? replacer_size_ s then Fail (Thrown "unexpected fram_id")
  else
    match node_store_ s !! frame_id with
    | None => Done s
    | Some p =>
        n ← deref (nodes s !! p);
        if is_evictable_ n then
          if set_evictable then Done s
          else Done (set_flag s p n set_evictable (curr_size_ s - 1))
        else
          if negb set_evictable then Done s
          else Done (set_flag s p n set_evictable (curr_size_ s + 1))
    end.

Definition Remove (s : LRUKReplacer) (frame_id : Z) : outcome LRUKReplacer :=
  if to_size_t frame_id >? replacer_size_ s then Fail (Thrown "unexpected fram_id")
  else
    match node_store_ s !! frame_id with
    | None => Done s
    | Some p =>
        n ← deref (nodes s !! p);
        if negb (is_evictable_ n) then
          Fail (Thrown "Remove is called on a non-evictable frame")
        else
          let '(less, more) :=
            if Z.of_nat (length (history_ n)) <? k_ s
            then (list_remove p (less_k_ s), more_k_ s)
            else (less_k_ s, list_remove p (more_k_ s)) in
          Done {| nodes := delete p (nodes s); next_node := next_node s;
                  node_store_ := delete frame_id (node_store_ s);
                  current_timestamp_ := current_timestamp_ s;
                  curr_size_ := curr_size_ s;
                  replacer_size_ := replacer_size_ s; k_ := k_ s;
                  less_k_ := less;
                  more_k_ := more |}
    end.

Definition Size (s : LRUKReplacer) : Z := curr_size_ s.

(** The operations as commands, to run sequences of calls. *)
Inductive op : Type :=
| OpRecordAccess (frame_id : Z)
| OpSetEvictable (frame_id : Z) (b : bool)
| OpEvict
| OpRemove (frame_id : Z).

Definition step (s : LRUKReplacer) (o : op) : outcome LRUKReplacer :=
  match o with
  | OpRecordAccess f => RecordAccess s f
  | OpSetEvictable f b => SetEvictable s f b
  | OpEvict => '(_, s') ← Evict s; Done s'
  | OpRemove f => Remove s f
  end.

Fixpoint run (s : LRUKReplacer) (os : list op) : outcome LRUKReplacer :=
  match os with
  | [] => Done s
  | o :: rest => s' ← step s o; run s' rest
  end.

(** *** Vocabulary of the specification *)

(** The node a frame is tracked with. *)
Definition node_of (s : LRUKReplacer) (frame_id : Z) : option LRUKNode :=
  p ← node_store_ s !! frame_id; nodes s !! p.

(** The entries of [node_store_] whose node has [is_evictable_] set, and
    their number. *)
Definition evictable_entries (s : LRUKReplacer) : gmap Z ptr :=
  filter (λ entry, (is_evictable_ <$> nodes s !! entry.2) = Some true)
         (node_store_ s).
Definition count_evictable (s : LRUKReplacer) : Z :=
  Z.of_nat (size (evictable_entries s)).

(** Membership of a tracked frame in the two pools. *)
Definition in_cold (s : LRUKReplacer) (frame_id : Z) : Prop :=
  ∃ p, node_store_ s !! frame_id = Some p ∧ p ∈ less_k_ s.
Definition in_warm (s : LRUKReplacer) (frame_id : Z) : Prop :=
  ∃ p, node_store_ s !! frame_id = Some p ∧ p ∈ more_k_ s.

(** A node of a pool that [Evict] may take. *)
Definition evictable_at (s : LRUKReplacer) (p : ptr) : Prop :=
  (is_evictable_ <$> nodes s !! p) = Some true.

(** The oldest timestamp a node keeps: [history_.front()]. *)
Definition front_in (h : gmap ptr LRUKNode) (p : ptr) : option Z :=
  n ← h !! p; head (history_ n).
Definition front_of (s : LRUKReplacer) (p : ptr) : option Z :=
  front_in (nodes s) p.

(** The K-th most recent access among the kept timestamps (oldest first). *)
Definition kth_recent (k : Z) (hist : list Z) : option Z :=
  if k <=? 0 then None else reverse hist !! Z.to_nat (k - 1).

(** A pool is in ascending order of a key of its nodes. *)
Fixpoint ascending (key : ptr → option Z) (l : list ptr) : bool :=
  match l with
  | [] => true
  | p :: rest =>
      forallb (λ q, match key p, key q with
                    | Some a, Some b => a <=? b
                    | _, _ => false
                    end) rest
      && ascending key rest
  end.
Definition warm_sorted (s : LRUKReplacer) : bool :=
  ascending (front_of s) (more_k_ s).

(** What the invariant reads of a node: its timestamps and its frame. *)
Definition hist_of (s : LRUKReplacer) (p : ptr) : option (list Z) :=
  history_ <$> nodes s !! p.
Definition fid_of (s : LRUKReplacer) (p : ptr) : option Z :=
  fid_ <$> nodes s !! p.

(** The representation invariant of the replacer: [node_store_] and the
    live nodes are two views of one set of tracked frames; a node keeps
    between 1 and K timestamps; the cold pool holds exactly the nodes with
    fewer than K timestamps and the warm pool exactly those with K, each
    once; and the warm pool is in ascending order of [history_.front()]. *)
Record consistent (s : LRUKReplacer) : Prop := {
  tracked_live : ∀ f p, node_store_ s !! f = Some p → fid_of s p = Some f;
  live_tracked : ∀ p f, fid_of s p = Some f → node_store_ s !! f = Some p;
  live_below_next : ∀ p, is_Some (nodes s !! p) → (p < next_node s)%positive;
  history_bounds : ∀ p h, hist_of s p = Some h →
                          1 ≤ Z.of_nat (length h) ≤ k_ s;
  cold_nodes : ∀ p, p ∈ less_k_ s ↔
                    ∃ h, hist_of s p = Some h ∧ Z.of_nat (length h) < k_ s;
  warm_nodes : ∀ p, p ∈ more_k_ s ↔
                    ∃ h, hist_of s p = Some h ∧ Z.of_nat (length h) = k_ s;
  cold_nodup : NoDup (less_k_ s);
  warm_nodup : NoDup (more_k_ s);
  warm_ascending : ascending (front_of s) (more_k_ s) = true
}.

(** A call the replacer is meant to serve: the frame id, a 32-bit
    [frame_id_t], is one of the [replacer_size_] frames, and [Remove] is not
    asked for a frame that is tracked and not evictable. *)
Definition in_range (s : LRUKReplacer) (frame_id : Z) : Prop :=
  0 ≤ frame_id < replacer_size_ s ∧ frame_id < 2 ^ 31.
Definition permitted (s : LRUKReplacer) (o : op) : Prop :=
  match o with
  | OpRecordAccess f => in_range s f
  | OpSetEvictable f _ => in_range s f
  | OpEvict => True
  | OpRemove f =>
      in_range s f
      ∧ ∀ n, node_of s f = Some n → is_evictable_ n = true
  end.

(** What a caller of [SetEvictable] and [Remove] relies on for frame
    [frame_id]: the id passes the bounds check and, when the frame is
    tracked, its node is a live object. *)
Definition usable (s : LRUKReplacer) (frame_id : Z) : bool :=
  negb (to_size_t frame_id >? replacer_size_ s)
  && match node_store_ s !! frame_id with
     | Some p => bool_decide (is_Some (nodes s !! p))
     | None => true
     end.
(** ... and, for [Remove], a tracked frame is evictable. *)
Definition removable (s : LRUKReplacer) (frame_id : Z) : bool :=
  negb (to_size_t frame_id >? replacer_size_ s)
  && match node_store_ s !! frame_id with
     | Some p => default false (is_evictable_ <$> nodes s !! p)
     | None => true
     end.

(** The replacer a sequence of calls leaves, [s] itself when one fails. *)
Definition after (s : LRUKReplacer) (os : list op) : LRUKReplacer :=
  match run s os with
  | Done s' => s'
  | Fail _ => s
  end.

(** The replacer law of section 8: K = 2, accesses A,B,C,D,A,B,C on four
    frames, all evictable. *)
Definition abcd_abc : LRUKReplacer :=
  after (init 7 2)
    [OpRecordAccess 1; OpRecordAccess 2; OpRecordAccess 3; OpRecordAccess 4;
     OpRecordAccess 1; OpRecordAccess 2; OpRecordAccess 3;
     OpSetEvictable 1 true; OpSetEvictable 2 true; OpSetEvictable 3 true;
     OpSetEvictable 4 true].

(** *** The destructor *)

(** [for (auto node : pool) delete node]: a [delete] of a node that is not
    live, as a second [delete] of the same pointer is, is undefined
    behaviour. *)
Fixpoint delete_each (h : gmap ptr LRUKNode) (l : list ptr)
  : outcome (gmap ptr LRUKNode) :=
  match l with
  | [] => Done h
  | p :: rest => _ ← deref (h !! p); delete_each (delete p h) rest
  end.

(** [~LRUKReplacer]; the result is the nodes that are still live when it
    is done. *)
Definition destructor (s : LRUKReplacer) : outcome (gmap ptr LRUKNode) :=
  h ← delete_each (nodes s) (less_k_ s);
  delete_each h (more_k_ s).

(** *** The clock and the timestamps *)

(** Timestamps in strictly increasing order. *)
Fixpoint increasing (h : list Z) : bool :=
  match h with
  | [] => true
  | t :: rest => forallb (λ u, t <? u) rest && increasing rest
  end.

(** The clock and the timestamps, while [current_timestamp_] has not
    wrapped around: every kept timestamp is a past value of the clock, a
    node's timestamps are in increasing order, and the cold pool is in
    ascending order of [history_.front()], the first access its nodes
    keep. *)
Record stamped (s : LRUKReplacer) : Prop := {
  clock_started : 0 ≤ current_timestamp_ s;
  stamps_past : ∀ p h t, hist_of s p = Some h → t ∈ h →
                         1 ≤ t ≤ current_timestamp_ s;
  stamps_increasing : ∀ p h, hist_of s p = Some h → increasing h = true;
  cold_ascending : ascending (front_of s) (less_k_ s) = true
}.

End Replacer.

(** ** The buffer pool manager *)

Module BufferPool.

Import Replacer.

(** [class Page]: the buffer and the metadata the manager touches. *)
Record Page : Type := mkPage {
  data_ : list Z;
  page_id_ : Z;
  pin_count_ : Z;
  is_dirty_ : bool
}.

(** The disk manager is an external collaborator: what is on disk, and the
    calls the manager made, most recent last. *)
Inductive disk_call : Type :=
| CallRead (page_id : Z)
| CallWrite (page_id : Z) (bytes : list Z)
| CallDeallocate (page_id : Z).

Record DiskManager : Type := mkDisk {
  on_disk : gmap Z (list Z);
  calls : list disk_call
}.

Record BufferPoolManager : Type := mkManager {
  pool_size_ : Z;
  pages_ : list Page;
  page_table_ : gmap Z Z;
  free_list_ : list Z;
  replacer_ : LRUKReplacer;
  next_page_id_ : Z;
  disk_manager_ : DiskManager
}.

Definition set_pages (s : BufferPoolManager) (ps : list Page) : BufferPoolManager :=
  {| pool_size_ := pool_size_ s; pages_ := ps; page_table_ := page_table_ s;
     free_list_ := free_list_ s; replacer_ := replacer_ s;
     next_page_id_ := next_page_id_ s; disk_manager_ := disk_manager_ s |}.
Definition set_page_table (s : BufferPoolManager) (pt : gmap Z Z) : BufferPoolManager :=
  {| pool_size_ := pool_size_ s; pages_ := pages_ s; page_table_ := pt;
     free_list_ := free_list_ s; replacer_ := replacer_ s;
     next_page_id_ := next_page_id_ s; disk_manager_ := disk_manager_ s |}.
Definition set_free_list (s : BufferPoolManager) (fl : list Z) : BufferPoolManager :=
  {| pool_size_ := pool_size_ s; pages_ := pages_ s; page_table_ := page_table_ s;
     free_list_ := fl; replacer_ := replacer_ s;
     next_page_id_ := next_page_id_ s; disk_manager_ := disk_manager_ s |}.
Definition set_replacer (s : BufferPoolManager) (r : LRUKReplacer) : BufferPoolManager :=
  {| pool_size_ := pool_size_ s; pages_ := pages_ s; page_table_ := page_table_ s;
     free_list_ := free_list_ s; replacer_ := r;
     next_page_id_ := next_page_id_ s; disk_manager_ := disk_manager_ s |}.
Definition set_next_page_id (s : BufferPoolManager) (n : Z) : BufferPoolManager :=
  {| pool_size_ := pool_size_ s; pages_ := pages_ s; page_table_ := page_table_ s;
     free_list_ := free_list_ s; replacer_ := replacer_ s;
     next_page_id_ := n; disk_manager_ := disk_manager_ s |}.
Definition set_disk (s : BufferPoolManager) (d : DiskManager) : BufferPoolManager :=
  {| pool_size_ := pool_size_ s; pages_ := pages_ s; page_table_ := page_table_ s;
     free_list_ := free_list_ s; replacer_ := replacer_ s;
     next_page_id_ := next_page_id_ s; disk_manager_ := d |}.

(** [pages_ + frame_id]: the frame, when the index is inside the array. *)
Definition page_at (s : BufferPoolManager) (frame_id : Z) : option Page :=
  if frame_id <? 0 then None else pages_ s !! Z.to_nat frame_id.
Definition store_page (s : BufferPoolManager) (frame_id : Z) (p : Page)
  : BufferPoolManager :=
  set_pages s (<[Z.to_nat frame_id := p]> (pages_ s)).

Section Manager.

(** Constants of [common/config.h] and of the headers, not under src/:
    the two spellings of the "no page" sentinel used by the manager and the
    size of a frame's buffer. *)
Variables (INVALID INVALID_PAGE_ID : Z) (PAGE_SIZE : nat).

(** *** Disk manager (modelled) *)

(** Modelled from the spec: the disk manager of section 6, which is not
    under src/. [ReadPage] fills [PAGE_SIZE] bytes (zeroes for a page never
    written), [WritePage] persists the bytes, [DeallocatePage] is an
    advisory free that leaves the bytes alone. *)
Definition ReadPage (d : DiskManager) (page_id : Z) : list Z * DiskManager :=
  (default (replicate PAGE_SIZE 0) (on_disk d !! page_id),
   {| on_disk := on_disk d; calls := calls d ++ [CallRead page_id] |}).
Definition WritePage (d : DiskManager) (page_id : Z) (bytes : list Z) : DiskManager :=
  {| on_disk := <[page_id := bytes]> (on_disk d);
     calls := calls d ++ [CallWrite page_id bytes] |}.
Definition DeallocatePage (d : DiskManager) (page_id : Z) : DiskManager :=
  {| on_disk := on_disk d; calls := calls d ++ [CallDeallocate page_id] |}.

(** *** Helpers declared in the header (modelled) *)

(** Modelled from the spec: a frame in the free state (section 3: "page_id
    == INVALID, pin_count == 0, !is_dirty"), its memory zeroed. *)
Definition free_page : Page :=
  {| data_ := replicate PAGE_SIZE 0; page_id_ := INVALID_PAGE_ID;
     pin_count_ := 0; is_dirty_ := false |}.

(** Modelled from the spec: the constructor's member initialisers that are
    in the header; the body under src/ fills the free list with every
    frame index in order. *)
Definition init (pool_size replacer_k : Z) (disk : DiskManager) : BufferPoolManager :=
  {| pool_size_ := pool_size;
     pages_ := replicate (Z.to_nat pool_size) free_page;
     page_table_ := ∅;
     free_list_ := Z.of_nat <$> seq 0 (Z.to_nat pool_size);
     replacer_ := Replacer.init pool_size replacer_k;
     next_page_id_ := 0;
     disk_manager_ := disk |}.

Definition FlushPage (s : BufferPoolManager) (page_id : Z)
  : outcome (bool * BufferPoolManager) :=
  if page_id =? INVALID_PAGE_ID then Fail (Thrown "invalid page ID")
  else
    match page_table_ s !! page_id with
    | None => Done (false, s)
    | Some frame_id =>
        page ← deref (page_at s frame_id);
        let s := set_disk s (WritePage (disk_manager_ s) page_id (data_ page)) in
        Done (true, store_page s frame_id
                      {| data_ := data_ page; page_id_ := page_id_ page;
                         pin_count_ := pin_count_ page; is_dirty_ := false |})
    end.

(** Modelled from the spec: [GetFreeFrame] of section 4.3, declared in the
    header. The free list is served first (its front element); otherwise
    the replacer evicts, a dirty victim is flushed and its page-table entry
    erased; with neither, step 3 is the logic error the callers' guard is
    meant to exclude. *)
Definition GetFreeFrame (s : BufferPoolManager) : outcome (Z * BufferPoolManager) :=
  match free_list_ s with
  | frame_id :: rest => Done (frame_id, set_free_list s rest)
  | [] =>
      '(victim, r) ← Evict (replacer_ s);
      match victim with
      | None => Fail LogicError
      | Some frame_id =>
          let s := set_replacer s r in
          page ← deref (page_at s frame_id);
          '(_, s) ← (if is_dirty_ page then FlushPage s (page_id_ page)
                      else Done (true, s));
          Done (frame_id, set_page_table s (delete (page_id_ page) (page_table_ s)))
      end
  end.

(** Modelled from the spec: [InitNewPage], declared in the header: "zero
    memory, set page_id, ... is_dirty = false. Install in the page-table";
    the pin is taken by [Pinpage], which every caller runs next. *)
Definition InitNewPage (s : BufferPoolManager) (page_id frame_id : Z)
  : outcome BufferPoolManager :=
  _ ← deref (page_at s frame_id);
  let s := store_page s frame_id
             {| data_ := replicate PAGE_SIZE 0; page_id_ := page_id;
                pin_count_ := 0; is_dirty_ := false |} in
  Done (set_page_table s (<[page_id := frame_id]> (page_table_ s))).

(** Modelled from the spec: [Pinpage], declared in the header: "increment
    pin count, record access in the replacer, mark non-evictable". *)
Definition Pinpage (s : BufferPoolManager) (page_id : Z) : outcome BufferPoolManager :=
  frame_id ← deref (page_table_ s !! page_id);
  page ← deref (page_at s frame_id);
  r ← RecordAccess (replacer_ s) frame_id;
  r ← SetEvictable r frame_id false;
  let s := store_page s frame_id
             {| data_ := data_ page; page_id_ := page_id_ page;
                pin_count_ := pin_count_ page + 1; is_dirty_ := is_dirty_ page |} in
  Done (set_replacer s r).

(** *** The operations of [buffer_pool_manager.cpp] *)

Definition exhausted (s : BufferPoolManager) : bool :=
  bool_decide (free_list_ s = []) && (Size (replacer_ s) =? 0).

(** [page_id_t] is a signed 32-bit integer and [next_page_id_] an atomic
    of that type (both declared in headers that are not under src/), so
    the increment wraps around from 2^31 - 1 to -2^31. *)
Definition to_page_id_t (z : Z) : Z := (z + 2 ^ 31) mod 2 ^ 32 - 2 ^ 31.

(** [return next_page_id_++]. *)
Definition AllocatePage (s : BufferPoolManager) : Z * BufferPoolManager :=
  (next_page_id_ s, set_next_page_id s (to_page_id_t (next_page_id_ s + 1))).

(** The result is the output [page_id] and the [Page *], [None] for null. *)
Definition NewPage (s : BufferPoolManager)
  : outcome ((Z * option Z) * BufferPoolManager) :=
  if exhausted s then Done ((INVALID, None), s)
  else
    '(frame_id, s) ← GetFreeFrame s;
    let '(page_id, s) := AllocatePage s in
    s ← InitNewPage s page_id frame_id;
    s ← Pinpage s page_id;
    Done ((page_id, Some frame_id), s).

Definition FetchPage (s : BufferPoolManager) (page_id : Z)
  : outcome (option Z * BufferPoolManager) :=
  match page_table_ s !! page_id with
  | Some _ =>
      s ← Pinpage s page_id;
      frame_id ← deref (page_table_ s !! page_id);
      Done (Some frame_id, s)
  | None =>
      if exhausted s then Done (None, s)
      else
        '(frame_id, s) ← GetFreeFrame s;
        s ← InitNewPage s page_id frame_id;
        s ← Pinpage s page_id;
        page ← deref (page_at s frame_id);
        let '(bytes, d) := ReadPage (disk_manager_ s) page_id in
        let s := set_disk s d in
        Done (Some frame_id,
              store_page s frame_id
                {| data_ := bytes; page_id_ := page_id_ page;
                   pin_count_ := pin_count_ page; is_dirty_ := is_dirty_ page |})
  end.

Definition UnpinPage (s : BufferPoolManager) (page_id : Z) (is_dirty : bool)
  : outcome (bool * BufferPoolManager) :=
  match page_table_ s !! page_id with
  | None => Done (false, s)
  | Some frame_id =>
      page ← deref (page_at s frame_id);
      if pin_count_ page =? 0 then Done (false, s)
      else
        let pin := pin_count_ page - 1 in
        r ← (if pin =? 0 then SetEvictable (replacer_ s) frame_id true
             else Done (replacer_ s));
        let s := set_replacer s r in
        Done (true, store_page s frame_id
                      {| data_ := data_ page; page_id_ := page_id_ page;
                         pin_count_ := pin;
                         is_dirty_ := is_dirty_ page || is_dirty |})
  end.

(** [for (auto [page_id, frame_id] : page_table_)] visits every entry of
    the table once, in the order the [std::unordered_map] happens to keep
    them. That order is not the program's to choose, so it is an input of
    the model: a walk of the table is any list of its entries, each
    once. *)
Definition walk_of (pt : gmap Z Z) (walk : list (Z * Z)) : Prop :=
  walk ≡ₚ map_to_list pt.

(** The loop of [FlushAllPages], along the walk the table gives. *)
Definition FlushAllPages (s : BufferPoolManager) (walk : list (Z * Z))
  : outcome BufferPoolManager :=
  foldl (λ acc entry,
           s ← acc;
           page ← deref (page_at s entry.2);
           let s := set_disk s (WritePage (disk_manager_ s) entry.1 (data_ page)) in
           Done (store_page s entry.2
                   {| data_ := data_ page; page_id_ := page_id_ page;
                      pin_count_ := pin_count_ page; is_dirty_ := false |}))
        (Done s) walk.

Definition DeletePage (s : BufferPoolManager) (page_id : Z)
  : outcome (bool * BufferPoolManager) :=
  match page_table_ s !! page_id with
  | None => Done (true, s)
  | Some frame_id =>
      page ← deref (page_at s frame_id);
      if pin_count_ page >? 0 then Done (false, s)
      else
        let s := set_page_table s (delete page_id (page_table_ s)) in
        r ← Remove (replacer_ s) frame_id;
        let s := set_replacer s r in
        let s := set_free_list s (free_list_ s ++ [frame_id]) in
        let s := store_page s frame_id
                   {| data_ := replicate PAGE_SIZE 0;
                      page_id_ := INVALID_PAGE_ID;
                      pin_count_ := 0; is_dirty_ := false |} in
        Done (true, set_disk s (DeallocatePage (disk_manager_ s) page_id))
  end.

(** *** A manager that can serve a request *)

(** What [NewPage] and [FetchPage] rely on when they go for a frame: the
    replacer keeps its invariant, with K >= 2, and its [Size()] is the
    number of evictable nodes; the frames of the free list and of the
    replacer are frames of the pool that pass the replacer's bounds check;
    a frame the replacer tracks holds a page; the page table points into
    the pool. *)
Record serviceable (s : BufferPoolManager) : Prop := {
  replacer_consistent : consistent (replacer_ s);
  replacer_k : 2 ≤ k_ (replacer_ s);
  replacer_size : Size (replacer_ s) = count_evictable (replacer_ s);
  free_frames : ∀ f, f ∈ free_list_ s →
      is_Some (page_at s f)
      ∧ (to_size_t f >? replacer_size_ (replacer_ s)) = false;
  tracked_frames : ∀ f, is_Some (node_store_ (replacer_ s) !! f) →
      (to_size_t f >? replacer_size_ (replacer_ s)) = false
      ∧ ∃ page, page_at s f = Some page ∧ page_id_ page ≠ INVALID_PAGE_ID;
  resident_frames : ∀ page_id f, page_table_ s !! page_id = Some f →
      is_Some (page_at s f)
      ∧ (to_size_t f >? replacer_size_ (replacer_ s)) = false
}.

(** *** Runs used as examples *)

Definition empty_disk : DiskManager := {| on_disk := ∅; calls := [] |}.

(** The manager a call leaves, [s] itself when the call fails. *)
Definition state_after {A : Type} (s : BufferPoolManager)
    (c : outcome (A * BufferPoolManager)) : BufferPoolManager :=
  match c with
  | Done (_, s') => s'
  | Fail _ => s
  end.

(** One frame; page 0 is created (pinned once) ... *)
Definition page0_pinned : BufferPoolManager :=
  let s := init 1 2 empty_disk in
  state_after s (NewPage s).
(** ... and unpinned with [is_dirty = true]. *)
Definition page0_dirty : BufferPoolManager :=
  state_after page0_pinned (UnpinPage page0_pinned 0 true).

(** One frame: page 0 is created, unpinned and deleted, then page 1 is
    created and stays pinned. *)
Definition delete_then_new : outcome BufferPoolManager :=
  let s := init 1 2 empty_disk in
  '(_, s) ← NewPage s;
  '(_, s) ← UnpinPage s 0 false;
  '(_, s) ← DeletePage s 0;
  '(_, s) ← NewPage s;
  Done s.

(** Two frames, holding pages 0 and 1, both pinned. *)
Definition two_pages : BufferPoolManager :=
  let s := init 2 2 empty_disk in
  let s := state_after s (NewPage s) in
  state_after s (NewPage s).

(** One frame and K = 1: page 0 is created and unpinned. *)
Definition page0_unpinned_K1 : BufferPoolManager :=
  let s := init 1 1 empty_disk in
  let s := state_after s (NewPage s) in
  state_after s (UnpinPage s 0 false).

End Manager.

(** The frame a flush leaves: the same but for the dirty flag. *)
Definition flushed (page : Page) : Page :=
  {| data_ := data_ page; page_id_ := page_id_ page;
     pin_count_ := pin_count_ page; is_dirty_ := false |}.

End BufferPool.

(** * Properties of the replacer *)

Module ReplacerFacts.

Import Replacer.

(** ** The bounds check *)

Lemma to_size_t_small (z : Z) : 0 ≤ z < SIZE_MOD → to_size_t z = z.
Proof. intros H. unfold to_size_t. apply Z.mod_small. exact H. Qed.

Lemma to_size_t_negative (z : Z) : - SIZE_MOD ≤ z < 0 → to_size_t z = z + SIZE_MOD.
Proof.
  intros H. unfold to_size_t.
  symmetry. apply (Z.mod_unique z SIZE_MOD (-1) (z + SIZE_MOD)); lia.
Qed.

(** X1. The guard of the three operations is [>]: an id above [replacer_size_]
    is refused, and so is a negative one, which the cast to [size_t] makes
    huge. *)
Lemma guard_rejects (s : LRUKReplacer) (frame_id : Z) :
  0 ≤ replacer_size_ s < 2 ^ 63 →
  - 2 ^ 31 ≤ frame_id < 2 ^ 31 →
  frame_id < 0 ∨ replacer_size_ s < frame_id →
  RecordAccess s frame_id = Fail (Thrown "unexpected fram_id")
  ∧ (∀ b, SetEvictable s frame_id b = Fail (Thrown "unexpected fram_id"))
  ∧ Remove s frame_id = Fail (Thrown "unexpected fram_id").
Proof.
  intros Hsz Hint Hout.
  assert ((to_size_t frame_id >? replacer_size_ s) = true) as Hg.
  { apply Z.gtb_lt. destruct (Z_lt_dec frame_id 0).
    - rewrite to_size_t_negative; unfold SIZE_MOD; lia.
    - rewrite to_size_t_small; unfold SIZE_MOD; lia. }
  unfold RecordAccess, SetEvictable, Remove. rewrite Hg. auto.
Qed.

(** ... but the id equal to [replacer_size_] passes the guard. *)
Lemma guard_admits_boundary (s : LRUKReplacer) :
  0 ≤ replacer_size_ s < SIZE_MOD →
  (to_size_t (replacer_size_ s) >? replacer_size_ s) = false.
Proof.
  intros H. rewrite to_size_t_small by exact H.
  destruct (Z.gtb_spec (replacer_size_ s) (replacer_size_ s)); [lia | reflexivity].
Qed.

(** C1 (evaluation at the failing input). With seven frames the ids are
    0..6, yet none of [RecordAccess], [SetEvictable] and [Remove] fails on
    frame id 7 = pool_size: [RecordAccess] even starts tracking it. *)
Theorem frame_id_pool_size_is_accepted :
  let s := init 7 2 in
  (∃ s', RecordAccess s 7 = Done s' ∧ is_Some (node_store_ s' !! 7))
  ∧ SetEvictable s 7 true = Done s
  ∧ Remove s 7 = Done s
  ∧ RecordAccess s 8 = Fail (Thrown "unexpected fram_id").
Proof.
  cbv zeta. split; [| split; [| split]]; try (vm_compute; reflexivity).
  eexists. split; [vm_compute; reflexivity |].
  vm_compute. eauto.
Qed.

(** ** [Evict] *)

Lemma list_remove_elem (p q : ptr) (l : list ptr) :
  q ∈ list_remove p l ↔ q ≠ p ∧ q ∈ l.
Proof. unfold list_remove. rewrite list_elem_of_filter. reflexivity. Qed.

Lemma list_remove_not_elem (p : ptr) (l : list ptr) : p ∉ list_remove p l.
Proof. rewrite list_remove_elem. intros [H _]. congruence. Qed.

Lemma forallb_elem {A : Type} (f : A → bool) (l : list A) :
  forallb f l = true ↔ ∀ x, x ∈ l → f x = true.
Proof.
  rewrite forallb_forall. split; intros H x Hx; apply H; apply list_elem_of_In; exact Hx.
Qed.

(** The scan stops at the first evictable node; nothing before it is
    evictable. *)
Lemma scan_evictable_spec (s : LRUKReplacer) (l : list ptr) :
  (∀ p, p ∈ l → is_Some (nodes s !! p)) →
  (∃ before p n after,
      l = before ++ p :: after
      ∧ nodes s !! p = Some n ∧ is_evictable_ n = true
      ∧ (∀ q, q ∈ before → ¬ evictable_at s q)
      ∧ scan_evictable (nodes s) l = Done (Some (p, n)))
  ∨ ((∀ q, q ∈ l → ¬ evictable_at s q)
     ∧ scan_evictable (nodes s) l = Done None).
Proof.
  induction l as [| p l IH]; intros Hlive.
  - right. split; [| reflexivity]. intros q Hq. inversion Hq.
  - destruct (Hlive p) as [n Hn]; [apply list_elem_of_here |].
    simpl. rewrite Hn. simpl.
    destruct (is_evictable_ n) eqn:He.
    + left. exists [], p, n, l. repeat split; auto.
      intros q Hq. inversion Hq.
    + assert (¬ evictable_at s p) as Hp.
      { unfold evictable_at. rewrite Hn. simpl. congruence. }
      destruct IH as [(before & q & nq & after & -> & Hq & Hev & Hbefore & Hscan)
                     | [Hnone Hscan]].
      { intros q Hq. apply Hlive. apply list_elem_of_further. exact Hq. }
      * left. exists (p :: before), q, nq, after. repeat split; auto.
        intros q' [-> | Hq']%elem_of_cons; auto.
      * right. split; [| exact Hscan].
        intros q [-> | Hq]%elem_of_cons; auto.
Qed.

(** In an ascending pool the key of a node is a lower bound of the keys
    behind it. *)
Lemma ascending_behind (key : ptr → option Z) (before after : list ptr)
    (p : ptr) (a : Z) :
  ascending key (before ++ p :: after) = true →
  key p = Some a →
  ∀ q, q ∈ after → ∃ b, key q = Some b ∧ a ≤ b.
Proof.
  induction before as [| x before IH]; simpl.
  - intros [Hall _]%andb_true_iff Hp q Hq.
    rewrite forallb_elem in Hall. specialize (Hall q Hq).
    rewrite Hp in Hall. destruct (key q) as [b |]; [| discriminate].
    exists b. split; [reflexivity |]. apply Z.leb_le. exact Hall.
  - intros [_ Hrest]%andb_true_iff. apply IH. exact Hrest.
Qed.

(** With exactly K kept timestamps the oldest of them is the K-th most
    recent access. *)
Lemma kth_recent_full (k : Z) (hist : list Z) :
  Z.of_nat (length hist) = k → kth_recent k hist = head hist.
Proof.
  intros <-. unfold kth_recent. destruct hist as [| t hist]; [reflexivity |].
  destruct (Z.leb_spec (Z.of_nat (length (t :: hist))) 0) as [H | _]; [simpl in H; lia |].
  replace (Z.to_nat (Z.of_nat (length (t :: hist)) - 1)) with (length hist) by (simpl; lia).
  rewrite reverse_cons. rewrite lookup_app_r; rewrite length_reverse; [| lia].
  rewrite Nat.sub_diag. reflexivity.
Qed.

(** The replacer law of section 8: after A,B,C,D,A,B,C with K = 2, every
    frame evictable, [Evict] takes D, the only frame still cold. *)
Example Evict_abcd_abc :
  fst <$> (match Evict abcd_abc with Done r => Some r | Fail _ => None end) = Some (Some 4).
Proof. vm_compute. reflexivity. Qed.

(** ** The representation invariant *)

Lemma front_of_hist (s : LRUKReplacer) (p : ptr) :
  front_of s p = hist_of s p ≫= head.
Proof.
  unfold front_of, front_in, hist_of. destruct (nodes s !! p); reflexivity.
Qed.

Lemma ascending_cons (key : ptr → option Z) (p : ptr) (l : list ptr) :
  ascending key (p :: l) = true ↔
  (∀ q, q ∈ l → ∃ a b, key p = Some a ∧ key q = Some b ∧ a ≤ b)
  ∧ ascending key l = true.
Proof.
  simpl. rewrite andb_true_iff, forallb_elem.
  split; intros [H1 H2]; (split; [| exact H2]); intros q Hq; specialize (H1 q Hq).
  - destruct (key p) as [a |], (key q) as [b |]; try discriminate.
    exists a, b. repeat split. apply Z.leb_le. exact H1.
  - destruct H1 as (a & b & -> & -> & Hle). apply Z.leb_le. exact Hle.
Qed.

Lemma ascending_ext (key key' : ptr → option Z) (l : list ptr) :
  (∀ q, q ∈ l → key q = key' q) →
  ascending key l = true → ascending key' l = true.
Proof.
  induction l as [| p l IH]; intros Hext; [reflexivity |].
  rewrite !ascending_cons. intros [H1 H2]. split.
  - intros q Hq. rewrite <- (Hext p), <- (Hext q).
    + exact (H1 q Hq).
    + apply list_elem_of_further. exact Hq.
    + apply list_elem_of_here.
  - apply IH; [| exact H2]. intros q Hq. apply Hext.
    apply list_elem_of_further. exact Hq.
Qed.

Lemma ascending_list_remove (key : ptr → option Z) (p : ptr) (l : list ptr) :
  ascending key l = true → ascending key (list_remove p l) = true.
Proof.
  unfold list_remove. induction l as [| x l IH]; [reflexivity |].
  rewrite ascending_cons. intros [H1 H2]. rewrite filter_cons.
  destruct (decide (x ≠ p)); [| apply IH; exact H2].
  rewrite ascending_cons. split; [| apply IH; exact H2].
  intros q [_ Hq]%list_elem_of_filter. exact (H1 q Hq).
Qed.

Lemma list_remove_absent (p : ptr) (l : list ptr) : p ∉ l → list_remove p l = l.
Proof.
  unfold list_remove. induction l as [| x l IH]; [reflexivity |].
  intros [Hx Hl]%not_elem_of_cons. rewrite filter_cons.
  destruct (decide (x ≠ p)) as [_ | Hn]; [| exfalso; apply Hn; congruence].
  f_equal. apply IH. exact Hl.
Qed.

Lemma list_remove_NoDup (p : ptr) (l : list ptr) : NoDup l → NoDup (list_remove p l).
Proof. apply NoDup_filter. Qed.

(** The scan of [RecordAccess] keeps an ascending pool ascending, adds the
    node and nothing else. *)
Lemma insert_by_kth_spec (h : gmap ptr LRUKNode) (kth : Z) (p : ptr) (l : list ptr) :
  ascending (front_in h) l = true →
  (∀ q, q ∈ l → is_Some (front_in h q)) →
  front_in h p = Some kth →
  ∃ l', insert_by_kth h kth p l = Done l'
    ∧ ascending (front_in h) l' = true
    ∧ (∀ q, q ∈ l' ↔ q = p ∨ q ∈ l)
    ∧ (p ∉ l → NoDup l → NoDup l').
Proof.
  intros Hasc Hfront Hp. induction l as [| q l IH].
  - exists [p]. split; [reflexivity |]. split; [reflexivity |]. split.
    + intros q. rewrite list_elem_of_singleton, elem_of_nil. tauto.
    + intros _ _. apply NoDup_singleton.
  - apply ascending_cons in Hasc as [Hq Hasc].
    destruct (Hfront q) as [f Hf]; [apply list_elem_of_here |].
    simpl. unfold front_in in Hf.
    destruct (h !! q) as [nq |] eqn:Hnq; [| discriminate]. simpl in Hf |- *.
    rewrite Hf. simpl.
    assert (front_in h q = Some f) as Hf'.
    { unfold front_in. rewrite Hnq. exact Hf. }
    destruct (Z.gtb_spec f kth) as [Hgt | Hle].
    + exists (p :: q :: l). split; [reflexivity |]. split; [| split].
      * rewrite !ascending_cons. split; [| split; [exact Hq | exact Hasc]].
        intros x [-> | Hx]%elem_of_cons.
        -- exists kth, f. repeat split; [exact Hp | exact Hf' | lia].
        -- destruct (Hq x Hx) as (a & b & Ha & Hb & Hab).
           exists kth, b. rewrite Hf' in Ha. injection Ha as <-.
           repeat split; [exact Hp | exact Hb | lia].
      * intros x. rewrite elem_of_cons. tauto.
      * intros Hnotin Hnd. apply NoDup_cons. split; assumption.
    + destruct IH as (l' & Hins & Hasc' & Hmem & Hnd); [exact Hasc | |].
      { intros x Hx. apply Hfront. apply list_elem_of_further. exact Hx. }
      rewrite Hins. simpl. exists (q :: l'). split; [reflexivity |].
      split; [| split].
      * rewrite ascending_cons. split; [| exact Hasc'].
        intros x [-> | Hx]%Hmem.
        -- exists f, kth. repeat split; [exact Hf' | exact Hp | lia].
        -- exact (Hq x Hx).
      * intros x. rewrite !elem_of_cons, Hmem. tauto.
      * intros [Hne Hnotin]%not_elem_of_cons [Hq' Hnd']%NoDup_cons.
        apply NoDup_cons. split; [| apply Hnd; assumption].
        rewrite Hmem. intros [-> | Hin]; [congruence | contradiction].
Qed.

Lemma consistent_init (num_frames k : Z) : consistent (init num_frames k).
Proof.
  split; simpl; unfold hist_of, fid_of; simpl.
  - intros f p H. rewrite lookup_empty in H. discriminate.
  - intros p f H. rewrite lookup_empty in H. discriminate.
  - intros p [n H]. rewrite lookup_empty in H. discriminate.
  - intros p h H. rewrite lookup_empty in H. discriminate.
  - intros p. rewrite elem_of_nil. split; [tauto |].
    intros (h & H & _). rewrite lookup_empty in H. discriminate.
  - intros p. rewrite elem_of_nil. split; [tauto |].
    intros (h & H & _). rewrite lookup_empty in H. discriminate.
  - apply NoDup_nil_2.
  - apply NoDup_nil_2.
  - reflexivity.
Qed.

(** A node that is tracked is live, in exactly one pool, chosen by the
    number of timestamps it keeps. *)
Lemma consistent_not_both (s : LRUKReplacer) (p : ptr) :
  consistent s → p ∈ less_k_ s → p ∈ more_k_ s → False.
Proof.
  intros Hc (h & Hh & Hlt)%(cold_nodes s Hc) (h' & Hh' & Heq)%(warm_nodes s Hc).
  rewrite Hh in Hh'. injection Hh' as <-. lia.
Qed.

Lemma consistent_one_pool (s : LRUKReplacer) (p : ptr) :
  consistent s → is_Some (nodes s !! p) → p ∈ less_k_ s ∨ p ∈ more_k_ s.
Proof.
  intros Hc [n Hn].
  assert (hist_of s p = Some (history_ n)) as Hh.
  { unfold hist_of. rewrite Hn. reflexivity. }
  pose proof (history_bounds s Hc p _ Hh) as Hb.
  destruct (Z_lt_dec (Z.of_nat (length (history_ n))) (k_ s)).
  - left. apply (cold_nodes s Hc). eauto.
  - right. apply (warm_nodes s Hc). exists (history_ n). split; [exact Hh | lia].
Qed.

(** *** One node changes, the rest of the store stays *)

Lemma views_insert (s s' : LRUKReplacer) (p : ptr) (n' : LRUKNode) :
  nodes s' = <[p := n']> (nodes s) →
  (hist_of s' p = Some (history_ n') ∧ fid_of s' p = Some (fid_ n'))
  ∧ ∀ q, q ≠ p → hist_of s' q = hist_of s q ∧ fid_of s' q = fid_of s q
                 ∧ nodes s' !! q = nodes s !! q.
Proof.
  intros Hn. unfold hist_of, fid_of. rewrite Hn. split.
  - rewrite lookup_insert_eq. split; reflexivity.
  - intros q Hq. rewrite lookup_insert_ne by congruence. repeat split.
Qed.

Lemma views_delete (s s' : LRUKReplacer) (p : ptr) :
  nodes s' = delete p (nodes s) →
  (hist_of s' p = None ∧ fid_of s' p = None)
  ∧ ∀ q, q ≠ p → hist_of s' q = hist_of s q ∧ fid_of s' q = fid_of s q
                 ∧ nodes s' !! q = nodes s !! q.
Proof.
  intros Hn. unfold hist_of, fid_of. rewrite Hn. split.
  - rewrite lookup_delete_eq. split; reflexivity.
  - intros q Hq. rewrite lookup_delete_ne by congruence. repeat split.
Qed.

Lemma front_of_unchanged (s s' : LRUKReplacer) (l : list ptr) :
  (∀ q, q ∈ l → hist_of s' q = hist_of s q) →
  ascending (front_of s) l = true → ascending (front_of s') l = true.
Proof.
  intros H. apply ascending_ext. intros q Hq.
  rewrite !front_of_hist, (H q Hq). reflexivity.
Qed.

(** [SetEvictable]: only the flag of a node changes. *)
Lemma consistent_same_views (s s' : LRUKReplacer) :
  consistent s →
  (∀ q, hist_of s' q = hist_of s q) →
  (∀ q, fid_of s' q = fid_of s q) →
  (∀ q, is_Some (nodes s' !! q) → is_Some (nodes s !! q)) →
  node_store_ s' = node_store_ s →
  next_node s' = next_node s →
  k_ s' = k_ s →
  less_k_ s' = less_k_ s →
  more_k_ s' = more_k_ s →
  consistent s'.
Proof.
  intros Hc Hh Hf Hlive Hstore Hnext Hk Hless Hmore.
  split; rewrite ?Hstore, ?Hnext, ?Hk, ?Hless, ?Hmore.
  - intros f p. rewrite Hf. apply (tracked_live s Hc).
  - intros p f. rewrite Hf. apply (live_tracked s Hc).
  - intros p Hp. apply (live_below_next s Hc). apply Hlive. exact Hp.
  - intros p h. rewrite Hh. apply (history_bounds s Hc).
  - intros p. rewrite (cold_nodes s Hc). setoid_rewrite Hh. reflexivity.
  - intros p. rewrite (warm_nodes s Hc). setoid_rewrite Hh. reflexivity.
  - apply (cold_nodup s Hc).
  - apply (warm_nodup s Hc).
  - apply (front_of_unchanged s); [intros q _; apply Hh |].
    apply (warm_ascending s Hc).
Qed.

(** [Evict] and [Remove]: a node leaves the store, the map and its pool. *)
Lemma consistent_untrack (s s' : LRUKReplacer) (p : ptr) (n : LRUKNode) :
  consistent s →
  nodes s !! p = Some n →
  nodes s' = delete p (nodes s) →
  node_store_ s' = delete (fid_ n) (node_store_ s) →
  next_node s' = next_node s →
  k_ s' = k_ s →
  less_k_ s' = list_remove p (less_k_ s) →
  more_k_ s' = list_remove p (more_k_ s) →
  consistent s'.
Proof.
  intros Hc Hn Hnodes Hstore Hnext Hk Hless Hmore.
  destruct (views_delete s s' p Hnodes) as [[Hhp Hfp] Hother].
  assert (fid_of s p = Some (fid_ n)) as Hfid.
  { unfold fid_of. rewrite Hn. reflexivity. }
  split; rewrite ?Hstore, ?Hnext, ?Hk, ?Hless, ?Hmore.
  - intros f q [Hne Hq]%lookup_delete_Some.
    pose proof (tracked_live s Hc f q Hq) as Hfq.
    destruct (decide (q = p)) as [-> | Hqp]; [congruence |].
    destruct (Hother q Hqp) as (_ & -> & _). exact Hfq.
  - intros q f Hq.
    destruct (decide (q = p)) as [-> | Hqp]; [congruence |].
    destruct (Hother q Hqp) as (_ & Hf & _). rewrite Hf in Hq.
    apply lookup_delete_Some. split; [| apply (live_tracked s Hc); exact Hq].
    intros <-. apply Hqp.
    pose proof (live_tracked s Hc p _ Hfid) as H1.
    pose proof (live_tracked s Hc q _ Hq) as H2. congruence.
  - intros q Hq. apply (live_below_next s Hc).
    rewrite Hnodes in Hq. destruct Hq as [m Hm].
    apply lookup_delete_Some in Hm as [_ Hm]. eauto.
  - intros q h Hq.
    destruct (decide (q = p)) as [-> | Hqp]; [congruence |].
    destruct (Hother q Hqp) as (Hh & _). rewrite Hh in Hq.
    apply (history_bounds s Hc q h Hq).
  - intros q. rewrite list_remove_elem, (cold_nodes s Hc).
    destruct (decide (q = p)) as [-> | Hqp].
    + rewrite Hhp. split; [tauto |]. intros (h & H & _). discriminate.
    + destruct (Hother q Hqp) as (-> & _). tauto.
  - intros q. rewrite list_remove_elem, (warm_nodes s Hc).
    destruct (decide (q = p)) as [-> | Hqp].
    + rewrite Hhp. split; [tauto |]. intros (h & H & _). discriminate.
    + destruct (Hother q Hqp) as (-> & _). tauto.
  - apply list_remove_NoDup, (cold_nodup s Hc).
  - apply list_remove_NoDup, (warm_nodup s Hc).
  - apply (front_of_unchanged s).
    + intros q [Hqp _]%list_remove_elem. apply (Hother q Hqp).
    + apply ascending_list_remove, (warm_ascending s Hc).
Qed.

(** [RecordAccess] of an untracked frame: a fresh node at the back of the
    cold pool. This is where K >= 2 is needed: the node keeps one
    timestamp, and one is fewer than K. *)
Lemma consistent_track (s s' : LRUKReplacer) (f ts : Z) (n' : LRUKNode) :
  2 ≤ k_ s →
  consistent s →
  node_store_ s !! f = None →
  history_ n' = [ts] → fid_ n' = f →
  nodes s' = <[next_node s := n']> (nodes s) →
  node_store_ s' = <[f := next_node s]> (node_store_ s) →
  next_node s' = Pos.succ (next_node s) →
  k_ s' = k_ s →
  less_k_ s' = less_k_ s ++ [next_node s] →
  more_k_ s' = more_k_ s →
  consistent s'.
Proof.
  intros HK Hc Hf Hhist Hfid Hnodes Hstore Hnext Hk Hless Hmore.
  set (p := next_node s) in *.
  destruct (views_insert s s' p n' Hnodes) as [[Hhp Hfp] Hother].
  rewrite Hhist in Hhp. rewrite Hfid in Hfp.
  assert (nodes s !! p = None) as Hfresh.
  { destruct (nodes s !! p) as [m |] eqn:Hm; [| reflexivity].
    pose proof (live_below_next s Hc p (mk_is_Some _ _ Hm)) as Hlt. lia. }
  assert (hist_of s p = None) as Hhp0 by (unfold hist_of; rewrite Hfresh; reflexivity).
  assert (fid_of s p = None) as Hfp0 by (unfold fid_of; rewrite Hfresh; reflexivity).
  assert (p ∉ less_k_ s) as Hpl.
  { intros (h & H & _)%(cold_nodes s Hc). congruence. }
  assert (p ∉ more_k_ s) as Hpm.
  { intros (h & H & _)%(warm_nodes s Hc). congruence. }
  split; rewrite ?Hstore, ?Hnext, ?Hk, ?Hless, ?Hmore.
  - intros f' q Hq. apply lookup_insert_Some in Hq as [[<- <-] | [Hne Hq]].
    + exact Hfp.
    + pose proof (tracked_live s Hc f' q Hq) as Hfq.
      assert (q ≠ p) as Hqp by congruence.
      destruct (Hother q Hqp) as (_ & -> & _). exact Hfq.
  - intros q f' Hq. destruct (decide (q = p)) as [-> | Hqp].
    + rewrite Hfp in Hq. injection Hq as <-. apply lookup_insert_eq.
    + destruct (Hother q Hqp) as (_ & Hfq & _). rewrite Hfq in Hq.
      pose proof (live_tracked s Hc q f' Hq) as Hs.
      rewrite lookup_insert_ne by congruence. exact Hs.
  - intros q Hq. destruct (decide (q = p)) as [-> | Hqp]; [lia |].
    destruct (Hother q Hqp) as (_ & _ & Hn). rewrite Hn in Hq.
    pose proof (live_below_next s Hc q Hq). fold p in H. lia.
  - intros q h Hq. destruct (decide (q = p)) as [-> | Hqp].
    + rewrite Hhp in Hq. injection Hq as <-. simpl. lia.
    + destruct (Hother q Hqp) as (Hh & _). rewrite Hh in Hq.
      apply (history_bounds s Hc q h Hq).
  - intros q. rewrite elem_of_app, list_elem_of_singleton, (cold_nodes s Hc).
    destruct (decide (q = p)) as [-> | Hqp].
    + rewrite Hhp. split; [| tauto]. intros _. exists [ts]. split; [reflexivity | simpl; lia].
    + destruct (Hother q Hqp) as (-> & _). tauto.
  - intros q. rewrite (warm_nodes s Hc).
    destruct (decide (q = p)) as [-> | Hqp].
    + rewrite Hhp, Hhp0. split; intros (h & H & Hlen); [discriminate |].
      injection H as <-. simpl in Hlen. lia.
    + destruct (Hother q Hqp) as (-> & _). tauto.
  - apply NoDup_app. split; [apply (cold_nodup s Hc) |]. split; [| apply NoDup_singleton].
    intros q Hq ->%list_elem_of_singleton. contradiction.
  - apply (warm_nodup s Hc).
  - apply (front_of_unchanged s); [| apply (warm_ascending s Hc)].
    intros q Hq. apply Hother. congruence.
Qed.

(** [RecordAccess] of a cold node that stays cold: one more timestamp. *)
Lemma consistent_append (s s' : LRUKReplacer) (p : ptr) (n n' : LRUKNode) :
  consistent s →
  nodes s !! p = Some n →
  fid_ n' = fid_ n →
  Z.of_nat (length (history_ n)) < Z.of_nat (length (history_ n')) < k_ s →
  head (history_ n') = head (history_ n) →
  nodes s' = <[p := n']> (nodes s) →
  node_store_ s' = node_store_ s →
  next_node s' = next_node s →
  k_ s' = k_ s →
  less_k_ s' = less_k_ s →
  more_k_ s' = more_k_ s →
  consistent s'.
Proof.
  intros Hc Hn Hfid Hlen Hhead Hnodes Hstore Hnext Hk Hless Hmore.
  destruct (views_insert s s' p n' Hnodes) as [[Hhp Hfp] Hother].
  assert (hist_of s p = Some (history_ n)) as Hhp0.
  { unfold hist_of. rewrite Hn. reflexivity. }
  assert (fid_of s p = Some (fid_ n)) as Hfp0.
  { unfold fid_of. rewrite Hn. reflexivity. }
  rewrite Hfid in Hfp.
  pose proof (history_bounds s Hc p _ Hhp0) as Hb.
  split; rewrite ?Hstore, ?Hnext, ?Hk, ?Hless, ?Hmore.
  - intros f q Hq. pose proof (tracked_live s Hc f q Hq) as Hfq.
    destruct (decide (q = p)) as [-> | Hqp]; [congruence |].
    destruct (Hother q Hqp) as (_ & -> & _). exact Hfq.
  - intros q f Hq. apply (live_tracked s Hc).
    destruct (decide (q = p)) as [-> | Hqp]; [congruence |].
    destruct (Hother q Hqp) as (_ & <- & _). exact Hq.
  - intros q Hq. apply (live_below_next s Hc).
    destruct (decide (q = p)) as [-> | Hqp]; [eauto |].
    destruct (Hother q Hqp) as (_ & _ & <-). exact Hq.
  - intros q h Hq. destruct (decide (q = p)) as [-> | Hqp].
    + rewrite Hhp in Hq. injection Hq as <-. lia.
    + destruct (Hother q Hqp) as (Hh & _). rewrite Hh in Hq.
      apply (history_bounds s Hc q h Hq).
  - intros q. rewrite (cold_nodes s Hc).
    destruct (decide (q = p)) as [-> | Hqp].
    + rewrite Hhp, Hhp0. split; intros _; eexists; (split; [reflexivity | lia]).
    + destruct (Hother q Hqp) as (-> & _). tauto.
  - intros q. rewrite (warm_nodes s Hc).
    destruct (decide (q = p)) as [-> | Hqp].
    + rewrite Hhp, Hhp0. split; intros (h & [= <-] & Hl); lia.
    + destruct (Hother q Hqp) as (-> & _). tauto.
  - apply (cold_nodup s Hc).
  - apply (warm_nodup s Hc).
  - apply (ascending_ext (front_of s)); [| apply (warm_ascending s Hc)].
    intros q Hq. rewrite !front_of_hist.
    destruct (decide (q = p)) as [-> | Hqp].
    + rewrite Hhp, Hhp0. simpl. congruence.
    + destruct (Hother q Hqp) as (-> & _). reflexivity.
Qed.

(** [RecordAccess] of a node that reaches or keeps K timestamps: it leaves
    the pool it was in and is inserted in the warm pool. *)
Lemma consistent_reinsert (s s' : LRUKReplacer) (p : ptr) (n n' : LRUKNode) :
  consistent s →
  nodes s !! p = Some n →
  fid_ n' = fid_ n →
  Z.of_nat (length (history_ n')) = k_ s →
  nodes s' = <[p := n']> (nodes s) →
  node_store_ s' = node_store_ s →
  next_node s' = next_node s →
  k_ s' = k_ s →
  (∀ q, q ∈ less_k_ s' ↔ q ≠ p ∧ q ∈ less_k_ s) →
  (∀ q, q ∈ more_k_ s' ↔ q = p ∨ (q ≠ p ∧ q ∈ more_k_ s)) →
  NoDup (less_k_ s') →
  NoDup (more_k_ s') →
  ascending (front_of s') (more_k_ s') = true →
  consistent s'.
Proof.
  intros Hc Hn Hfid Hlen Hnodes Hstore Hnext Hk Hless Hmore Hndl Hndm Hasc.
  destruct (views_insert s s' p n' Hnodes) as [[Hhp Hfp] Hother].
  assert (fid_of s p = Some (fid_ n)) as Hfp0.
  { unfold fid_of. rewrite Hn. reflexivity. }
  rewrite Hfid in Hfp.
  split; rewrite ?Hstore, ?Hnext, ?Hk; try assumption.
  - intros f q Hq. pose proof (tracked_live s Hc f q Hq) as Hfq.
    destruct (decide (q = p)) as [-> | Hqp]; [congruence |].
    destruct (Hother q Hqp) as (_ & -> & _). exact Hfq.
  - intros q f Hq. apply (live_tracked s Hc).
    destruct (decide (q = p)) as [-> | Hqp]; [congruence |].
    destruct (Hother q Hqp) as (_ & <- & _). exact Hq.
  - intros q Hq. apply (live_below_next s Hc).
    destruct (decide (q = p)) as [-> | Hqp]; [eauto |].
    destruct (Hother q Hqp) as (_ & _ & <-). exact Hq.
  - intros q h Hq. destruct (decide (q = p)) as [-> | Hqp].
    + rewrite Hhp in Hq. injection Hq as <-.
      assert (hist_of s p = Some (history_ n)) as H0.
      { unfold hist_of. rewrite Hn. reflexivity. }
      pose proof (history_bounds s Hc p _ H0). lia.
    + destruct (Hother q Hqp) as (Hh & _). rewrite Hh in Hq.
      apply (history_bounds s Hc q h Hq).
  - intros q. rewrite Hless, (cold_nodes s Hc).
    destruct (decide (q = p)) as [-> | Hqp].
    + rewrite Hhp. split; [tauto |]. intros (h & [= <-] & Hl). lia.
    + destruct (Hother q Hqp) as (-> & _). tauto.
  - intros q. rewrite Hmore, (warm_nodes s Hc).
    destruct (decide (q = p)) as [-> | Hqp].
    + rewrite Hhp. split; [| tauto]. intros _. eauto.
    + destruct (Hother q Hqp) as (-> & _). tauto.
Qed.

(** *** The operations keep the invariant *)

Lemma tracked_node (s : LRUKReplacer) (f : Z) (p : ptr) :
  consistent s → node_store_ s !! f = Some p →
  ∃ n, nodes s !! p = Some n ∧ fid_ n = f
       ∧ 1 ≤ Z.of_nat (length (history_ n)) ≤ k_ s.
Proof.
  intros Hc Hp. pose proof (tracked_live s Hc f p Hp) as Hf.
  unfold fid_of in Hf. destruct (nodes s !! p) as [n |] eqn:Hn; [| discriminate].
  injection Hf as Hf. exists n. repeat split; [exact Hf | |];
    apply (history_bounds s Hc p (history_ n)); unfold hist_of; rewrite Hn; reflexivity.
Qed.

Lemma SetEvictable_consistent (s : LRUKReplacer) (f : Z) (b : bool) :
  consistent s →
  (to_size_t f >? replacer_size_ s) = false →
  ∃ s', SetEvictable s f b = Done s' ∧ consistent s'
        ∧ k_ s' = k_ s ∧ replacer_size_ s' = replacer_size_ s.
Proof.
  intros Hc Hg. unfold SetEvictable. rewrite Hg.
  destruct (node_store_ s !! f) as [p |] eqn:Hp; [| eauto].
  destruct (tracked_node s f p Hc Hp) as (n & Hn & _). rewrite Hn. simpl.
  assert (∀ sz, consistent (set_flag s p n b sz)) as Hset.
  { intros sz. apply (consistent_same_views s); try reflexivity; [exact Hc | | |].
    - intros q. unfold hist_of, set_flag. simpl.
      destruct (decide (q = p)) as [-> | Hqp].
      + rewrite lookup_insert_eq, Hn. reflexivity.
      + rewrite lookup_insert_ne by congruence. reflexivity.
    - intros q. unfold fid_of, set_flag. simpl.
      destruct (decide (q = p)) as [-> | Hqp].
      + rewrite lookup_insert_eq, Hn. reflexivity.
      + rewrite lookup_insert_ne by congruence. reflexivity.
    - intros q. unfold set_flag. simpl.
      destruct (decide (q = p)) as [-> | Hqp]; [eauto |].
      rewrite lookup_insert_ne by congruence. tauto. }
  destruct (is_evictable_ n), b; simpl; eauto.
Qed.

Lemma Remove_consistent (s : LRUKReplacer) (f : Z) :
  consistent s →
  (to_size_t f >? replacer_size_ s) = false →
  (∀ n, node_of s f = Some n → is_evictable_ n = true) →
  ∃ s', Remove s f = Done s' ∧ consistent s'
        ∧ k_ s' = k_ s ∧ replacer_size_ s' = replacer_size_ s.
Proof.
  intros Hc Hg Hev. unfold Remove. rewrite Hg.
  destruct (node_store_ s !! f) as [p |] eqn:Hp; [| eauto].
  destruct (tracked_node s f p Hc Hp) as (n & Hn & Hfid & Hb). rewrite Hn. simpl.
  rewrite (Hev n); [| unfold node_of; rewrite Hp; exact Hn]. simpl.
  assert (hist_of s p = Some (history_ n)) as Hh.
  { unfold hist_of. rewrite Hn. reflexivity. }
  destruct (Z.ltb_spec (Z.of_nat (length (history_ n))) (k_ s)) as [Hlt | Hge];
    (eexists; split; [reflexivity |]; split; [| split; reflexivity]);
    apply (consistent_untrack s _ p n Hc Hn); simpl;
    try reflexivity; try (rewrite Hfid; reflexivity).
  - symmetry. apply list_remove_absent.
    intros (h & Hh' & Heq)%(warm_nodes s Hc). rewrite Hh in Hh'.
    injection Hh' as <-. lia.
  - symmetry. apply list_remove_absent.
    intros (h & Hh' & Heq)%(cold_nodes s Hc). rewrite Hh in Hh'.
    injection Hh' as <-. lia.
Qed.

Lemma pool_node_live (s : LRUKReplacer) (p : ptr) :
  consistent s → p ∈ less_k_ s ++ more_k_ s → is_Some (nodes s !! p).
Proof.
  intros Hc [Hp | Hp]%elem_of_app.
  - apply (cold_nodes s Hc) in Hp as (h & Hh & _). unfold hist_of in Hh.
    destruct (nodes s !! p); [eauto | discriminate].
  - apply (warm_nodes s Hc) in Hp as (h & Hh & _). unfold hist_of in Hh.
    destruct (nodes s !! p); [eauto | discriminate].
Qed.

Lemma Evict_consistent (s : LRUKReplacer) :
  consistent s →
  ∃ victim s', Evict s = Done (victim, s') ∧ consistent s'
               ∧ k_ s' = k_ s ∧ replacer_size_ s' = replacer_size_ s.
Proof.
  intros Hc. unfold Evict.
  destruct (scan_evictable_spec s (less_k_ s))
    as [(before & p & n & after & Hless & Hn & _ & _ & Hscan) | [_ Hscan]].
  { intros p Hp. apply (pool_node_live s p Hc). apply elem_of_app. left. exact Hp. }
  { rewrite Hscan. simpl. eexists. eexists. split; [reflexivity |].
    split; [| split; reflexivity].
    apply (consistent_untrack s _ p n Hc Hn); simpl; try reflexivity.
    symmetry. apply list_remove_absent. intros Hp.
    apply (consistent_not_both s p Hc); [| exact Hp].
    rewrite Hless. apply elem_of_app. right. apply list_elem_of_here. }
  rewrite Hscan. simpl.
  destruct (scan_evictable_spec s (more_k_ s))
    as [(before & p & n & after & Hmore & Hn & _ & _ & Hscan') | [_ Hscan']].
  { intros p Hp. apply (pool_node_live s p Hc). apply elem_of_app. right. exact Hp. }
  - rewrite Hscan'. simpl. eexists. eexists. split; [reflexivity |].
    split; [| split; reflexivity].
    apply (consistent_untrack s _ p n Hc Hn); simpl; try reflexivity.
    symmetry. apply list_remove_absent. intros Hp.
    apply (consistent_not_both s p Hc); [exact Hp |].
    rewrite Hmore. apply elem_of_app. right. apply list_elem_of_here.
  - rewrite Hscan'. simpl. exists None, s.
    split; [reflexivity |]. split; [exact Hc |]. split; reflexivity.
Qed.

(** What the insertion scan of [RecordAccess] needs and gives, for a node
    [p] whose new content [n'] is already in the store. *)
Lemma reinsert_scan (s : LRUKReplacer) (p : ptr) (n' : LRUKNode) (kth : Z)
    (more : list ptr) :
  consistent s →
  0 < k_ s →
  head (history_ n') = Some kth →
  (∀ q, q ∈ more ↔ q ≠ p ∧ q ∈ more_k_ s) →
  NoDup more →
  ascending (front_of s) more = true →
  let h' := <[p := n']> (nodes s) in
  ∃ more', insert_by_kth h' kth p more = Done more'
    ∧ ascending (front_in h') more' = true
    ∧ (∀ q, q ∈ more' ↔ q = p ∨ (q ≠ p ∧ q ∈ more_k_ s))
    ∧ NoDup more'.
Proof.
  intros Hc HK Hhead Hmem Hnd Hasc h'.
  assert (∀ q, q ≠ p → front_in h' q = front_of s q) as Hfront.
  { intros q Hq. unfold front_of, front_in, h'.
    rewrite lookup_insert_ne by congruence. reflexivity. }
  destruct (insert_by_kth_spec h' kth p more) as (more' & Hins & Hasc' & Hmem' & Hnd').
  - apply (ascending_ext (front_of s)); [| exact Hasc].
    intros q [Hq _]%Hmem. symmetry. apply Hfront. exact Hq.
  - intros q [Hqp Hq]%Hmem. rewrite (Hfront q Hqp), front_of_hist.
    apply (warm_nodes s Hc) in Hq as (h & -> & Hlen). simpl.
    destruct h; [simpl in Hlen; lia | eauto].
  - unfold front_in, h'. rewrite lookup_insert_eq. exact Hhead.
  - exists more'. split; [exact Hins |]. split; [exact Hasc' |]. split.
    + intros q. rewrite Hmem', Hmem. reflexivity.
    + apply Hnd'; [| exact Hnd]. intros [H _]%Hmem. congruence.
Qed.

Lemma RecordAccess_consistent (s : LRUKReplacer) (f : Z) :
  2 ≤ k_ s →
  consistent s →
  (to_size_t f >? replacer_size_ s) = false →
  ∃ s', RecordAccess s f = Done s' ∧ consistent s'
        ∧ k_ s' = k_ s ∧ replacer_size_ s' = replacer_size_ s.
Proof.
  intros HK Hc Hg. unfold RecordAccess. rewrite Hg.
  set (ts := to_size_t (current_timestamp_ s + 1)).
  destruct (node_store_ s !! f) as [p |] eqn:Hp.
  2: { eexists. split; [reflexivity |]. split; [| split; reflexivity].
       eapply (consistent_track s _ f ts); simpl; try reflexivity; eauto. }
  destruct (tracked_node s f p Hc Hp) as (n & Hn & Hfid & Hb). rewrite Hn. simpl.
  assert (hist_of s p = Some (history_ n)) as Hh.
  { unfold hist_of. rewrite Hn. reflexivity. }
  assert (length (history_ n ++ [ts]) = S (length (history_ n))) as Hlen.
  { rewrite length_app. simpl. lia. }
  assert (head (history_ n ++ [ts]) = head (history_ n)) as Hhead.
  { destruct (history_ n); [simpl in Hb; lia | reflexivity]. }
  destruct (Z.ltb_spec (Z.of_nat (length (history_ n ++ [ts]))) (k_ s)) as [Hlt | Hge].
  { (* still cold *)
    eexists. split; [reflexivity |]. split; [| split; reflexivity].
    apply (consistent_append s _ p n (with_history n (history_ n ++ [ts])) Hc Hn);
      simpl; try reflexivity; [lia | exact Hhead]. }
  destruct (Z.eqb_spec (Z.of_nat (length (history_ n ++ [ts]))) (k_ s)) as [Heq | Hne].
  - (* the K-th timestamp: from the cold pool to the warm pool *)
    assert (p ∈ less_k_ s) as Hpl.
    { apply (cold_nodes s Hc). exists (history_ n). split; [exact Hh | lia]. }
    assert (p ∉ more_k_ s) as Hpm.
    { intros H. exact (consistent_not_both s p Hc Hpl H). }
    destruct (history_ n ++ [ts]) as [| kth rest] eqn:Hhist; [simpl in Hlen; lia |].
    simpl.
    destruct (reinsert_scan s p (with_history n (kth :: rest)) kth (more_k_ s) Hc)
      as (more' & Hins & Hasc & Hmem & Hnd); try reflexivity; [lia | | | |].
    { intros q. split; [| tauto]. intros Hq. split; [congruence | exact Hq]. }
    { apply (warm_nodup s Hc). }
    { apply (warm_ascending s Hc). }
    rewrite Hins. simpl. eexists. split; [reflexivity |].
    split; [| split; reflexivity].
    apply (consistent_reinsert s _ p n (with_history n (kth :: rest)) Hc Hn);
      simpl; try reflexivity; try assumption.
    + intros q. apply list_remove_elem.
    + apply list_remove_NoDup, (cold_nodup s Hc).
  - (* more than K: the oldest timestamp goes, the node moves in the warm pool *)
    assert (Z.of_nat (length (history_ n)) = k_ s) as Hfull by lia.
    assert (p ∈ more_k_ s) as Hpm.
    { apply (warm_nodes s Hc). eauto. }
    assert (p ∉ less_k_ s) as Hpl.
    { intros H. exact (consistent_not_both s p Hc H Hpm). }
    assert (length (tail (history_ n ++ [ts])) = length (history_ n)) as Hlen'.
    { destruct (history_ n ++ [ts]); simpl in *; lia. }
    destruct (tail (history_ n ++ [ts])) as [| kth rest] eqn:Hhist;
      [simpl in Hlen'; lia |].
    simpl.
    destruct (reinsert_scan s p (with_history n (kth :: rest)) kth
                (list_remove p (more_k_ s)) Hc)
      as (more' & Hins & Hasc & Hmem & Hnd); try reflexivity; [lia | | | |].
    { intros q. apply list_remove_elem. }
    { apply list_remove_NoDup, (warm_nodup s Hc). }
    { apply ascending_list_remove, (warm_ascending s Hc). }
    rewrite Hins. simpl. eexists. split; [reflexivity |].
    split; [| split; reflexivity].
    apply (consistent_reinsert s _ p n (with_history n (kth :: rest)) Hc Hn);
      simpl; try reflexivity; try assumption.
    + simpl in Hlen'. lia.
    + intros q. split; [| tauto]. intros Hq. split; [congruence | exact Hq].
    + apply (cold_nodup s Hc).
Qed.

(** *** Runs of the replacer with K >= 2 *)

Lemma in_range_guard (s : LRUKReplacer) (f : Z) :
  in_range s f → (to_size_t f >? replacer_size_ s) = false.
Proof.
  intros [[H0 Hlt] H31]. rewrite to_size_t_small by (unfold SIZE_MOD; lia).
  destruct (Z.gtb_spec f (replacer_size_ s)); [lia | reflexivity].
Qed.

(** X2. With K >= 2, every permitted call on a replacer that satisfies
    the representation invariant returns (it neither throws nor reads a
    dead node) and leaves a replacer that satisfies the invariant, with K
    and the number of frames as they were. *)
Theorem step_consistent (s : LRUKReplacer) (o : op) :
  2 ≤ k_ s → consistent s → permitted s o →
  ∃ s', step s o = Done s' ∧ consistent s'
        ∧ k_ s' = k_ s ∧ replacer_size_ s' = replacer_size_ s.
Proof.
  intros HK Hc Hperm. destruct o as [f | f b | | f]; simpl in *.
  - apply RecordAccess_consistent; [exact HK | exact Hc |].
    apply in_range_guard. exact Hperm.
  - apply SetEvictable_consistent; [exact Hc |]. apply in_range_guard. exact Hperm.
  - destruct (Evict_consistent s Hc) as (victim & s' & -> & H). simpl. eauto.
  - destruct Hperm as [Hr Hev].
    apply Remove_consistent; [exact Hc | apply in_range_guard; exact Hr | exact Hev].
Qed.

(** Whatever call returns keeps the invariant, permitted or not. *)
Lemma step_keeps_consistent (s s' : LRUKReplacer) (o : op) :
  2 ≤ k_ s → consistent s → step s o = Done s' →
  consistent s' ∧ k_ s' = k_ s.
Proof.
  intros HK Hc Hstep. destruct o as [f | f b | | f]; simpl in Hstep.
  - destruct (to_size_t f >? replacer_size_ s) eqn:Hg.
    { unfold RecordAccess in Hstep. rewrite Hg in Hstep. discriminate. }
    destruct (RecordAccess_consistent s f HK Hc Hg) as (s'' & Hs & Hc' & Hk & _).
    rewrite Hs in Hstep. injection Hstep as <-. auto.
  - destruct (to_size_t f >? replacer_size_ s) eqn:Hg.
    { unfold SetEvictable in Hstep. rewrite Hg in Hstep. discriminate. }
    destruct (SetEvictable_consistent s f b Hc Hg) as (s'' & Hs & Hc' & Hk & _).
    rewrite Hs in Hstep. injection Hstep as <-. auto.
  - destruct (Evict_consistent s Hc) as (victim & s'' & Hs & Hc' & Hk & _).
    rewrite Hs in Hstep. simpl in Hstep. injection Hstep as <-. auto.
  - destruct (to_size_t f >? replacer_size_ s) eqn:Hg.
    { unfold Remove in Hstep. rewrite Hg in Hstep. discriminate. }
    destruct (Remove_consistent s f Hc Hg) as (s'' & Hs & Hc' & Hk & _).
    { intros n Hn. unfold Remove in Hstep. rewrite Hg in Hstep.
      unfold node_of in Hn. destruct (node_store_ s !! f) as [p |]; [| discriminate].
      simpl in Hn. rewrite Hn in Hstep. simpl in Hstep.
      destruct (is_evictable_ n); [reflexivity | discriminate]. }
    rewrite Hs in Hstep. injection Hstep as <-. auto.
Qed.

Theorem run_consistent (s s' : LRUKReplacer) (os : list op) :
  2 ≤ k_ s → consistent s → run s os = Done s' →
  consistent s' ∧ k_ s' = k_ s.
Proof.
  revert s. induction os as [| o os IH]; intros s HK Hc Hrun; simpl in Hrun.
  - injection Hrun as <-. auto.
  - destruct (step s o) as [s1 |] eqn:Hstep; simpl in Hrun; [| discriminate].
    destruct (step_keeps_consistent s s1 o HK Hc Hstep) as [Hc1 Hk1].
    destruct (IH s1) as [Hc' Hk']; [lia | exact Hc1 | exact Hrun |].
    split; [exact Hc' | lia].
Qed.

(** X3. With K >= 2, in every state a run of calls reaches from the
    constructor, a tracked frame is in the cold pool or in the warm pool and
    never in both. *)
Theorem one_pool_when_K_ge_2 (num_frames k : Z) (os : list op) (s : LRUKReplacer) :
  2 ≤ k →
  run (init num_frames k) os = Done s →
  ∀ f, is_Some (node_store_ s !! f) →
       (in_cold s f ∧ ¬ in_warm s f) ∨ (in_warm s f ∧ ¬ in_cold s f).
Proof.
  intros HK Hrun f [p Hp].
  destruct (run_consistent (init num_frames k) s os HK (consistent_init _ _) Hrun)
    as [Hc _].
  destruct (tracked_node s f p Hc Hp) as (n & Hn & _).
  destruct (consistent_one_pool s p Hc (mk_is_Some _ _ Hn)) as [Hl | Hm].
  - left. split; [exists p; auto |].
    intros (q & Hq & Hqm). rewrite Hp in Hq. injection Hq as <-.
    exact (consistent_not_both s p Hc Hl Hqm).
  - right. split; [exists p; auto |].
    intros (q & Hq & Hql). rewrite Hp in Hq. injection Hq as <-.
    exact (consistent_not_both s p Hc Hql Hm).
Qed.

(** The cold pool is a queue: a call leaves it as it was, takes one node
    out of it, or appends the node it has just created at the back. Nothing
    is ever inserted in front of a node, so the order of the list is the
    order of insertion. *)
Lemma cold_pool_is_a_queue (s s' : LRUKReplacer) (o : op) :
  step s o = Done s' →
  less_k_ s' = less_k_ s ++ [next_node s]
  ∨ less_k_ s' = less_k_ s
  ∨ ∃ p, less_k_ s' = list_remove p (less_k_ s).
Proof.
  intros H.
  destruct o; simpl in H;
    unfold RecordAccess, SetEvictable, Evict, Remove, set_flag,
           mbind, outcome_bind, deref in H;
    repeat case_match; simplify_eq; simpl; eauto.
Qed.

(** The timestamps a node keeps after [RecordAccess]: the old ones and the
    new one, without the oldest when that makes more than K. *)
Lemma RecordAccess_history (s s' : LRUKReplacer) (f : Z) :
  1 ≤ k_ s →
  RecordAccess s f = Done s' →
  let ts := to_size_t (current_timestamp_ s + 1) in
  let h := default [] (history_ <$> node_of s f) ++ [ts] in
  current_timestamp_ s' = ts
  ∧ (history_ <$> node_of s' f)
    = Some (if Z.of_nat (length h) <=? k_ s then h else tail h).
Proof.
  intros HK H. cbv zeta.
  assert (default [] (history_ <$> node_of s f)
          = match node_store_ s !! f with
            | Some p => match nodes s !! p with
                        | Some n => history_ n
                        | None => []
                        end
            | None => []
            end) as ->.
  { unfold node_of. destruct (node_store_ s !! f) as [p |]; [| reflexivity].
    simpl. destruct (nodes s !! p); reflexivity. }
  set (ts := to_size_t (current_timestamp_ s + 1)) in *.
  unfold RecordAccess in H. fold ts in H.
  destruct (to_size_t f >? replacer_size_ s); [discriminate |].
  destruct (node_store_ s !! f) as [p |] eqn:Hp.
  - destruct (nodes s !! p) as [n |] eqn:Hn; simpl in H; [| discriminate].
    assert (∀ less more hist',
              (history_ <$> node_of
                 {| nodes := <[p := with_history n hist']> (nodes s);
                    next_node := next_node s; node_store_ := node_store_ s;
                    current_timestamp_ := ts; curr_size_ := curr_size_ s;
                    replacer_size_ := replacer_size_ s; k_ := k_ s;
                    less_k_ := less; more_k_ := more |} f) = Some hist') as Hnew.
    { intros. unfold node_of. simpl. rewrite Hp. simpl.
      rewrite lookup_insert_eq. reflexivity. }
    destruct (Z.ltb_spec (Z.of_nat (length (history_ n ++ [ts]))) (k_ s)) as [Hlt | Hge].
    { injection H as <-. split; [reflexivity |]. rewrite Hnew.
      destruct (Z.leb_spec (Z.of_nat (length (history_ n ++ [ts]))) (k_ s));
        [reflexivity | lia]. }
    destruct (Z.eqb_spec (Z.of_nat (length (history_ n ++ [ts]))) (k_ s)) as [Heq | Hne];
      simpl in H;
      (destruct (head _) as [kth |]; simpl in H; [| discriminate]);
      (destruct (insert_by_kth _ _ _ _) as [more' |]; simpl in H; [| discriminate]);
      injection H as <-; (split; [reflexivity |]); rewrite Hnew;
      destruct (Z.leb_spec (Z.of_nat (length (history_ n ++ [ts]))) (k_ s));
      first [reflexivity | lia].
  - injection H as <-. split; [reflexivity |]. unfold node_of. simpl.
    rewrite lookup_insert_eq. simpl. rewrite lookup_insert_eq. simpl.
    destruct (Z.leb_spec (Z.of_nat 1) (k_ s)) as [_ | Hx]; [reflexivity | simpl in Hx; lia].
Qed.

(** X4. With K >= 2 a frame is in the warm pool after a [RecordAccess]
    exactly when it then keeps K timestamps, that is from its K-th access
    on; before that it is in the cold pool; a node never keeps more than K
    timestamps; and the warm pool stays in ascending order. *)
Theorem warm_from_Kth_access_when_K_ge_2
    (num_frames k : Z) (os : list op) (s s' : LRUKReplacer) (f : Z) :
  2 ≤ k →
  run (init num_frames k) os = Done s →
  RecordAccess s f = Done s' →
  ∃ h, (history_ <$> node_of s' f) = Some h
       ∧ 1 ≤ Z.of_nat (length h) ≤ k
       ∧ (Z.of_nat (length h) < k → in_cold s' f ∧ ¬ in_warm s' f)
       ∧ (Z.of_nat (length h) = k → in_warm s' f ∧ ¬ in_cold s' f)
       ∧ warm_sorted s' = true.
Proof.
  intros HK Hrun Hrec.
  destruct (run_consistent (init num_frames k) s os HK (consistent_init _ _) Hrun)
    as [Hc Hk]. simpl in Hk.
  destruct (step_keeps_consistent s s' (OpRecordAccess f)) as [Hc' Hk'];
    [lia | exact Hc | exact Hrec |].
  destruct (RecordAccess_history s s' f) as [_ Hh]; [lia | exact Hrec |].
  cbv zeta in Hh. eexists. split; [exact Hh |].
  unfold node_of in Hh.
  destruct (node_store_ s' !! f) as [p |] eqn:Hp; [| discriminate]. simpl in Hh.
  assert (hist_of s' p = Some (if Z.of_nat (length (default [] (history_ <$> node_of s f) ++ [to_size_t (current_timestamp_ s + 1)])) <=? k_ s
                               then default [] (history_ <$> node_of s f) ++ [to_size_t (current_timestamp_ s + 1)]
                               else tail (default [] (history_ <$> node_of s f) ++ [to_size_t (current_timestamp_ s + 1)]))) as Hh' by exact Hh.
  pose proof (history_bounds s' Hc' p _ Hh') as Hb.
  split; [lia |]. split; [| split].
  - intros Hlt.
    assert (p ∈ less_k_ s') as Hl.
    { apply (cold_nodes s' Hc'). eexists. split; [exact Hh' | lia]. }
    split; [exists p; auto |].
    intros (q & Hq & Hqm). rewrite Hp in Hq. injection Hq as <-.
    exact (consistent_not_both s' p Hc' Hl Hqm).
  - intros Heq.
    assert (p ∈ more_k_ s') as Hm.
    { apply (warm_nodes s' Hc'). eexists. split; [exact Hh' | lia]. }
    split; [exists p; auto |].
    intros (q & Hq & Hql). rewrite Hp in Hq. injection Hq as <-.
    exact (consistent_not_both s' p Hc' Hql Hm).
  - apply (warm_ascending s' Hc').
Qed.

(** ** [curr_size_] and the evictable nodes *)

(** [Remove] never touches [curr_size_], whatever it untracks. *)
Lemma Remove_keeps_curr_size (s s' : LRUKReplacer) (frame_id : Z) :
  Remove s frame_id = Done s' → Size s' = Size s.
Proof.
  unfold Remove, Size. intros H.
  destruct (to_size_t frame_id >? replacer_size_ s); [discriminate |].
  destruct (node_store_ s !! frame_id) as [p |]; [| congruence].
  destruct (nodes s !! p) as [n |]; simpl in H; [| discriminate].
  destruct (is_evictable_ n); simpl in H; [| discriminate].
  destruct (Z.of_nat (length (history_ n)) <? k_ s); simpl in H;
    injection H as <-; reflexivity.
Qed.

Lemma evictable_lookup (s : LRUKReplacer) (f : Z) (p : ptr) :
  evictable_entries s !! f = Some p ↔
  node_store_ s !! f = Some p ∧ (is_evictable_ <$> nodes s !! p) = Some true.
Proof. unfold evictable_entries. rewrite map_lookup_filter_Some. reflexivity. Qed.

Lemma tracked_injective (s : LRUKReplacer) (f f' : Z) (p : ptr) :
  consistent s → node_store_ s !! f = Some p → node_store_ s !! f' = Some p → f = f'.
Proof.
  intros Hc H1 H2.
  pose proof (tracked_live s Hc f p H1). pose proof (tracked_live s Hc f' p H2).
  congruence.
Qed.

(** The entries are the same when the map is and no flag changes. *)
Lemma entries_unchanged (s s' : LRUKReplacer) :
  node_store_ s' = node_store_ s →
  (∀ q, (is_evictable_ <$> nodes s' !! q) = (is_evictable_ <$> nodes s !! q)) →
  evictable_entries s' = evictable_entries s.
Proof.
  intros Hstore Hflag. apply map_eq. intros f. apply option_eq. intros p.
  rewrite !evictable_lookup, Hstore, Hflag. reflexivity.
Qed.

(** A node that is taken away takes its entry along. *)
Lemma entries_untrack (s s' : LRUKReplacer) (p : ptr) (n : LRUKNode) :
  consistent s →
  nodes s !! p = Some n →
  nodes s' = delete p (nodes s) →
  node_store_ s' = delete (fid_ n) (node_store_ s) →
  evictable_entries s' = delete (fid_ n) (evictable_entries s).
Proof.
  intros Hc Hn Hnodes Hstore. apply map_eq. intros f. apply option_eq. intros q.
  assert (node_store_ s !! fid_ n = Some p) as Hp.
  { apply (live_tracked s Hc). unfold fid_of. rewrite Hn. reflexivity. }
  rewrite lookup_delete_Some, !evictable_lookup, Hstore, Hnodes, lookup_delete_Some.
  split.
  - intros [[Hne Hq] Hflag]. split; [exact Hne |]. split; [exact Hq |].
    rewrite lookup_delete_ne in Hflag; [exact Hflag |].
    intros <-. apply Hne. exact (tracked_injective s _ _ p Hc Hp Hq).
  - intros [Hne [Hq Hflag]]. split; [split; assumption |].
    rewrite lookup_delete_ne; [exact Hflag |].
    intros <-. apply Hne. exact (tracked_injective s _ _ p Hc Hp Hq).
Qed.

Lemma count_untrack (s s' : LRUKReplacer) (p : ptr) (n : LRUKNode) :
  consistent s →
  nodes s !! p = Some n →
  is_evictable_ n = true →
  nodes s' = delete p (nodes s) →
  node_store_ s' = delete (fid_ n) (node_store_ s) →
  count_evictable s' = count_evictable s - 1 ∧ 1 ≤ count_evictable s.
Proof.
  intros Hc Hn Hev Hnodes Hstore. unfold count_evictable.
  rewrite (entries_untrack s s' p n Hc Hn Hnodes Hstore).
  assert (evictable_entries s !! fid_ n = Some p) as He.
  { apply evictable_lookup. split.
    - apply (live_tracked s Hc). unfold fid_of. rewrite Hn. reflexivity.
    - rewrite Hn. simpl. congruence. }
  rewrite map_size_delete, He.
  assert (size (evictable_entries s) ≠ 0%nat) as Hpos.
  { intros H0%map_size_empty_inv. rewrite H0, lookup_empty in He. discriminate. }
  lia.
Qed.

Lemma scan_evictable_found (h : gmap ptr LRUKNode) (l : list ptr)
    (p : ptr) (n : LRUKNode) :
  scan_evictable h l = Done (Some (p, n)) →
  h !! p = Some n ∧ is_evictable_ n = true.
Proof.
  induction l as [| q l IH]; simpl; [discriminate |].
  destruct (h !! q) as [nq |] eqn:Hq; simpl; [| discriminate].
  destruct (is_evictable_ nq) eqn:He; [| exact IH].
  intros [= <- <-]. auto.
Qed.

Lemma Evict_counts (s s' : LRUKReplacer) (victim : option Z) :
  consistent s →
  Size s = count_evictable s →
  Size s < SIZE_MOD →
  Evict s = Done (victim, s') →
  Size s' = count_evictable s'.
Proof.
  intros Hc Hsize Hmax. unfold Evict, Size in *.
  assert (∀ p n less more,
            nodes s !! p = Some n → is_evictable_ n = true →
            let s1 := {| nodes := delete p (nodes s); next_node := next_node s;
                         node_store_ := delete (fid_ n) (node_store_ s);
                         current_timestamp_ := current_timestamp_ s;
                         curr_size_ := to_size_t (curr_size_ s - 1);
                         replacer_size_ := replacer_size_ s; k_ := k_ s;
                         less_k_ := less; more_k_ := more |} in
            curr_size_ s1 = count_evictable s1) as Htake.
  { intros p n less more Hn Hev s1.
    destruct (count_untrack s s1 p n Hc Hn Hev) as [Hcount Hpos]; try reflexivity.
    rewrite Hcount. simpl. rewrite <- Hsize in *.
    apply to_size_t_small. lia. }
  destruct (scan_evictable (nodes s) (less_k_ s)) as [[[p n] |] |] eqn:Hcold;
    simpl; [| | discriminate].
  { apply scan_evictable_found in Hcold as [Hn Hev].
    intros [= <- <-]. apply (Htake p n); assumption. }
  destruct (scan_evictable (nodes s) (more_k_ s)) as [[[p n] |] |] eqn:Hwarm;
    simpl; [| | discriminate].
  - apply scan_evictable_found in Hwarm as [Hn Hev].
    intros [= <- <-]. apply (Htake p n); assumption.
  - intros [= <- <-]. exact Hsize.
Qed.

Lemma RecordAccess_counts (s s' : LRUKReplacer) (f : Z) :
  consistent s →
  RecordAccess s f = Done s' →
  Size s' = Size s ∧ count_evictable s' = count_evictable s.
Proof.
  intros Hc H. unfold count_evictable, Size. unfold RecordAccess in H.
  destruct (to_size_t f >? replacer_size_ s); [discriminate |].
  destruct (node_store_ s !! f) as [p |] eqn:Hp.
  - destruct (tracked_node s f p Hc Hp) as (n & Hn & _).
    rewrite Hn in H. simpl in H.
    assert (∀ s1 hist', node_store_ s1 = node_store_ s →
              nodes s1 = <[p := with_history n hist']> (nodes s) →
              evictable_entries s1 = evictable_entries s) as Hsame.
    { intros s1 hist' Hstore Hnodes. apply entries_unchanged; [exact Hstore |].
      intros q. rewrite Hnodes. destruct (decide (q = p)) as [-> | Hqp].
      - rewrite lookup_insert_eq, Hn. reflexivity.
      - rewrite lookup_insert_ne by congruence. reflexivity. }
    destruct (Z.of_nat (length (history_ n ++ _)) <? k_ s).
    { injection H as <-. simpl. split; [reflexivity |].
      f_equal. f_equal. eapply Hsame; reflexivity. }
    destruct (Z.of_nat (length (history_ n ++ _)) =? k_ s); simpl in H;
      (destruct (head _) as [kth |]; simpl in H; [| discriminate]);
      (destruct (insert_by_kth _ _ _ _) as [more' |]; simpl in H; [| discriminate]);
      injection H as <-; simpl; (split; [reflexivity |]);
      f_equal; f_equal; eapply Hsame; reflexivity.
  - injection H as <-. simpl. split; [reflexivity |]. f_equal. f_equal.
    assert (nodes s !! next_node s = None) as Hfresh.
    { destruct (nodes s !! next_node s) as [m |] eqn:Hm; [| reflexivity].
      pose proof (live_below_next s Hc _ (mk_is_Some _ _ Hm)). lia. }
    apply map_eq. intros f'. apply option_eq. intros q.
    rewrite !evictable_lookup. simpl.
    destruct (decide (f' = f)) as [-> | Hne].
    + rewrite lookup_insert_eq, Hp. split; [| intros [[=] _]].
      intros [[= <-] Hflag]. rewrite lookup_insert_eq in Hflag. discriminate.
    + rewrite lookup_insert_ne by congruence.
      split; intros [Hq Hflag]; (split; [exact Hq |]);
        (assert (q ≠ next_node s) as Hqp;
         [ intros ->; pose proof (tracked_live s Hc f' _ Hq) as Hl;
           unfold fid_of in Hl; rewrite Hfresh in Hl; discriminate |]).
      * rewrite lookup_insert_ne in Hflag by congruence. exact Hflag.
      * rewrite lookup_insert_ne by congruence. exact Hflag.
Qed.

Lemma SetEvictable_counts (s s' : LRUKReplacer) (f : Z) (b : bool) :
  consistent s →
  Size s = count_evictable s →
  Size s + 1 < SIZE_MOD →
  SetEvictable s f b = Done s' →
  Size s' = count_evictable s'.
Proof.
  intros Hc Hsize Hmax H. unfold SetEvictable in H.
  destruct (to_size_t f >? replacer_size_ s); [discriminate |].
  destruct (node_store_ s !! f) as [p |] eqn:Hp; [| injection H as <-; exact Hsize].
  destruct (tracked_node s f p Hc Hp) as (n & Hn & _).
  rewrite Hn in H. simpl in H.
  assert (∀ f' q sz, evictable_entries (set_flag s p n b sz) !! f' = Some q ↔
            node_store_ s !! f' = Some q
            ∧ (if decide (f' = f) then b = true
               else (is_evictable_ <$> nodes s !! q) = Some true)) as Hlook.
  { intros f' q sz. rewrite evictable_lookup. unfold set_flag. simpl.
    destruct (decide (f' = f)) as [-> | Hne].
    - split; intros [Hq Hflag]; (split; [exact Hq |]);
        rewrite Hp in Hq; injection Hq as <-.
      + rewrite lookup_insert_eq in Hflag. simpl in Hflag. congruence.
      + rewrite lookup_insert_eq. simpl. congruence.
    - split; intros [Hq Hflag]; (split; [exact Hq |]);
        (assert (q ≠ p) as Hqp;
         [ intros ->; apply Hne; exact (tracked_injective s _ _ p Hc Hq Hp) |]).
      + rewrite lookup_insert_ne in Hflag by congruence. exact Hflag.
      + rewrite lookup_insert_ne by congruence. exact Hflag. }
  assert (0 ≤ count_evictable s) as Hnonneg by (unfold count_evictable; lia).
  unfold Size in *.
  destruct (is_evictable_ n) eqn:He, b; simpl in H; injection H as <-;
    try exact Hsize.
  - (* evictable, cleared *)
    assert (evictable_entries s !! f = Some p) as Hin.
    { apply evictable_lookup. rewrite Hn. simpl. rewrite He. auto. }
    assert (evictable_entries (set_flag s p n false (curr_size_ s - 1))
            = delete f (evictable_entries s)) as Heq.
    { apply map_eq. intros f'. apply option_eq. intros q.
      rewrite Hlook, lookup_delete_Some, evictable_lookup.
      destruct (decide (f' = f)) as [-> | Hne].
      - split; [intros [_ Hd]; discriminate | intros [Hff _]; congruence].
      - split; [intros [Hq Hf]; split; [congruence | auto]
               | intros (_ & Hq & Hf); auto]. }
    assert (size (evictable_entries s) ≠ 0%nat) as Hpos.
    { intros H0%map_size_empty_inv. rewrite H0, lookup_empty in Hin. discriminate. }
    unfold count_evictable in *. rewrite Heq, map_size_delete, Hin. simpl.
    rewrite to_size_t_small by lia. lia.
  - (* not evictable, set *)
    assert (evictable_entries s !! f = None) as Hout.
    { destruct (evictable_entries s !! f) as [q |] eqn:Hq; [| reflexivity].
      apply evictable_lookup in Hq as [Hq Hflag]. rewrite Hp in Hq.
      injection Hq as <-. rewrite Hn in Hflag. simpl in Hflag. congruence. }
    assert (evictable_entries (set_flag s p n true (curr_size_ s + 1))
            = <[f := p]> (evictable_entries s)) as Heq.
    { apply map_eq. intros f'. apply option_eq. intros q.
      rewrite Hlook, lookup_insert_Some, evictable_lookup.
      destruct (decide (f' = f)) as [-> | Hne].
      - rewrite Hp. split; [intros [[= <-] _]; left; auto |].
        intros [[_ <-] | [Hff _]]; [auto | congruence].
      - split; [intros [Hq Hf]; right; split; [congruence | auto] |].
        intros [[<- _] | [_ H']]; [congruence | exact H']. }
    unfold count_evictable in *. rewrite Heq, map_size_insert, Hout. simpl.
    rewrite to_size_t_small by lia. lia.
Qed.

(** [Remove] takes the entry of an evictable node away and leaves
    [curr_size_] alone: from then on [Size()] is one too many. *)
Lemma Remove_counts (s s' : LRUKReplacer) (f : Z) :
  consistent s →
  is_Some (node_store_ s !! f) →
  Remove s f = Done s' →
  count_evictable s' = count_evictable s - 1 ∧ Size s' = Size s.
Proof.
  intros Hc [p Hp] H. split; [| exact (Remove_keeps_curr_size s s' f H)].
  unfold Remove in H.
  destruct (to_size_t f >? replacer_size_ s); [discriminate |].
  rewrite Hp in H. destruct (tracked_node s f p Hc Hp) as (n & Hn & Hfid & _).
  rewrite Hn in H. simpl in H.
  destruct (is_evictable_ n) eqn:Hev; simpl in H; [| discriminate].
  destruct (Z.of_nat (length (history_ n)) <? k_ s); simpl in H; injection H as <-;
    apply (count_untrack s _ p n Hc Hn Hev); simpl; rewrite ?Hfid; reflexivity.
Qed.

(** X5. Every call but [Remove] keeps [Size()] equal to the number of tracked
    evictable nodes. *)
Theorem Size_counts_evictable_without_Remove (s s' : LRUKReplacer) (o : op) :
  consistent s →
  Size s = count_evictable s →
  Size s + 1 < SIZE_MOD →
  (∀ f, o ≠ OpRemove f) →
  step s o = Done s' →
  Size s' = count_evictable s'.
Proof.
  intros Hc Hsize Hmax Hop Hstep. destruct o as [f | f b | | f]; simpl in Hstep.
  - destruct (RecordAccess_counts s s' f Hc Hstep) as [-> ->]. exact Hsize.
  - exact (SetEvictable_counts s s' f b Hc Hsize Hmax Hstep).
  - destruct (Evict s) as [[victim s1] |] eqn:He; simpl in Hstep; [| discriminate].
    injection Hstep as <-. apply (Evict_counts s s1 victim Hc Hsize); [lia | exact He].
  - exfalso. exact (Hop f eq_refl).
Qed.

(** With an evictable node tracked, [Evict] finds a victim. *)
Lemma Evict_finds (s : LRUKReplacer) :
  consistent s →
  0 < count_evictable s →
  ∃ f s', Evict s = Done (Some f, s')
          ∧ is_Some (node_store_ s !! f)
          ∧ consistent s' ∧ k_ s' = k_ s ∧ replacer_size_ s' = replacer_size_ s
          ∧ ∀ f', is_Some (node_store_ s' !! f') → is_Some (node_store_ s !! f').
Proof.
  intros Hc Hcount.
  assert (∃ p, p ∈ less_k_ s ++ more_k_ s ∧ evictable_at s p) as (p & Hpool & Hev).
  { unfold count_evictable in Hcount.
    destruct (map_to_list (evictable_entries s)) as [| [f p] l] eqn:Hl.
    { apply map_to_list_empty_iff in Hl. rewrite Hl, map_size_empty in Hcount. lia. }
    assert (evictable_entries s !! f = Some p) as [Hp Hflag]%evictable_lookup.
    { apply elem_of_map_to_list. rewrite Hl. apply list_elem_of_here. }
    exists p. split; [| exact Hflag].
    apply elem_of_app. apply (consistent_one_pool s p Hc).
    destruct (nodes s !! p); [eauto | discriminate]. }
  assert (∀ q n, nodes s !! q = Some n → is_Some (node_store_ s !! fid_ n)) as Htracked.
  { intros q n Hn. exists q. apply (live_tracked s Hc). unfold fid_of.
    rewrite Hn. reflexivity. }
  assert (∀ f f', is_Some (delete f (node_store_ s) !! f') →
                  is_Some (node_store_ s !! f')) as Hsub.
  { intros f f' [x Hx]. apply lookup_delete_Some in Hx as [_ Hx]. eauto. }
  destruct (Evict_consistent s Hc) as (victim & s' & Hevict & Hc' & Hk & Hsz).
  unfold Evict in Hevict.
  destruct (scan_evictable_spec s (less_k_ s))
    as [(before & q & n & after & Hless & Hn & _ & _ & Hscan) | [Hcold Hscan]].
  { intros q Hq. apply (pool_node_live s q Hc). apply elem_of_app. left. exact Hq. }
  { rewrite Hscan in Hevict. simpl in Hevict. injection Hevict as <- <-.
    eexists. eexists. split; [unfold Evict; rewrite Hscan; simpl; reflexivity |].
    split; [exact (Htracked q n Hn) |].
    split; [exact Hc' |]. split; [exact Hk |]. split; [exact Hsz |].
    simpl. apply Hsub. }
  rewrite Hscan in Hevict. simpl in Hevict.
  destruct (scan_evictable_spec s (more_k_ s))
    as [(before & q & n & after & Hmore & Hn & _ & _ & Hscan') | [Hwarm Hscan']].
  { intros q Hq. apply (pool_node_live s q Hc). apply elem_of_app. right. exact Hq. }
  - rewrite Hscan' in Hevict. simpl in Hevict. injection Hevict as <- <-.
    eexists. eexists.
    split; [unfold Evict; rewrite Hscan; simpl; rewrite Hscan'; simpl; reflexivity |].
    split; [exact (Htracked q n Hn) |].
    split; [exact Hc' |]. split; [exact Hk |]. split; [exact Hsz |].
    simpl. apply Hsub.
  - exfalso. apply elem_of_app in Hpool as [Hp | Hp]; [exact (Hcold p Hp Hev) |].
    exact (Hwarm p Hp Hev).
Qed.

(** C2 (evaluation at the failing input). Frame 1 is accessed and made
    evictable: [Size()] is 1 and one tracked node is evictable. After
    [Remove(1)] nothing is tracked any more, so no node is evictable, and
    [Size()] is still 1. *)
Theorem Remove_leaves_Size_stale :
  ∃ s s',
    run (init 7 2) [OpRecordAccess 1; OpSetEvictable 1 true] = Done s
    ∧ Size s = 1 ∧ count_evictable s = 1
    ∧ Remove s 1 = Done s'
    ∧ node_store_ s' = ∅
    ∧ count_evictable s' = 0
    ∧ Size s' = 1.
Proof.
  eexists. eexists.
  split; [vm_compute; reflexivity |].
  repeat split; vm_compute; reflexivity.
Qed.

(** ** The two pools with K = 1 *)

(** C3 (evaluation at the failing input). With K = 1 the second access of
    frame 0 inserts its node into [more_k_] while it is still in [less_k_]:
    the tracked frame is in both pools. When [Evict] then takes the node
    from the cold pool, the warm pool keeps the pointer, and the next
    [Evict] reads the deleted node. *)
Theorem K1_frame_in_both_pools :
  (∃ s,
     run (init 7 1) [OpRecordAccess 0; OpRecordAccess 0] = Done s
     ∧ in_cold s 0 ∧ in_warm s 0
     ∧ less_k_ s = more_k_ s)
  ∧ run (init 7 1) [OpRecordAccess 0; OpRecordAccess 0; OpSetEvictable 0 true;
                    OpEvict; OpEvict] = Fail Undefined.
Proof.
  split; [| vm_compute; reflexivity].
  eexists. split; [vm_compute; reflexivity |].
  split; [| split].
  - exists 1%positive. split; [vm_compute; reflexivity | apply list_elem_of_here].
  - exists 1%positive. split; [vm_compute; reflexivity | apply list_elem_of_here].
  - reflexivity.
Qed.

(** C5 (evaluation at the failing input). With K = 1 the first access of
    frame 0 is its K-th, yet the node is put in the cold pool and the warm
    pool stays empty; the node enters the warm pool on the second access,
    the (K+1)-th. *)
Theorem K1_first_access_stays_cold :
  ∃ s1 s2,
    RecordAccess (init 7 1) 0 = Done s1
    ∧ (history_ <$> node_of s1 0) = Some [1]
    ∧ in_cold s1 0 ∧ more_k_ s1 = []
    ∧ RecordAccess s1 0 = Done s2
    ∧ (history_ <$> node_of s2 0) = Some [2]
    ∧ in_warm s2 0.
Proof.
  eexists. eexists.
  split; [vm_compute; reflexivity |].
  split; [vm_compute; reflexivity |].
  split; [exists 1%positive; split; [vm_compute; reflexivity | apply list_elem_of_here] |].
  split; [reflexivity |].
  split; [vm_compute; reflexivity |].
  split; [vm_compute; reflexivity |].
  exists 1%positive. split; [vm_compute; reflexivity | apply list_elem_of_here].
Qed.

(** C4 (evaluation at the failing input). With K = 1, after accesses of
    frames 0, 1 and 0, both frames have had their K-th access: neither has
    fewer than K accesses, and the K-th most recent access is at time 3
    for frame 0 and at time 2 for frame 1. Both are evictable. [Evict]
    returns frame 0, the frame accessed last, because its node is still in
    [less_k_]; and it takes the node out of [less_k_] only, so [more_k_]
    keeps the pointer of the deleted node and the second [Evict] after
    that one reads it. *)
Theorem K1_Evict_takes_the_wrong_frame :
  ∃ s s',
    run (init 7 1) [OpRecordAccess 0; OpRecordAccess 1; OpRecordAccess 0;
                    OpSetEvictable 0 true; OpSetEvictable 1 true] = Done s
    ∧ node_of s 0 = Some {| history_ := [3]; fid_ := 0; is_evictable_ := true |}
    ∧ node_of s 1 = Some {| history_ := [2]; fid_ := 1; is_evictable_ := true |}
    ∧ kth_recent (k_ s) [3] = Some 3
    ∧ kth_recent (k_ s) [2] = Some 2
    ∧ Evict s = Done (Some 0, s')
    ∧ node_store_ s !! 0 = Some 1%positive
    ∧ nodes s' !! 1%positive = None
    ∧ more_k_ s' = [1%positive]
    ∧ run s' [OpEvict; OpEvict] = Fail Undefined.
Proof.
  eexists. eexists. split; [vm_compute; reflexivity |].
  repeat (split; [vm_compute; reflexivity |]). vm_compute. reflexivity.
Qed.

End ReplacerFacts.

(** * Properties of the buffer pool manager *)

Module BufferPoolFacts.

Import Replacer ReplacerFacts BufferPool.

(** ** What the manager's calls do to the replacer *)

Lemma SetEvictable_usable (r : LRUKReplacer) (frame_id : Z) (b : bool) :
  usable r frame_id = true →
  ∃ r', SetEvictable r frame_id b = Done r'
    ∧ node_store_ r' = node_store_ r
    ∧ (node_store_ r !! frame_id = None → r' = r)
    ∧ (∀ n, node_of r frame_id = Some n →
         node_of r' frame_id = Some (with_evictable n b)
         ∧ Size r' = (if bool_decide (is_evictable_ n = b) then Size r
                      else if b then to_size_t (Size r + 1)
                           else to_size_t (Size r - 1))).
Proof.
  unfold usable, SetEvictable. intros [Hb Hl]%andb_true_iff.
  apply negb_true_iff in Hb. rewrite Hb.
  destruct (node_store_ r !! frame_id) as [p |] eqn:Hp; simpl.
  - apply bool_decide_eq_true in Hl as [n Hn]. rewrite Hn. simpl.
    assert (∀ sz, node_of (set_flag r p n b sz) frame_id = Some (with_evictable n b)) as Hset.
    { intros sz. unfold node_of, set_flag. simpl. rewrite Hp. simpl.
      apply lookup_insert_eq. }
    destruct n as [hist fid ev]. simpl in *.
    destruct ev, b; simpl;
      (eexists; split; [reflexivity |]; split; [reflexivity |];
       split; [discriminate |]; intros n' Hn';
       unfold node_of in Hn'; rewrite Hp in Hn'; simpl in Hn';
       rewrite Hn in Hn'; injection Hn' as <-);
      (split; [first [unfold node_of; rewrite Hp; exact Hn | apply Hset]
              | reflexivity]).
  - exists r. split; [reflexivity |]. split; [reflexivity |].
    split; [reflexivity |]. intros n Hn.
    unfold node_of in Hn. rewrite Hp in Hn. discriminate.
Qed.

Lemma Remove_removable (r : LRUKReplacer) (frame_id : Z) :
  removable r frame_id = true →
  ∃ r', Remove r frame_id = Done r'
    ∧ node_store_ r' = delete frame_id (node_store_ r)
    ∧ Size r' = Size r.
Proof.
  unfold removable, Remove. intros [Hb Hl]%andb_true_iff.
  apply negb_true_iff in Hb. rewrite Hb.
  destruct (node_store_ r !! frame_id) as [p |] eqn:Hp.
  - destruct (nodes r !! p) as [n |]; simpl in *; [| discriminate].
    rewrite Hl. simpl.
    destruct (Z.of_nat (length (history_ n)) <? k_ r);
      (eexists; split; [reflexivity |]; split; reflexivity).
  - exists r. split; [reflexivity |]. split; [| reflexivity].
    symmetry. apply delete_id. exact Hp.
Qed.

Section Manager.

Variables (INVALID INVALID_PAGE_ID : Z) (PAGE_SIZE : nat).

Abbreviation NewPage := (BufferPool.NewPage INVALID INVALID_PAGE_ID PAGE_SIZE).
Abbreviation FetchPage := (BufferPool.FetchPage INVALID_PAGE_ID PAGE_SIZE).
Abbreviation DeletePage := (BufferPool.DeletePage INVALID_PAGE_ID PAGE_SIZE).
Abbreviation free_page := (BufferPool.free_page INVALID_PAGE_ID PAGE_SIZE).

(** ** Frames of the pool *)

Lemma page_at_store_page (s : BufferPoolManager) (f f' : Z) (page : Page) :
  is_Some (page_at (store_page s f' page) f) ↔ is_Some (page_at s f).
Proof.
  unfold page_at, store_page. simpl. destruct (f <? 0); [reflexivity |].
  rewrite !lookup_lt_is_Some, length_insert. reflexivity.
Qed.

Lemma page_at_store_page_eq (s : BufferPoolManager) (f : Z) (page : Page) :
  is_Some (page_at s f) → page_at (store_page s f page) f = Some page.
Proof.
  unfold page_at, store_page. simpl. destruct (f <? 0); [intros [? [=]] |].
  intros H%lookup_lt_is_Some. apply list_lookup_insert_eq. exact H.
Qed.

Lemma page_at_store_page_ne (s : BufferPoolManager) (f f' : Z) (page : Page) :
  is_Some (page_at s f') → f ≠ f' →
  page_at (store_page s f' page) f = page_at s f.
Proof.
  unfold page_at, store_page. simpl.
  destruct (Z.ltb_spec f' 0); [intros [? [=]] |]. intros _ Hne.
  destruct (Z.ltb_spec f 0); [reflexivity |].
  apply list_lookup_insert_ne. lia.
Qed.

Lemma page_at_set_page_table (s : BufferPoolManager) (pt : gmap Z Z) (f : Z) :
  page_at (set_page_table s pt) f = page_at s f.
Proof. reflexivity. Qed.

(** ** [UnpinPage] *)

(** C10. [UnpinPage] returns false only from its two early returns, before
    any write: the manager it leaves is the one it found. In particular on
    a resident page with pin count zero, [UnpinPage(page_id, true)] returns
    false with the dirty flag, the pin count and the replacer as they
    were. *)
Theorem UnpinPage_false_changes_nothing (s : BufferPoolManager) (page_id : Z) :
  (∀ is_dirty s', UnpinPage s page_id is_dirty = Done (false, s') → s' = s)
  ∧ (∀ frame_id page,
       page_table_ s !! page_id = Some frame_id →
       page_at s frame_id = Some page →
       pin_count_ page = 0 →
       UnpinPage s page_id true = Done (false, s)).
Proof.
  split.
  - intros is_dirty s'. unfold UnpinPage.
    destruct (page_table_ s !! page_id) as [f |]; [| congruence].
    destruct (page_at s f) as [page |]; simpl; [| discriminate].
    destruct (pin_count_ page =? 0); [congruence |].
    destruct (pin_count_ page - 1 =? 0); [destruct (SetEvictable _ _ _) |];
      simpl; discriminate.
  - intros f page Hpt Hpage Hpin. unfold UnpinPage.
    rewrite Hpt, Hpage. simpl. rewrite Hpin. reflexivity.
Qed.

(** C7. [UnpinPage] on a page that is not resident, or whose pin count is
    zero, returns false and changes nothing. Otherwise it returns true and
    the manager it leaves differs from the one it found in two places.
    The frame of the page has the pin count one lower and is dirty exactly
    if it was dirty or [is_dirty] is set (a set flag stays set), with the
    same bytes and page id. The replacer, when the new count is zero, is
    the one [SetEvictable(frame_id, true)] returns, in which the frame is
    tracked as before and its node is marked evictable, and is untouched
    when the new count is not zero. The other frames, the page table, the
    free list, the page id counter and the disk are as they were. *)
Theorem UnpinPage_spec (s : BufferPoolManager) (page_id : Z) (is_dirty : bool) :
  (page_table_ s !! page_id = None → UnpinPage s page_id is_dirty = Done (false, s))
  ∧ (∀ frame_id page,
       page_table_ s !! page_id = Some frame_id →
       page_at s frame_id = Some page →
       (pin_count_ page = 0 → UnpinPage s page_id is_dirty = Done (false, s))
       ∧ (pin_count_ page ≠ 0 →
          (pin_count_ page = 1 → usable (replacer_ s) frame_id = true) →
          ∃ s' page',
            UnpinPage s page_id is_dirty = Done (true, s')
            ∧ page_at s' frame_id = Some page'
            ∧ pin_count_ page' = pin_count_ page - 1
            ∧ (is_dirty_ page' = true ↔ is_dirty_ page = true ∨ is_dirty = true)
            ∧ data_ page' = data_ page
            ∧ page_id_ page' = page_id_ page
            ∧ (∀ f, f ≠ frame_id → page_at s' f = page_at s f)
            ∧ page_table_ s' = page_table_ s
            ∧ free_list_ s' = free_list_ s
            ∧ next_page_id_ s' = next_page_id_ s
            ∧ disk_manager_ s' = disk_manager_ s
            ∧ (pin_count_ page = 1 →
               SetEvictable (replacer_ s) frame_id true = Done (replacer_ s')
               ∧ node_store_ (replacer_ s') = node_store_ (replacer_ s)
               ∧ ∀ n, node_of (replacer_ s) frame_id = Some n →
                      ∃ n', node_of (replacer_ s') frame_id = Some n'
                            ∧ is_evictable_ n' = true
                            ∧ history_ n' = history_ n
                            ∧ fid_ n' = fid_ n)
            ∧ (pin_count_ page ≠ 1 → replacer_ s' = replacer_ s))).
Proof.
  split.
  - intros Hpt. unfold UnpinPage. rewrite Hpt. reflexivity.
  - intros f page Hpt Hpage. split.
    + intros Hpin. unfold UnpinPage. rewrite Hpt, Hpage. simpl.
      rewrite Hpin. reflexivity.
    + intros Hpin Hok. unfold UnpinPage. rewrite Hpt, Hpage. simpl.
      destruct (Z.eqb_spec (pin_count_ page) 0) as [| _]; [contradiction |].
      assert (∃ r, (if pin_count_ page - 1 =? 0
                    then SetEvictable (replacer_ s) f true
                    else Done (replacer_ s)) = Done r
                   ∧ (pin_count_ page = 1 →
                      SetEvictable (replacer_ s) f true = Done r
                      ∧ node_store_ r = node_store_ (replacer_ s)
                      ∧ ∀ n, node_of (replacer_ s) f = Some n →
                             ∃ n', node_of r f = Some n'
                                   ∧ is_evictable_ n' = true
                                   ∧ history_ n' = history_ n
                                   ∧ fid_ n' = fid_ n)
                   ∧ (pin_count_ page ≠ 1 → r = replacer_ s))
        as (r & -> & Hone & Hmore).
      { destruct (Z.eqb_spec (pin_count_ page - 1) 0) as [Hz | Hnz].
        - destruct (SetEvictable_usable _ _ true (Hok ltac:(lia)))
            as (r & Hr & Hstore & _ & Hn).
          exists r. split; [exact Hr |]. split; [| intros; lia].
          intros _. split; [exact Hr |]. split; [exact Hstore |].
          intros n Hnode. destruct (Hn n Hnode) as [Hn' _].
          exists (with_evictable n true). auto.
        - exists (replacer_ s). split; [reflexivity |].
          split; [intros; lia | reflexivity]. }
      simpl. eexists. eexists. split; [reflexivity |].
      split; [apply (page_at_store_page_eq (set_replacer s r));
              exact (mk_is_Some _ _ Hpage) |].
      simpl. split; [reflexivity |].
      split; [rewrite orb_true_iff; reflexivity |].
      split; [reflexivity |]. split; [reflexivity |].
      split; [intros f' Hf';
              apply (page_at_store_page_ne (set_replacer s r) f' f);
              [exact (mk_is_Some _ _ Hpage) | exact Hf'] |].
      split; [reflexivity |]. split; [reflexivity |].
      split; [reflexivity |]. split; [reflexivity |].
      split; [exact Hone | exact Hmore].
Qed.

(** ** [DeletePage] *)

(** The deleting path of [DeletePage]: the page is resident and not
    pinned, and the replacer can untrack the frame. *)
Lemma DeletePage_unpinned
    (s : BufferPoolManager) (page_id frame_id : Z) (page : Page) :
  page_table_ s !! page_id = Some frame_id →
  page_at s frame_id = Some page →
  pin_count_ page ≤ 0 →
  removable (replacer_ s) frame_id = true →
  ∃ r,
    Remove (replacer_ s) frame_id = Done r
    ∧ node_store_ r !! frame_id = None
    ∧ DeletePage s page_id =
        Done (true,
              {| pool_size_ := pool_size_ s;
                 pages_ := <[Z.to_nat frame_id := free_page]> (pages_ s);
                 page_table_ := delete page_id (page_table_ s);
                 free_list_ := free_list_ s ++ [frame_id];
                 replacer_ := r;
                 next_page_id_ := next_page_id_ s;
                 disk_manager_ := DeallocatePage (disk_manager_ s) page_id |}).
Proof.
  intros Hpt Hpage Hpin Hok.
  destruct (Remove_removable _ _ Hok) as (r & Hr & Hstore & _).
  exists r. split; [exact Hr |]. split.
  { rewrite Hstore. apply lookup_delete_eq. }
  unfold BufferPool.DeletePage. rewrite Hpt, Hpage. simpl.
  destruct (Z.gtb_spec (pin_count_ page) 0); [lia |].
  rewrite Hr. reflexivity.
Qed.

(** C8 (evaluation at the failing input). One frame and K = 1: page 0 is
    created and unpinned, so it is resident with pin count 0 and its frame
    is tracked by the replacer, evictable, its node in [less_k_].
    [DeletePage(0)] returns true, erases the page-table entry and puts the
    frame on the free list; [Remove] untracks the frame and deletes its
    node, but it takes the node out of [more_k_], where a node with K
    timestamps is meant to be, and with K = 1 the node is in [less_k_]:
    the replacer still holds the pointer of the deleted node. [Evict] then
    reads the deleted node, and so does the [NewPage] that needs a victim
    once page 1 has been created in the freed frame and unpinned. *)
Theorem K1_DeletePage_leaves_dead_node :
  let s := page0_unpinned_K1 INVALID INVALID_PAGE_ID PAGE_SIZE in
  page_table_ s !! 0 = Some 0
  ∧ (pin_count_ <$> page_at s 0) = Some 0
  ∧ node_store_ (replacer_ s) !! 0 = Some 1%positive
  ∧ (is_evictable_ <$> nodes (replacer_ s) !! 1%positive) = Some true
  ∧ less_k_ (replacer_ s) = [1%positive]
  ∧ more_k_ (replacer_ s) = []
  ∧ ∃ s',
      DeletePage s 0 = Done (true, s')
      ∧ page_table_ s' !! 0 = None
      ∧ free_list_ s' = [0]
      ∧ node_store_ (replacer_ s') !! 0 = None
      ∧ nodes (replacer_ s') !! 1%positive = None
      ∧ less_k_ (replacer_ s') = [1%positive]
      ∧ Evict (replacer_ s') = Fail Undefined
      ∧ ('(_, s1) ← NewPage s';
         '(_, s2) ← UnpinPage s1 1 false;
         NewPage s2) = Fail Undefined.
Proof.
  cbv zeta. repeat (split; [vm_compute; reflexivity |]).
  eexists. split; [vm_compute; reflexivity |].
  repeat (split; [vm_compute; reflexivity |]). vm_compute. reflexivity.
Qed.

(** C9. [DeletePage] of a resident, unpinned page whose frame is dirty
    returns true without any [WritePage]: what is on disk is what was
    there before, the only call the disk manager receives is the advisory
    [DeallocatePage], and the frame is left zeroed and clean, its
    modifications gone. *)
Theorem DeletePage_discards_dirty_page
    (s : BufferPoolManager) (page_id frame_id : Z) (page : Page) :
  page_table_ s !! page_id = Some frame_id →
  page_at s frame_id = Some page →
  pin_count_ page = 0 →
  is_dirty_ page = true →
  removable (replacer_ s) frame_id = true →
  ∃ s',
    DeletePage s page_id = Done (true, s')
    ∧ on_disk (disk_manager_ s') = on_disk (disk_manager_ s)
    ∧ calls (disk_manager_ s') = calls (disk_manager_ s) ++ [CallDeallocate page_id]
    ∧ (∀ bytes, CallWrite page_id bytes ∉ [CallDeallocate page_id])
    ∧ page_at s' frame_id = Some free_page.
Proof.
  intros Hpt Hpage Hpin Hdirty Hok.
  destruct (DeletePage_unpinned s page_id frame_id page Hpt Hpage) as (r & _ & _ & Hdel);
    [lia | exact Hok |].
  eexists. split; [exact Hdel |]. simpl.
  split; [reflexivity |]. split; [reflexivity |]. split.
  - intros bytes Hin. apply list_elem_of_singleton in Hin. discriminate.
  - unfold page_at in *. simpl.
    destruct (frame_id <? 0); [discriminate |].
    apply list_lookup_insert_eq. apply lookup_lt_Some in Hpage. exact Hpage.
Qed.

(** ** [NewPage] and [FetchPage] *)

Lemma exhausted_spec (s : BufferPoolManager) :
  exhausted s = true ↔ free_list_ s = [] ∧ Size (replacer_ s) = 0.
Proof.
  unfold exhausted. rewrite andb_true_iff, bool_decide_eq_true, Z.eqb_eq.
  reflexivity.
Qed.

(** The null results are the guard's, and only the guard's. *)
Lemma NewPage_null_iff (s : BufferPoolManager) :
  (exhausted s = true → NewPage s = Done ((INVALID, None), s))
  ∧ (∀ page_id s', NewPage s = Done ((page_id, None), s') → exhausted s = true).
Proof.
  unfold BufferPool.NewPage. split.
  - intros ->. reflexivity.
  - intros page_id s'. destruct (exhausted s); [reflexivity |].
    destruct (GetFreeFrame _ s) as [[f s1] |]; simpl; [| discriminate].
    destruct (InitNewPage _ _ _ _) as [s2 |]; simpl; [| discriminate].
    destruct (Pinpage _ _) as [s3 |]; simpl; discriminate.
Qed.

Lemma FetchPage_null_iff (s : BufferPoolManager) (page_id : Z) :
  page_table_ s !! page_id = None →
  (exhausted s = true → FetchPage s page_id = Done (None, s))
  ∧ (∀ s', FetchPage s page_id = Done (None, s') → exhausted s = true).
Proof.
  intros Hpt. unfold BufferPool.FetchPage. rewrite Hpt. split.
  - intros ->. reflexivity.
  - intros s'. destruct (exhausted s); [reflexivity |].
    destruct (GetFreeFrame _ s) as [[f s1] |]; simpl; [| discriminate].
    destruct (InitNewPage _ _ _ _) as [s2 |]; simpl; [| discriminate].
    destruct (Pinpage _ _) as [s3 |]; simpl; [| discriminate].
    destruct (page_at s3 f); simpl; discriminate.
Qed.

(** The manager the constructor builds is serviceable. *)
Lemma serviceable_init (pool_size replacer_k : Z) (disk : DiskManager) :
  0 ≤ pool_size < 2 ^ 31 →
  2 ≤ replacer_k →
  serviceable INVALID_PAGE_ID (init INVALID_PAGE_ID PAGE_SIZE pool_size replacer_k disk).
Proof.
  intros Hpool Hk. split; simpl.
  - apply consistent_init.
  - exact Hk.
  - reflexivity.
  - intros f (i & -> & Hi%elem_of_seq)%list_elem_of_fmap. split.
    + unfold page_at. simpl.
      destruct (Z.ltb_spec (Z.of_nat i) 0); [lia |].
      apply lookup_lt_is_Some. rewrite length_replicate. lia.
    + rewrite to_size_t_small by (unfold SIZE_MOD; lia).
      destruct (Z.gtb_spec (Z.of_nat i) pool_size); [lia | reflexivity].
  - intros f [p Hp]. rewrite lookup_empty in Hp. discriminate.
  - intros page_id f Hf. rewrite lookup_empty in Hf. discriminate.
Qed.

(** *** When a frame is there to give *)

(** [GetFreeFrame] has a frame to give when the guard of its callers does
    not fire. *)
Lemma GetFreeFrame_returns (s : BufferPoolManager) :
  serviceable INVALID_PAGE_ID s →
  exhausted s = false →
  ∃ f s1,
    GetFreeFrame INVALID_PAGE_ID s = Done (f, s1)
    ∧ is_Some (page_at s1 f)
    ∧ (to_size_t f >? replacer_size_ (replacer_ s1)) = false
    ∧ consistent (replacer_ s1)
    ∧ 2 ≤ k_ (replacer_ s1)
    ∧ next_page_id_ s1 = next_page_id_ s.
Proof.
  intros Hs Hex. unfold GetFreeFrame.
  destruct (free_list_ s) as [| f rest] eqn:Hfree.
  2: { destruct (free_frames _ s Hs f) as [Hpage Hguard].
       { rewrite Hfree. apply list_elem_of_here. }
       exists f, (set_free_list s rest). split; [reflexivity |].
       split; [exact Hpage |]. split; [exact Hguard |].
       split; [exact (replacer_consistent _ s Hs) |].
       split; [exact (replacer_k _ s Hs) | reflexivity]. }
  assert (0 < count_evictable (replacer_ s)) as Hcount.
  { unfold exhausted in Hex. rewrite Hfree in Hex. simpl in Hex.
    apply Z.eqb_neq in Hex. rewrite (replacer_size _ s Hs) in Hex.
    unfold count_evictable in *. lia. }
  destruct (Evict_finds (replacer_ s) (replacer_consistent _ s Hs) Hcount)
    as (f & r & Hevict & Htracked & Hc & Hk & Hsz & _).
  destruct (tracked_frames _ s Hs f Htracked) as (Hguard & page & Hpage & Hvalid).
  rewrite Hevict. simpl.
  change (page_at (set_replacer s r) f) with (page_at s f). rewrite Hpage. simpl.
  assert (2 ≤ k_ r) as Hk' by (rewrite Hk; exact (replacer_k _ s Hs)).
  assert ((to_size_t f >? replacer_size_ r) = false) as Hguard' by (rewrite Hsz; exact Hguard).
  destruct (is_dirty_ page).
  - unfold FlushPage. destruct (Z.eqb_spec (page_id_ page) INVALID_PAGE_ID) as [| _];
      [contradiction |].
    change (page_table_ (set_replacer s r)) with (page_table_ s).
    destruct (page_table_ s !! page_id_ page) as [f' |] eqn:Hpt; simpl.
    + destruct (resident_frames _ s Hs _ f' Hpt) as [[page' Hpage'] _].
      change (page_at (set_replacer s r) f') with (page_at s f').
      rewrite Hpage'. simpl. eexists. eexists. split; [reflexivity |].
      split; [| auto].
      change (is_Some (page_at (store_page (set_replacer s r) f'
                {| data_ := data_ page'; page_id_ := page_id_ page';
                   pin_count_ := pin_count_ page'; is_dirty_ := false |}) f)).
      apply page_at_store_page. change (is_Some (page_at s f)). eauto.
    + eexists. eexists. split; [reflexivity |]. split; [| auto].
      change (is_Some (page_at s f)). eauto.
  - simpl. eexists. eexists. split; [reflexivity |]. split; [| auto].
    change (is_Some (page_at s f)). eauto.
Qed.

(** [InitNewPage] then [Pinpage] install a page in a frame of the pool. *)
Lemma install_returns (s : BufferPoolManager) (page_id f : Z) :
  is_Some (page_at s f) →
  (to_size_t f >? replacer_size_ (replacer_ s)) = false →
  consistent (replacer_ s) →
  2 ≤ k_ (replacer_ s) →
  ∃ s', (InitNewPage PAGE_SIZE s page_id f ≫= λ s1, Pinpage s1 page_id) = Done s'
        ∧ page_table_ s' !! page_id = Some f
        ∧ page_at s' f
          = Some {| data_ := replicate PAGE_SIZE 0; page_id_ := page_id;
                    pin_count_ := 1; is_dirty_ := false |}
        ∧ disk_manager_ s' = disk_manager_ s.
Proof.
  intros Hpage Hguard Hc Hk. unfold InitNewPage.
  destruct Hpage as [page Hpage]. rewrite Hpage. simpl.
  unfold Pinpage. simpl. rewrite lookup_insert_eq. simpl.
  rewrite page_at_set_page_table.
  rewrite (page_at_store_page_eq s f _ (mk_is_Some _ _ Hpage)). simpl.
  destruct (RecordAccess_consistent (replacer_ s) f Hk Hc Hguard)
    as (r1 & Hr1 & Hc1 & _ & Hsz1).
  rewrite Hr1. simpl.
  destruct (SetEvictable_consistent r1 f false Hc1) as (r2 & Hr2 & _);
    [rewrite Hsz1; exact Hguard |].
  rewrite Hr2. simpl. eexists. split; [reflexivity |]. simpl.
  split; [apply lookup_insert_eq |]. split; [| reflexivity].
  unfold page_at in *. simpl. destruct (f <? 0); [discriminate |].
  rewrite list_insert_insert_eq. apply list_lookup_insert_eq.
  apply lookup_lt_Some in Hpage. exact Hpage.
Qed.

(** X19. [NewPage] returns a frame, holding a fresh page pinned once, whenever
    its guard does not fire in a serviceable manager. *)
Theorem NewPage_returns_frame (s : BufferPoolManager) :
  serviceable INVALID_PAGE_ID s →
  exhausted s = false →
  ∃ f s',
    NewPage s = Done ((next_page_id_ s, Some f), s')
    ∧ page_table_ s' !! next_page_id_ s = Some f
    ∧ page_at s' f
      = Some {| data_ := replicate PAGE_SIZE 0; page_id_ := next_page_id_ s;
                pin_count_ := 1; is_dirty_ := false |}.
Proof.
  intros Hs Hex. unfold BufferPool.NewPage. rewrite Hex.
  destruct (GetFreeFrame_returns s Hs Hex)
    as (f & s1 & -> & Hpage & Hguard & Hc & Hk & Hnext).
  simpl.
  destruct (install_returns
              (set_next_page_id s1 (to_page_id_t (next_page_id_ s1 + 1)))
              (next_page_id_ s1) f Hpage Hguard Hc Hk) as (s' & Hs' & Hpt & Hat & _).
  unfold mbind in Hs' |- *. simpl in Hs' |- *.
  destruct (InitNewPage _ _ _ _) as [s2 |]; simpl in Hs' |- *; [| discriminate].
  rewrite Hs'. simpl. rewrite <- Hnext. eauto.
Qed.

(** X20. In a serviceable manager [FetchPage] returns a frame, and the
    page table maps the page to it: for a resident page always, and for a
    page it has to bring in whenever its guard does not fire. *)
Theorem FetchPage_returns_frame (s : BufferPoolManager) (page_id : Z) :
  serviceable INVALID_PAGE_ID s →
  is_Some (page_table_ s !! page_id) ∨ exhausted s = false →
  ∃ f s',
    FetchPage s page_id = Done (Some f, s')
    ∧ page_table_ s' !! page_id = Some f.
Proof.
  intros Hs Hcase. unfold BufferPool.FetchPage.
  destruct (page_table_ s !! page_id) as [f |] eqn:Hpt.
  - (* resident *)
    destruct (resident_frames _ s Hs _ f Hpt) as [[page Hpage] Hguard].
    unfold Pinpage. rewrite Hpt. simpl. rewrite Hpage. simpl.
    destruct (RecordAccess_consistent (replacer_ s) f (replacer_k _ s Hs)
                (replacer_consistent _ s Hs) Hguard) as (r1 & Hr1 & Hc1 & _ & Hsz1).
    rewrite Hr1. simpl.
    destruct (SetEvictable_consistent r1 f false Hc1) as (r2 & Hr2 & _);
      [rewrite Hsz1; exact Hguard |].
    rewrite Hr2. simpl. rewrite Hpt. simpl.
    eexists. eexists. split; [reflexivity |]. exact Hpt.
  - (* brought in *)
    destruct Hcase as [[? [=]] | Hex]. rewrite Hex.
    destruct (GetFreeFrame_returns s Hs Hex)
      as (f & s1 & -> & Hpage & Hguard & Hc & Hk & _).
    simpl.
    destruct (install_returns s1 page_id f Hpage Hguard Hc Hk)
      as (s' & Hs' & Hpt' & Hat & _).
    unfold mbind in Hs' |- *. simpl in Hs' |- *.
    destruct (InitNewPage _ _ _ _) as [s2 |]; simpl in Hs' |- *; [| discriminate].
    rewrite Hs'. simpl. rewrite Hat. simpl.
    eexists. eexists. split; [reflexivity |]. exact Hpt'.
Qed.

(** C6 (evaluation at the failing input). One frame: page 0 is created,
    unpinned and deleted, page 1 is created and kept pinned. The free list
    is empty and the only frame is pinned, so nothing can be evicted; but
    [Remove] left [curr_size_] at 1, the guard of [NewPage] and [FetchPage]
    therefore does not fire, and neither call returns null: both go on to
    [GetFreeFrame], which has no frame to give. *)
Theorem pinned_pool_with_stale_Size :
  ∃ s,
    delete_then_new INVALID INVALID_PAGE_ID PAGE_SIZE = Done s
    ∧ free_list_ s = []
    ∧ map_to_list (page_table_ s) = [(1, 0)]
    ∧ (pin_count_ <$> page_at s 0) = Some 1
    ∧ count_evictable (replacer_ s) = 0
    ∧ Evict (replacer_ s) = Done (None, replacer_ s)
    ∧ Size (replacer_ s) = 1
    ∧ exhausted s = false
    ∧ NewPage s = Fail LogicError
    ∧ FetchPage s 7 = Fail LogicError.
Proof.
  eexists. split; [vm_compute; reflexivity |].
  repeat split; vm_compute; reflexivity.
Qed.

End Manager.

(** ** The theorems at concrete managers

    One frame of four bytes, both sentinels -1: [page0_pinned] holds page 0
    pinned once, [page0_dirty] holds it unpinned and dirty. *)

Lemma UnpinPage_false_changes_nothing_witness :
  let s := page0_dirty (-1) (-1) 4 in
  page_table_ s !! 0 = Some 0
  ∧ (pin_count_ <$> page_at s 0) = Some 0
  ∧ UnpinPage s 0 true = Done (false, s).
Proof.
  cbv zeta.
  split; [vm_compute; reflexivity |]. split; [vm_compute; reflexivity |].
  eapply (proj2 (UnpinPage_false_changes_nothing (page0_dirty (-1) (-1) 4) 0));
    vm_compute; reflexivity.
Defined.

Lemma UnpinPage_spec_witness :
  let s := page0_pinned (-1) (-1) 4 in
  page_table_ s !! 0 = Some 0
  ∧ (pin_count_ <$> page_at s 0) = Some 1
  ∧ (is_evictable_ <$> node_of (replacer_ s) 0) = Some false
  ∧ ∃ s' page',
      UnpinPage s 0 true = Done (true, s')
      ∧ page_at s' 0 = Some page'
      ∧ pin_count_ page' = 0
      ∧ is_dirty_ page' = true
      ∧ SetEvictable (replacer_ s) 0 true = Done (replacer_ s')
      ∧ ∃ n', node_of (replacer_ s') 0 = Some n' ∧ is_evictable_ n' = true.
Proof.
  cbv zeta.
  split; [vm_compute; reflexivity |]. split; [vm_compute; reflexivity |].
  split; [vm_compute; reflexivity |].
  pose proof (proj2 (UnpinPage_spec (page0_pinned (-1) (-1) 4) 0 true) 0
                {| data_ := [0; 0; 0; 0]; page_id_ := 0; pin_count_ := 1;
                   is_dirty_ := false |}) as H.
  destruct H as [_ H]; [vm_compute; reflexivity | vm_compute; reflexivity |].
  destruct H as (s' & page' & Hrun & Hat & Hpin & Hdirty & _ & _ & _ & _ & _ & _ & _
                 & Hone & _);
    [simpl; lia | intros _; vm_compute; reflexivity |].
  destruct (Hone eq_refl) as (Hset & _ & Hnode).
  destruct (Hnode {| history_ := [1]; fid_ := 0; is_evictable_ := false |})
    as (n' & Hn' & Hflag & _); [vm_compute; reflexivity |].
  exists s', page'. split; [exact Hrun |]. split; [exact Hat |].
  split; [exact Hpin |]. split; [apply Hdirty; right; reflexivity |].
  split; [exact Hset |]. exists n'. split; [exact Hn' | exact Hflag].
Defined.

Lemma DeletePage_discards_dirty_page_witness :
  let s := page0_dirty (-1) (-1) 4 in
  (is_dirty_ <$> page_at s 0) = Some true
  ∧ ∃ s',
      DeletePage (-1) 4 s 0 = Done (true, s')
      ∧ on_disk (disk_manager_ s') = on_disk (disk_manager_ s)
      ∧ calls (disk_manager_ s') = calls (disk_manager_ s) ++ [CallDeallocate 0]
      ∧ (∀ bytes, CallWrite 0 bytes ∉ [CallDeallocate 0])
      ∧ page_at s' 0 = Some (free_page (-1) 4).
Proof.
  cbv zeta. split; [vm_compute; reflexivity |].
  apply (DeletePage_discards_dirty_page (-1) 4 (page0_dirty (-1) (-1) 4) 0 0
           {| data_ := [0; 0; 0; 0]; page_id_ := 0; pin_count_ := 0;
              is_dirty_ := true |});
    vm_compute; reflexivity.
Defined.

(** ** The scenarios of section 8 on the model *)

(** Scenario 1: three frames; pages 0, 1, 2 are created, 0 and 1 unpinned;
    the fourth [NewPage] succeeds in the frame that held page 0, and the
    page table holds pages 1, 2 and 3. *)
Example scenario_new_unpin_evict :
  (let s := init (-1) 4 3 2 empty_disk in
   '(_, s) ← NewPage (-1) (-1) 4 s;
   '(_, s) ← NewPage (-1) (-1) 4 s;
   '(_, s) ← NewPage (-1) (-1) 4 s;
   '(_, s) ← UnpinPage s 0 false;
   '(_, s) ← UnpinPage s 1 false;
   '(r, s) ← NewPage (-1) (-1) 4 s;
   Done (r, (λ page_id, page_table_ s !! page_id) <$> [0; 1; 2; 3]))
  = Done ((3, Some 0), [None; Some 1; Some 2; Some 0]).
Proof. vm_compute. reflexivity. Qed.

(** Scenario 3: a dirty page is written to disk when its frame is taken. *)
Example scenario_dirty_eviction_flushes :
  (let s := page0_dirty (-1) (-1) 4 in
   '(r, s) ← NewPage (-1) (-1) 4 s;
   Done (r, calls (disk_manager_ s)))
  = Done ((1, Some 0), [CallWrite 0 [0; 0; 0; 0]]).
Proof. vm_compute. reflexivity. Qed.

(** Scenario 5: two frames, two pinned pages: [NewPage] and [FetchPage]
    return null; after one unpin [NewPage] succeeds. *)
Example scenario_pool_exhaustion :
  (let s := init (-1) 4 2 2 empty_disk in
   '(_, s) ← NewPage (-1) (-1) 4 s;
   '(_, s) ← NewPage (-1) (-1) 4 s;
   '(r1, s) ← NewPage (-1) (-1) 4 s;
   '(r2, s) ← FetchPage (-1) 4 s 9;
   '(_, s) ← UnpinPage s 0 false;
   '(r3, s) ← NewPage (-1) (-1) 4 s;
   Done (r1, r2, r3))
  = Done ((-1, None), None, (2, Some 0)).
Proof. vm_compute. reflexivity. Qed.

End BufferPoolFacts.

(** * Further properties of the replacer *)

Module ReplacerLaws.

Import Replacer ReplacerFacts.

(** ** [SetEvictable] *)

(** The flag [SetEvictable] leaves on the frame. *)
Lemma SetEvictable_flag (s s' : LRUKReplacer) (f : Z) (b : bool) :
  SetEvictable s f b = Done s' →
  ∀ n, node_of s' f = Some n → is_evictable_ n = b.
Proof.
  unfold SetEvictable, node_of. intros H n Hn.
  destruct (to_size_t f >? replacer_size_ s); [discriminate |].
  destruct (node_store_ s !! f) as [p |] eqn:Hp.
  2: { injection H as <-. rewrite Hp in Hn. discriminate. }
  destruct (nodes s !! p) as [n0 |] eqn:Hn0; simpl in H; [| discriminate].
  destruct (is_evictable_ n0) eqn:He, b; simpl in H; injection H as <-;
    simpl in Hn; rewrite Hp in Hn; simpl in Hn;
    rewrite ?lookup_insert_eq in Hn; try (injection Hn as <-; reflexivity);
    rewrite Hn0 in Hn; injection Hn as <-; exact He.
Qed.

(** X6. [SetEvictable] is idempotent: a second call with the same value finds
    nothing to do and leaves the replacer, [Size()] included, as the first
    call left it. *)
Theorem SetEvictable_idempotent (s s' : LRUKReplacer) (f : Z) (b : bool) :
  SetEvictable s f b = Done s' →
  SetEvictable s' f b = Done s'.
Proof.
  intros H. pose proof (SetEvictable_flag s s' f b H) as Hflag.
  assert (replacer_size_ s' = replacer_size_ s ∧ node_store_ s' = node_store_ s
          ∧ ∀ p, node_store_ s !! f = Some p → is_Some (nodes s' !! p))
    as (Hsz & Hstore & Hlive).
  { unfold SetEvictable in H.
    destruct (to_size_t f >? replacer_size_ s); [discriminate |].
    destruct (node_store_ s !! f) as [p |] eqn:Hp.
    2: { injection H as <-. repeat split. intros p [=]. }
    destruct (nodes s !! p) as [n0 |] eqn:Hn0; simpl in H; [| discriminate].
    destruct (is_evictable_ n0), b; simpl in H; injection H as <-;
      (split; [reflexivity |]); (split; [reflexivity |]);
      intros q [= <-]; simpl; rewrite ?lookup_insert_eq; eauto. }
  unfold SetEvictable in H |- *. rewrite Hsz, Hstore.
  destruct (to_size_t f >? replacer_size_ s); [discriminate |].
  destruct (node_store_ s !! f) as [p |] eqn:Hp; [| reflexivity].
  destruct (Hlive p eq_refl) as [n Hn]. rewrite Hn. simpl.
  rewrite (Hflag n); [| unfold node_of; rewrite Hstore, Hp; exact Hn].
  destruct b; reflexivity.
Qed.

(** X7. [SetEvictable] changes the flag of its frame and [curr_size_] and
    nothing else: the tracking map, both pools, the clock, every node's
    timestamps and frame id, and every node but the frame's own are as
    before; the frame, when tracked, has the flag asked for; [Size()] moves
    by one exactly when the flag of a tracked frame changes. *)
Theorem SetEvictable_adjusts_Size (s s' : LRUKReplacer) (f : Z) (b : bool) :
  SetEvictable s f b = Done s' →
  node_store_ s' = node_store_ s
  ∧ less_k_ s' = less_k_ s ∧ more_k_ s' = more_k_ s
  ∧ current_timestamp_ s' = current_timestamp_ s
  ∧ (∀ q, hist_of s' q = hist_of s q ∧ fid_of s' q = fid_of s q)
  ∧ (∀ q, node_store_ s !! f ≠ Some q → nodes s' !! q = nodes s !! q)
  ∧ (∀ n, node_of s' f = Some n → is_evictable_ n = b)
  ∧ Size s' = match is_evictable_ <$> node_of s f with
              | Some true => if b then Size s else to_size_t (Size s - 1)
              | Some false => if b then to_size_t (Size s + 1) else Size s
              | None => Size s
              end.
Proof.
  intros H. pose proof (SetEvictable_flag s s' f b H) as Hflag.
  revert H. unfold SetEvictable, node_of, Size. intros H.
  destruct (to_size_t f >? replacer_size_ s); [discriminate |].
  destruct (node_store_ s !! f) as [p |] eqn:Hp; simpl.
  2: { injection H as <-. repeat split. exact Hflag. }
  destruct (nodes s !! p) as [n0 |] eqn:Hn0; simpl in H |- *; [| discriminate].
  assert (∀ sz q, hist_of (set_flag s p n0 b sz) q = hist_of s q
                  ∧ fid_of (set_flag s p n0 b sz) q = fid_of s q) as Hviews.
  { intros sz q. unfold hist_of, fid_of, set_flag. simpl.
    destruct (decide (q = p)) as [-> | Hqp].
    - rewrite lookup_insert_eq, Hn0. split; reflexivity.
    - rewrite lookup_insert_ne by congruence. split; reflexivity. }
  assert (∀ sz q, Some p ≠ Some q →
                  nodes (set_flag s p n0 b sz) !! q = nodes s !! q) as Hrest.
  { intros sz q Hq. unfold set_flag. simpl. apply lookup_insert_ne. congruence. }
  destruct (is_evictable_ n0), b; simpl in H; injection H as <-;
    repeat split; try apply Hviews; try apply Hrest; try exact Hflag.
Qed.

(** ** [Evict] and [Remove]: what leaves and what stays *)

(** When a live node leaves the store and its frame the tracking map, the
    frame is untracked and every other frame keeps its node. *)
Lemma untrack_others (s s' : LRUKReplacer) (p : ptr) (n : LRUKNode) :
  consistent s →
  nodes s !! p = Some n →
  nodes s' = delete p (nodes s) →
  node_store_ s' = delete (fid_ n) (node_store_ s) →
  node_of s' (fid_ n) = None
  ∧ ∀ f', f' ≠ fid_ n → node_of s' f' = node_of s f'.
Proof.
  intros Hc Hn Hnodes Hstore. unfold node_of. rewrite Hstore, Hnodes. split.
  - rewrite lookup_delete_eq. reflexivity.
  - intros f' Hne. rewrite lookup_delete_ne by congruence.
    destruct (node_store_ s !! f') as [q |] eqn:Hq; [| reflexivity]. simpl.
    apply lookup_delete_ne. intros <-. apply Hne.
    pose proof (tracked_live s Hc f' p Hq) as Hf. unfold fid_of in Hf.
    rewrite Hn in Hf. injection Hf as Hf. congruence.
Qed.

(** The frame [Evict] returns was tracked, with its node evictable. *)
Lemma Evict_victim_node (s s' : LRUKReplacer) (f : Z) :
  consistent s →
  Evict s = Done (Some f, s') →
  ∃ p n, nodes s !! p = Some n ∧ is_evictable_ n = true ∧ fid_ n = f
         ∧ node_store_ s !! f = Some p
         ∧ nodes s' = delete p (nodes s)
         ∧ node_store_ s' = delete f (node_store_ s)
         ∧ current_timestamp_ s' = current_timestamp_ s
         ∧ next_node s' = next_node s.
Proof.
  intros Hc. unfold Evict.
  assert (∀ p n, nodes s !! p = Some n → node_store_ s !! fid_ n = Some p) as Htr.
  { intros p n Hn. apply (live_tracked s Hc). unfold fid_of. rewrite Hn. reflexivity. }
  destruct (scan_evictable (nodes s) (less_k_ s)) as [[[p n] |] |] eqn:Hcold;
    simpl; [| | discriminate].
  { apply scan_evictable_found in Hcold as [Hn Hev]. intros [= <- <-].
    exists p, n. simpl. repeat split; auto. }
  destruct (scan_evictable (nodes s) (more_k_ s)) as [[[p n] |] |] eqn:Hwarm;
    simpl; [| | discriminate].
  - apply scan_evictable_found in Hwarm as [Hn Hev]. intros [= <- <-].
    exists p, n. simpl. repeat split; auto.
  - discriminate.
Qed.

(** X8. [Evict] returns nothing exactly when no tracked node is evictable, and
    then it changes nothing. *)
Theorem Evict_none_iff (s : LRUKReplacer) :
  consistent s →
  (Evict s = Done (None, s) ↔ count_evictable s = 0)
  ∧ (∀ s', Evict s = Done (None, s') → s' = s).
Proof.
  intros Hc.
  assert (∀ s', Evict s = Done (None, s') → s' = s) as Hsame.
  { intros s'. unfold Evict.
    destruct (scan_evictable (nodes s) (less_k_ s)) as [[[p n] |] |];
      simpl; [discriminate | | discriminate].
    destruct (scan_evictable (nodes s) (more_k_ s)) as [[[p n] |] |];
      simpl; [discriminate | | discriminate].
    intros [= <-]. reflexivity. }
  split; [| exact Hsame]. split.
  - intros Hnone.
    destruct (Z_lt_dec 0 (count_evictable s)) as [Hpos | Hzero].
    + destruct (Evict_finds s Hc Hpos) as (f & s' & Hf & _). congruence.
    + unfold count_evictable in *. lia.
  - intros Hzero.
    destruct (Evict_consistent s Hc) as ([f |] & s' & Hev & _).
    + destruct (Evict_victim_node s s' f Hc Hev) as (p & n & Hn & Hflag & Hfid & Hp & _).
      assert (evictable_entries s !! f = Some p) as Hin.
      { apply evictable_lookup. rewrite Hn. simpl. rewrite Hflag. auto. }
      unfold count_evictable in Hzero.
      assert (size (evictable_entries s) = 0%nat) as H0%map_size_empty_inv by lia.
      rewrite H0, lookup_empty in Hin. discriminate.
    + rewrite Hev. f_equal. f_equal. exact (Hsame s' Hev).
Qed.

(** X9. The frame [Evict] returns was tracked and evictable; afterwards it is
    not tracked any more, and every other frame has the node it had. *)
Theorem Evict_takes_only_its_victim (s s' : LRUKReplacer) (f : Z) :
  consistent s →
  Evict s = Done (Some f, s') →
  (is_evictable_ <$> node_of s f) = Some true
  ∧ node_of s' f = None
  ∧ ∀ f', f' ≠ f → node_of s' f' = node_of s f'.
Proof.
  intros Hc Hev.
  destruct (Evict_victim_node s s' f Hc Hev)
    as (p & n & Hn & Hflag & Hfid & Hp & Hnodes & Hstore & _).
  split.
  - unfold node_of. rewrite Hp. simpl. rewrite Hn. simpl. congruence.
  - rewrite <- Hfid in Hstore |- *.
    exact (untrack_others s s' p n Hc Hn Hnodes Hstore).
Qed.

(** X10. [Remove] on a frame that passes the bounds check: an untracked frame
    is left alone; a tracked frame that is not evictable is refused; a
    tracked evictable frame is untracked, its node gone from both pools,
    and every other frame keeps its node. *)
Theorem Remove_takes_only_its_frame (s : LRUKReplacer) (f : Z) :
  consistent s →
  (to_size_t f >? replacer_size_ s) = false →
  match node_of s f with
  | None => Remove s f = Done s
  | Some n =>
      if is_evictable_ n then
        ∃ s', Remove s f = Done s'
              ∧ node_of s' f = None
              ∧ (∀ p, node_store_ s !! f = Some p →
                      p ∉ less_k_ s' ++ more_k_ s')
              ∧ ∀ f', f' ≠ f → node_of s' f' = node_of s f'
      else Remove s f = Fail (Thrown "Remove is called on a non-evictable frame")
  end.
Proof.
  intros Hc Hg. unfold node_of, Remove. rewrite Hg.
  destruct (node_store_ s !! f) as [p |] eqn:Hp; simpl; [| reflexivity].
  destruct (tracked_node s f p Hc Hp) as (n & Hn & Hfid & _). rewrite Hn. simpl.
  destruct (is_evictable_ n) eqn:Hev; simpl; [| reflexivity].
  destruct (Remove_consistent s f Hc Hg) as (s' & Hrem & Hc' & _).
  { intros n' Hn'. unfold node_of in Hn'. rewrite Hp in Hn'. simpl in Hn'.
    congruence. }
  unfold Remove in Hrem. rewrite Hg, Hp, Hn in Hrem. simpl in Hrem.
  rewrite Hev in Hrem. simpl in Hrem. rewrite Hrem.
  exists s'. split; [reflexivity |].
  assert (nodes s' = delete p (nodes s)
          ∧ node_store_ s' = delete (fid_ n) (node_store_ s)) as [Hnodes Hstore].
  { rewrite Hfid.
    destruct (Z.of_nat (length (history_ n)) <? k_ s); simpl in Hrem;
      injection Hrem as <-; split; reflexivity. }
  destruct (untrack_others s s' p n Hc Hn Hnodes Hstore) as [Hgone Hothers].
  rewrite Hfid in Hgone, Hothers.
  split; [exact Hgone |]. split; [| exact Hothers].
  intros q [= <-] Hin.
  destruct (pool_node_live s' p Hc' Hin) as [m Hm].
  rewrite Hnodes, lookup_delete_eq in Hm. discriminate.
Qed.

(** [Remove] of a frame that is untracked or evictable: afterwards the
    frame is not tracked, its node is in neither pool, and the other
    frames keep their nodes. *)
Lemma Remove_untracks (s : LRUKReplacer) (f : Z) :
  consistent s →
  (to_size_t f >? replacer_size_ s) = false →
  (∀ n, node_of s f = Some n → is_evictable_ n = true) →
  ∃ s', Remove s f = Done s'
        ∧ consistent s'
        ∧ node_store_ s' !! f = None
        ∧ (∀ p, node_store_ s !! f = Some p →
                nodes s' !! p = None ∧ p ∉ less_k_ s' ++ more_k_ s')
        ∧ ∀ f', f' ≠ f → node_of s' f' = node_of s f'.
Proof.
  intros Hc Hg Hev.
  destruct (Remove_consistent s f Hc Hg Hev) as (s' & Hrem & Hc' & _).
  exists s'. split; [exact Hrem |]. split; [exact Hc' |].
  unfold Remove in Hrem. rewrite Hg in Hrem.
  destruct (node_store_ s !! f) as [p |] eqn:Hp.
  2: { injection Hrem as <-. split; [exact Hp |]. split; [intros p [=] | auto]. }
  destruct (tracked_node s f p Hc Hp) as (n & Hn & Hfid & _).
  rewrite Hn in Hrem. simpl in Hrem.
  rewrite (Hev n) in Hrem; [| unfold node_of; rewrite Hp; exact Hn]. simpl in Hrem.
  assert (nodes s' = delete p (nodes s)
          ∧ node_store_ s' = delete (fid_ n) (node_store_ s)) as [Hnodes Hstore].
  { rewrite Hfid.
    destruct (Z.of_nat (length (history_ n)) <? k_ s); simpl in Hrem;
      injection Hrem as <-; split; reflexivity. }
  destruct (untrack_others s s' p n Hc Hn Hnodes Hstore) as [_ Hothers].
  rewrite Hfid in Hothers, Hstore.
  split; [rewrite Hstore; apply lookup_delete_eq |]. split; [| exact Hothers].
  intros q [= <-].
  assert (nodes s' !! p = None) as Hdead by (rewrite Hnodes; apply lookup_delete_eq).
  split; [exact Hdead |]. intros Hin.
  destruct (pool_node_live s' p Hc' Hin) as [m Hm]. congruence.
Qed.

(** X11. A frame that was made non-evictable is not the one [Evict] takes. *)
Theorem Evict_spares_unevictable (s s1 s2 : LRUKReplacer) (f : Z) (victim : option Z) :
  consistent s →
  SetEvictable s f false = Done s1 →
  Evict s1 = Done (victim, s2) →
  victim ≠ Some f.
Proof.
  intros Hc Hset Hev ->.
  assert (consistent s1) as Hc1.
  { destruct (to_size_t f >? replacer_size_ s) eqn:Hg.
    { unfold SetEvictable in Hset. rewrite Hg in Hset. discriminate. }
    destruct (SetEvictable_consistent s f false Hc Hg) as (s1' & Hs1 & Hc1 & _).
    congruence. }
  destruct (Evict_victim_node s1 s2 f Hc1 Hev) as (p & n & Hn & Hflag & _ & Hp & _).
  assert (is_evictable_ n = false); [| congruence].
  apply (SetEvictable_flag s s1 f false Hset).
  unfold node_of. rewrite Hp. exact Hn.
Qed.

(** X12. Eviction forgets: the next [RecordAccess] of the frame [Evict] returned
    starts it again in the cold pool, not evictable, with the new
    timestamp as its only one. *)
Theorem evicted_frame_starts_again (s s1 s2 : LRUKReplacer) (f : Z) :
  Evict s = Done (Some f, s1) →
  RecordAccess s1 f = Done s2 →
  node_of s2 f
  = Some {| history_ := [to_size_t (current_timestamp_ s + 1)]; fid_ := f;
            is_evictable_ := false |}
  ∧ in_cold s2 f
  ∧ Size s2 = Size s1.
Proof.
  intros Hev Hrec.
  assert (node_store_ s1 !! f = None ∧ current_timestamp_ s1 = current_timestamp_ s)
    as [Hgone Hclock].
  { unfold Evict in Hev.
    destruct (scan_evictable (nodes s) (less_k_ s)) as [[[p n] |] |];
      simpl in Hev; [| | discriminate].
    { injection Hev as <- <-. simpl. split; [apply lookup_delete_eq | reflexivity]. }
    destruct (scan_evictable (nodes s) (more_k_ s)) as [[[p n] |] |];
      simpl in Hev; [| discriminate | discriminate].
    injection Hev as <- <-. simpl. split; [apply lookup_delete_eq | reflexivity]. }
  unfold RecordAccess in Hrec.
  destruct (to_size_t f >? replacer_size_ s1); [discriminate |].
  rewrite Hgone, Hclock in Hrec. injection Hrec as <-.
  split; [| split; [| reflexivity]].
  - unfold node_of. simpl. rewrite lookup_insert_eq. simpl.
    rewrite lookup_insert_eq. reflexivity.
  - exists (next_node s1). simpl. split; [apply lookup_insert_eq |].
    apply elem_of_app. right. apply list_elem_of_here.
Qed.

(** ** [RecordAccess]: the timestamps kept and the frames touched *)

(** X13. A node keeps the K most recent timestamps of its frame: after
    [RecordAccess] they are the old ones followed by the new clock value,
    cut to the last K. *)
Theorem RecordAccess_keeps_last_K (s s' : LRUKReplacer) (f : Z) :
  1 ≤ k_ s →
  consistent s →
  RecordAccess s f = Done s' →
  let ts := to_size_t (current_timestamp_ s + 1) in
  let h := default [] (history_ <$> node_of s f) ++ [ts] in
  ∃ h', (history_ <$> node_of s' f) = Some h'
        ∧ current_timestamp_ s' = ts
        ∧ last h' = Some ts
        ∧ h' = drop (length h - Z.to_nat (k_ s)) h
        ∧ Z.of_nat (length h') = Z.min (k_ s) (Z.of_nat (length h)).
Proof.
  intros HK Hc Hrec. cbv zeta.
  destruct (RecordAccess_history s s' f HK Hrec) as [Hts Hh]. cbv zeta in Hh.
  set (ts := to_size_t (current_timestamp_ s + 1)) in *.
  set (old := default [] (history_ <$> node_of s f)) in *.
  assert (Z.of_nat (length old) ≤ k_ s) as Hold.
  { unfold old, node_of. destruct (node_store_ s !! f) as [p |]; simpl; [| lia].
    destruct (nodes s !! p) as [n |] eqn:Hn; simpl; [| lia].
    apply (history_bounds s Hc p). unfold hist_of. rewrite Hn. reflexivity. }
  eexists. split; [exact Hh |]. split; [exact Hts |].
  rewrite length_app in *. simpl length in *.
  destruct (Z.leb_spec (Z.of_nat (length old + 1)) (k_ s)) as [Hle | Hgt].
  - split; [apply last_snoc |]. split; [| rewrite length_app; simpl; lia].
    replace (length old + 1 - Z.to_nat (k_ s))%nat with 0%nat by lia. reflexivity.
  - assert (length old = Z.to_nat (k_ s)) as Hlen by lia.
    destruct old as [| t old']; [simpl in Hlen; lia |].
    simpl tail. split; [apply last_snoc |]. split.
    + replace (length (t :: old') + 1 - Z.to_nat (k_ s))%nat with 1%nat by lia.
      reflexivity.
    + rewrite length_app. simpl in *. lia.
Qed.

(** X14. [RecordAccess] touches one frame: [Size()] stays, the frame keeps its
    evictable flag (a frame met for the first time starts non-evictable)
    and every other frame keeps its node. *)
Theorem RecordAccess_touches_one_frame (s s' : LRUKReplacer) (f : Z) :
  consistent s →
  RecordAccess s f = Done s' →
  Size s' = Size s
  ∧ (is_evictable_ <$> node_of s' f)
    = Some (default false (is_evictable_ <$> node_of s f))
  ∧ (fid_ <$> node_of s' f) = Some f
  ∧ ∀ f', f' ≠ f → node_of s' f' = node_of s f'.
Proof.
  intros Hc H. unfold Size, node_of. unfold RecordAccess in H.
  destruct (to_size_t f >? replacer_size_ s); [discriminate |].
  destruct (node_store_ s !! f) as [p |] eqn:Hp.
  - destruct (tracked_node s f p Hc Hp) as (n & Hn & Hfid & _).
    rewrite Hn in H. simpl in H.
    assert (∀ s1 hist', node_store_ s1 = node_store_ s →
              nodes s1 = <[p := with_history n hist']> (nodes s) →
              (is_evictable_ <$> (node_store_ s1 !! f ≫= λ q, nodes s1 !! q))
              = Some (is_evictable_ n)
              ∧ (fid_ <$> (node_store_ s1 !! f ≫= λ q, nodes s1 !! q)) = Some f
              ∧ ∀ f', f' ≠ f →
                  (node_store_ s1 !! f' ≫= λ q, nodes s1 !! q)
                  = (node_store_ s !! f' ≫= λ q, nodes s !! q)) as Hsame.
    { intros s1 hist' Hstore Hnodes. rewrite Hstore, Hnodes, Hp. simpl.
      rewrite lookup_insert_eq. simpl. split; [reflexivity |].
      split; [congruence |]. intros f' Hne.
      destruct (node_store_ s !! f') as [q |] eqn:Hq; [| reflexivity]. simpl.
      apply lookup_insert_ne. intros <-. apply Hne.
      exact (tracked_injective s _ _ p Hc Hq Hp). }
    simpl. rewrite Hn. simpl.
    destruct (Z.of_nat (length (history_ n ++ _)) <? k_ s).
    { injection H as <-. split; [reflexivity |]. eapply Hsame; reflexivity. }
    destruct (Z.of_nat (length (history_ n ++ _)) =? k_ s); simpl in H;
      (destruct (head _) as [kth |]; simpl in H; [| discriminate]);
      (destruct (insert_by_kth _ _ _ _) as [more' |]; simpl in H; [| discriminate]);
      injection H as <-; (split; [reflexivity |]); eapply Hsame; reflexivity.
  - injection H as <-. simpl. rewrite !lookup_insert_eq. simpl.
    rewrite !lookup_insert_eq. simpl.
    split; [reflexivity |]. split; [reflexivity |]. split; [reflexivity |].
    intros f' Hne. rewrite lookup_insert_ne by congruence.
    destruct (node_store_ s !! f') as [q |] eqn:Hq; [| reflexivity]. simpl.
    apply lookup_insert_ne. intros Heq. subst q.
    pose proof (tracked_live s Hc f' _ Hq) as Hl. unfold fid_of in Hl.
    destruct (nodes s !! next_node s) as [m |] eqn:Hm; [| discriminate].
    pose proof (live_below_next s Hc _ (mk_is_Some _ _ Hm)). lia.
Qed.

(** ** The clock and the timestamps *)

Lemma increasing_snoc (h : list Z) (u : Z) :
  increasing h = true → (∀ t, t ∈ h → t < u) → increasing (h ++ [u]) = true.
Proof.
  induction h as [| a h IH]; [reflexivity |]. simpl.
  intros [H1 H2]%andb_true_iff Hlt. apply andb_true_iff. split.
  - rewrite forallb_app, H1. simpl. rewrite andb_true_r. apply Z.ltb_lt.
    apply Hlt. apply list_elem_of_here.
  - apply IH; [exact H2 |]. intros t Ht. apply Hlt.
    apply list_elem_of_further. exact Ht.
Qed.

Lemma increasing_tail (h : list Z) :
  increasing h = true → increasing (tail h) = true.
Proof.
  destruct h as [| a h]; [reflexivity |]. simpl.
  intros [_ H]%andb_true_iff. exact H.
Qed.

Lemma stamp_of_tail (h : list Z) (t : Z) : t ∈ tail h → t ∈ h.
Proof.
  destruct h as [| a h]; [exact id |]. simpl. apply list_elem_of_further.
Qed.

Lemma ascending_snoc (key : ptr → option Z) (l : list ptr) (p : ptr) (b : Z) :
  ascending key l = true →
  key p = Some b →
  (∀ q, q ∈ l → ∃ a, key q = Some a ∧ a ≤ b) →
  ascending key (l ++ [p]) = true.
Proof.
  intros Hasc Hp. induction l as [| x l IH]; intros Hall; [reflexivity |].
  change ((x :: l) ++ [p]) with (x :: (l ++ [p])).
  apply ascending_cons in Hasc as [H1 H2]. apply ascending_cons. split.
  - intros q [Hq | ->%list_elem_of_singleton]%elem_of_app; [exact (H1 q Hq) |].
    destruct (Hall x) as (a & Ha & Hab); [apply list_elem_of_here |].
    exists a, b. auto.
  - apply IH; [exact H2 |]. intros q Hq. apply Hall.
    apply list_elem_of_further. exact Hq.
Qed.

Lemma stamped_init (num_frames k : Z) : stamped (init num_frames k).
Proof.
  split; simpl; unfold hist_of; simpl.
  - lia.
  - intros p h t H. rewrite lookup_empty in H. discriminate.
  - intros p h H. rewrite lookup_empty in H. discriminate.
  - reflexivity.
Qed.

(** A change of flags leaves the timestamps alone. *)
Lemma stamped_same_hist (s s' : LRUKReplacer) :
  stamped s →
  (∀ q, hist_of s' q = hist_of s q) →
  less_k_ s' = less_k_ s →
  current_timestamp_ s' = current_timestamp_ s →
  stamped s'.
Proof.
  intros Hs Hh Hless Hts. split.
  - rewrite Hts. apply Hs.
  - intros q h t Hq Ht. rewrite Hts. rewrite Hh in Hq.
    exact (stamps_past s Hs q h t Hq Ht).
  - intros q h Hq. rewrite Hh in Hq. exact (stamps_increasing s Hs q h Hq).
  - rewrite Hless. apply (ascending_ext (front_of s)); [| apply Hs].
    intros q _. rewrite !front_of_hist, Hh. reflexivity.
Qed.

(** A node that is taken away leaves the others in order. *)
Lemma stamped_untrack (s s' : LRUKReplacer) (p : ptr) :
  stamped s →
  consistent s' →
  nodes s' = delete p (nodes s) →
  less_k_ s' = less_k_ s ∨ less_k_ s' = list_remove p (less_k_ s) →
  current_timestamp_ s' = current_timestamp_ s →
  stamped s'.
Proof.
  intros Hs Hc' Hnodes Hless Hts.
  assert (less_k_ s' = list_remove p (less_k_ s)) as Hless'.
  { destruct Hless as [H | H]; [| exact H].
    rewrite list_remove_absent; [exact H |]. intros Hin. rewrite <- H in Hin.
    destruct (pool_node_live s' p Hc') as [m Hm].
    { apply elem_of_app. left. exact Hin. }
    rewrite Hnodes, lookup_delete_eq in Hm. discriminate. }
  assert (∀ q h, hist_of s' q = Some h → hist_of s q = Some h) as Hsub.
  { intros q h. unfold hist_of. rewrite Hnodes.
    destruct (decide (q = p)) as [-> | Hne].
    - rewrite lookup_delete_eq. discriminate.
    - rewrite lookup_delete_ne by congruence. auto. }
  split.
  - rewrite Hts. apply Hs.
  - intros q h t Hh Ht. rewrite Hts.
    exact (stamps_past s Hs q h t (Hsub q h Hh) Ht).
  - intros q h Hh. exact (stamps_increasing s Hs q h (Hsub q h Hh)).
  - rewrite Hless'. apply (ascending_ext (front_of s)).
    + intros q [Hne _]%list_remove_elem. unfold front_of, front_in.
      rewrite Hnodes, lookup_delete_ne by congruence. reflexivity.
    + apply ascending_list_remove. apply Hs.
Qed.

(** One more access of a tracked frame: the new timestamp goes behind the
    old ones, and the node stays where it is in the cold pool or leaves
    it. *)
Lemma stamped_access (s s' : LRUKReplacer) (p : ptr) (n : LRUKNode) (h' : list Z) :
  stamped s →
  current_timestamp_ s + 1 < SIZE_MOD →
  nodes s !! p = Some n →
  history_ n ≠ [] →
  nodes s' = <[p := with_history n h']> (nodes s) →
  current_timestamp_ s' = to_size_t (current_timestamp_ s + 1) →
  (h' = history_ n ++ [to_size_t (current_timestamp_ s + 1)]
   ∧ less_k_ s' = less_k_ s)
  ∨ ((h' = history_ n ++ [to_size_t (current_timestamp_ s + 1)]
      ∨ h' = tail (history_ n ++ [to_size_t (current_timestamp_ s + 1)]))
     ∧ less_k_ s' = list_remove p (less_k_ s)) →
  stamped s'.
Proof.
  intros Hs Hmax Hn Hne Hnodes Hts Hcase.
  pose proof (clock_started s Hs) as H0.
  rewrite to_size_t_small in * by lia.
  set (ts := current_timestamp_ s + 1) in *.
  assert (hist_of s p = Some (history_ n)) as Hp.
  { unfold hist_of. rewrite Hn. reflexivity. }
  assert (∀ t, t ∈ history_ n ++ [ts] → 1 ≤ t ≤ ts) as Hpast.
  { intros t [Ht | ->%list_elem_of_singleton]%elem_of_app; [| unfold ts; lia].
    pose proof (stamps_past s Hs p _ t Hp Ht). unfold ts. lia. }
  assert (increasing (history_ n ++ [ts]) = true) as Hinc.
  { apply increasing_snoc; [exact (stamps_increasing s Hs p _ Hp) |].
    intros t Ht. pose proof (stamps_past s Hs p _ t Hp Ht). unfold ts. lia. }
  assert (∀ t, t ∈ h' → 1 ≤ t ≤ ts) as Hpast'.
  { intros t Ht. apply Hpast.
    destruct Hcase as [[-> _] | [[-> | ->] _]]; auto using stamp_of_tail. }
  assert (increasing h' = true) as Hinc'.
  { destruct Hcase as [[-> _] | [[-> | ->] _]]; auto using increasing_tail. }
  assert (∀ q, q ≠ p → hist_of s' q = hist_of s q) as Hother.
  { intros q Hq. unfold hist_of. rewrite Hnodes, lookup_insert_ne by congruence.
    reflexivity. }
  assert (hist_of s' p = Some h') as Hp'.
  { unfold hist_of. rewrite Hnodes, lookup_insert_eq. reflexivity. }
  split.
  - rewrite Hts. unfold ts. lia.
  - intros q h t Hq Ht. rewrite Hts. destruct (decide (q = p)) as [-> | Hqp].
    + rewrite Hp' in Hq. injection Hq as <-. exact (Hpast' t Ht).
    + rewrite (Hother q Hqp) in Hq.
      pose proof (stamps_past s Hs q h t Hq Ht). unfold ts. lia.
  - intros q h Hq. destruct (decide (q = p)) as [-> | Hqp].
    + rewrite Hp' in Hq. injection Hq as <-. exact Hinc'.
    + rewrite (Hother q Hqp) in Hq. exact (stamps_increasing s Hs q h Hq).
  - destruct Hcase as [[-> ->] | [_ ->]].
    + apply (ascending_ext (front_of s)); [| apply Hs].
      intros q _. rewrite !front_of_hist. destruct (decide (q = p)) as [-> | Hqp].
      * rewrite Hp, Hp'. simpl. destruct (history_ n); [congruence | reflexivity].
      * rewrite (Hother q Hqp). reflexivity.
    + apply (ascending_ext (front_of s)).
      * intros q [Hqp _]%list_remove_elem. rewrite !front_of_hist, (Hother q Hqp).
        reflexivity.
      * apply ascending_list_remove. apply Hs.
Qed.

(** The first access of a frame: its node goes to the back of the cold
    pool with the newest timestamp there is. *)
Lemma stamped_track (s s' : LRUKReplacer) (n' : LRUKNode) :
  consistent s →
  stamped s →
  current_timestamp_ s + 1 < SIZE_MOD →
  nodes s' = <[next_node s := n']> (nodes s) →
  history_ n' = [to_size_t (current_timestamp_ s + 1)] →
  less_k_ s' = less_k_ s ++ [next_node s] →
  current_timestamp_ s' = to_size_t (current_timestamp_ s + 1) →
  stamped s'.
Proof.
  intros Hc Hs Hmax Hnodes Hh' Hless Hts.
  pose proof (clock_started s Hs) as H0.
  rewrite to_size_t_small in * by lia.
  set (ts := current_timestamp_ s + 1) in *.
  assert (nodes s !! next_node s = None) as Hfresh.
  { destruct (nodes s !! next_node s) as [m |] eqn:Hm; [| reflexivity].
    pose proof (live_below_next s Hc _ (mk_is_Some _ _ Hm)). lia. }
  assert (∀ q, is_Some (nodes s !! q) → hist_of s' q = hist_of s q) as Hother.
  { intros q [m Hm]. unfold hist_of. rewrite Hnodes, lookup_insert_ne; [reflexivity |].
    intros <-. congruence. }
  assert (hist_of s' (next_node s) = Some [ts]) as Hp'.
  { unfold hist_of. rewrite Hnodes, lookup_insert_eq. simpl. congruence. }
  assert (∀ q h, hist_of s' q = Some h →
                 (q = next_node s ∧ h = [ts]) ∨ hist_of s q = Some h) as Hsplit.
  { intros q h Hq. destruct (decide (q = next_node s)) as [-> | Hqp].
    - left. rewrite Hp' in Hq. injection Hq as <-. auto.
    - right. unfold hist_of in *. rewrite Hnodes, lookup_insert_ne in Hq by congruence.
      exact Hq. }
  split.
  - rewrite Hts. unfold ts. lia.
  - intros q h t Hq Ht. rewrite Hts.
    destruct (Hsplit q h Hq) as [[_ ->] | Hq'].
    + apply list_elem_of_singleton in Ht as ->. unfold ts. lia.
    + pose proof (stamps_past s Hs q h t Hq' Ht). unfold ts. lia.
  - intros q h Hq. destruct (Hsplit q h Hq) as [[_ ->] | Hq']; [reflexivity |].
    exact (stamps_increasing s Hs q h Hq').
  - rewrite Hless. apply (ascending_snoc _ _ _ ts).
    + apply (ascending_ext (front_of s)); [| apply Hs].
      intros q Hq. rewrite !front_of_hist, Hother; [reflexivity |].
      apply (pool_node_live s q Hc). apply elem_of_app. left. exact Hq.
    + rewrite front_of_hist, Hp'. reflexivity.
    + intros q Hq. rewrite front_of_hist, Hother.
      2: { apply (pool_node_live s q Hc). apply elem_of_app. left. exact Hq. }
      apply (cold_nodes s Hc) in Hq as (h & Hh & _). rewrite Hh. simpl.
      pose proof (history_bounds s Hc q h Hh) as Hb.
      destruct h as [| a h]; [simpl in Hb; lia |]. exists a. split; [reflexivity |].
      pose proof (stamps_past s Hs q _ a Hh (list_elem_of_here _ _)). unfold ts. lia.
Qed.

(** Every call that returns keeps the timestamps in order, as long as the
    clock does not wrap around; the clock advances by one at most. *)
Lemma step_stamped (s s' : LRUKReplacer) (o : op) :
  2 ≤ k_ s →
  consistent s →
  stamped s →
  current_timestamp_ s + 1 < SIZE_MOD →
  step s o = Done s' →
  stamped s' ∧ current_timestamp_ s' ≤ current_timestamp_ s + 1.
Proof.
  intros HK Hc Hs Hmax Hstep.
  destruct (step_keeps_consistent s s' o HK Hc Hstep) as [Hc' _].
  pose proof (clock_started s Hs) as H0.
  destruct o as [f | f b | | f]; simpl in Hstep.
  - (* RecordAccess *)
    unfold RecordAccess in Hstep.
    destruct (to_size_t f >? replacer_size_ s); [discriminate |].
    destruct (node_store_ s !! f) as [p |] eqn:Hp.
    + destruct (tracked_node s f p Hc Hp) as (n & Hn & _ & Hlen).
      rewrite Hn in Hstep. simpl in Hstep.
      assert (history_ n ≠ []) as Hne.
      { intros E. rewrite E in Hlen. simpl in Hlen. lia. }
      destruct (Z.ltb_spec (Z.of_nat (length (history_ n ++ [to_size_t (current_timestamp_ s + 1)]))) (k_ s))
        as [Hlt | Hge].
      { injection Hstep as <-. simpl. rewrite to_size_t_small by lia.
        split; [| lia].
        eapply (stamped_access s _ p n); try eassumption; try reflexivity.
        - simpl. rewrite to_size_t_small by lia. reflexivity.
        - left. simpl. rewrite to_size_t_small by lia. auto. }
      destruct (Z.eqb_spec (Z.of_nat (length (history_ n ++ [to_size_t (current_timestamp_ s + 1)]))) (k_ s))
        as [Heq | Hneq]; simpl in Hstep;
        (destruct (head _) as [kth |]; simpl in Hstep; [| discriminate]);
        (destruct (insert_by_kth _ _ _ _) as [more' |]; simpl in Hstep; [| discriminate]);
        injection Hstep as <-; simpl; rewrite to_size_t_small by lia;
        (split; [| lia]).
      * eapply (stamped_access s _ p n); try eassumption; try reflexivity.
        -- simpl. rewrite to_size_t_small by lia. reflexivity.
        -- right. simpl. rewrite to_size_t_small by lia. auto.
      * eapply (stamped_access s _ p n); try eassumption; try reflexivity.
        -- simpl. rewrite to_size_t_small by lia. reflexivity.
        -- right. simpl. rewrite to_size_t_small by lia. split; [auto |].
           symmetry. apply list_remove_absent. intros Hin.
           apply (consistent_not_both s p Hc Hin).
           apply (warm_nodes s Hc). exists (history_ n). split.
           ++ unfold hist_of. rewrite Hn. reflexivity.
           ++ rewrite length_app in Hge, Hneq. simpl in Hge, Hneq. lia.
    + injection Hstep as <-. simpl. rewrite to_size_t_small by lia.
      split; [| lia].
      eapply (stamped_track s _ _ Hc Hs Hmax); simpl;
        rewrite ?to_size_t_small by lia; reflexivity.
  - (* SetEvictable *)
    assert (current_timestamp_ s' = current_timestamp_ s
            ∧ less_k_ s' = less_k_ s
            ∧ ∀ q, hist_of s' q = hist_of s q) as (Hts & Hless & Hh).
    { unfold SetEvictable in Hstep.
      destruct (to_size_t f >? replacer_size_ s); [discriminate |].
      destruct (node_store_ s !! f) as [p |] eqn:Hp; [| injection Hstep as <-; auto].
      destruct (nodes s !! p) as [n |] eqn:Hn; simpl in Hstep; [| discriminate].
      assert (∀ sz q, hist_of (set_flag s p n b sz) q = hist_of s q) as Hv.
      { intros sz q. unfold hist_of, set_flag. simpl.
        destruct (decide (q = p)) as [-> | Hqp].
        - rewrite lookup_insert_eq, Hn. reflexivity.
        - rewrite lookup_insert_ne by congruence. reflexivity. }
      destruct (is_evictable_ n), b; simpl in Hstep; injection Hstep as <-;
        auto. }
    split; [| lia]. exact (stamped_same_hist s s' Hs Hh Hless Hts).
  - (* Evict *)
    destruct (Evict s) as [[victim s1] |] eqn:He; simpl in Hstep; [| discriminate].
    injection Hstep as ->. unfold Evict in He.
    destruct (scan_evictable (nodes s) (less_k_ s)) as [[[p n] |] |];
      simpl in He; [| | discriminate].
    { injection He as _ <-. simpl in *. split; [| lia].
      apply (stamped_untrack s _ p Hs Hc'); simpl; auto. }
    destruct (scan_evictable (nodes s) (more_k_ s)) as [[[p n] |] |];
      simpl in He; [| | discriminate].
    + injection He as _ <-. simpl in *. split; [| lia].
      apply (stamped_untrack s _ p Hs Hc'); simpl; auto.
    + injection He as _ <-. split; [exact Hs | lia].
  - (* Remove *)
    unfold Remove in Hstep.
    destruct (to_size_t f >? replacer_size_ s); [discriminate |].
    destruct (node_store_ s !! f) as [p |] eqn:Hp;
      [| injection Hstep as <-; split; [exact Hs | lia]].
    destruct (nodes s !! p) as [n |] eqn:Hn; simpl in Hstep; [| discriminate].
    destruct (is_evictable_ n); simpl in Hstep; [| discriminate].
    destruct (Z.of_nat (length (history_ n)) <? k_ s); simpl in Hstep;
      injection Hstep as <-; simpl in *; (split; [| lia]);
      apply (stamped_untrack s _ p Hs Hc'); simpl; auto.
Qed.

Lemma run_stamped (s s' : LRUKReplacer) (os : list op) :
  2 ≤ k_ s →
  consistent s →
  stamped s →
  current_timestamp_ s + Z.of_nat (length os) < SIZE_MOD →
  run s os = Done s' →
  stamped s' ∧ consistent s'
  ∧ current_timestamp_ s' ≤ current_timestamp_ s + Z.of_nat (length os).
Proof.
  revert s. induction os as [| o os IH]; intros s HK Hc Hs Hmax Hrun; simpl in Hrun.
  - injection Hrun as <-. simpl. split; [exact Hs |]. split; [exact Hc | lia].
  - destruct (step s o) as [s1 |] eqn:Hstep; simpl in Hrun; [| discriminate].
    simpl length in Hmax.
    destruct (step_keeps_consistent s s1 o HK Hc Hstep) as [Hc1 Hk1].
    destruct (step_stamped s s1 o HK Hc Hs) as [Hs1 Hts1]; [lia | exact Hstep |].
    destruct (IH s1) as (Hs' & Hc' & Hts'); [lia | exact Hc1 | exact Hs1 | lia | exact Hrun |].
    split; [exact Hs' |]. split; [exact Hc' |]. simpl length. lia.
Qed.

(** X15. As long as the clock has not wrapped around, which takes 2^64 calls,
    the timestamps a frame keeps are past values of the clock in strictly
    increasing order: the first of them is the oldest access kept, the last
    the most recent. *)
Theorem timestamps_increase (num_frames k : Z) (os : list op) (s : LRUKReplacer) :
  2 ≤ k →
  Z.of_nat (length os) < SIZE_MOD →
  run (init num_frames k) os = Done s →
  0 ≤ current_timestamp_ s ≤ Z.of_nat (length os)
  ∧ ∀ f n, node_of s f = Some n →
           increasing (history_ n) = true
           ∧ ∀ t, t ∈ history_ n → 1 ≤ t ≤ current_timestamp_ s.
Proof.
  intros HK Hmax Hrun.
  destruct (run_stamped (init num_frames k) s os) as (Hs & Hc & Hts);
    [exact HK | apply consistent_init | apply stamped_init | simpl; lia | exact Hrun |].
  simpl in Hts. split; [pose proof (clock_started s Hs); lia |].
  intros f n Hn. unfold node_of in Hn.
  destruct (node_store_ s !! f) as [p |]; [| discriminate]. simpl in Hn.
  assert (hist_of s p = Some (history_ n)) as Hh.
  { unfold hist_of. rewrite Hn. reflexivity. }
  split; [exact (stamps_increasing s Hs p _ Hh) |].
  intros t Ht. exact (stamps_past s Hs p _ t Hh Ht).
Qed.

(** X16. While some evictable frame has fewer than K accesses, the frame [Evict]
    returns is such a frame, and among them the one whose first access is
    the oldest. *)
Theorem cold_victim_is_oldest
    (num_frames k : Z) (os : list op) (s s' : LRUKReplacer) (f : Z) :
  2 ≤ k →
  Z.of_nat (length os) < SIZE_MOD →
  run (init num_frames k) os = Done s →
  Evict s = Done (Some f, s') →
  ∀ f' n', node_of s f' = Some n' →
           is_evictable_ n' = true →
           Z.of_nat (length (history_ n')) < k →
           ∃ n t t', node_of s f = Some n
                     ∧ is_evictable_ n = true
                     ∧ Z.of_nat (length (history_ n)) < k
                     ∧ head (history_ n) = Some t
                     ∧ head (history_ n') = Some t'
                     ∧ t ≤ t'.
Proof.
  intros HK Hmax Hrun Hev f' n' Hn' Hflag' Hlen'.
  destruct (run_stamped (init num_frames k) s os) as (Hs & Hc & _);
    [exact HK | apply consistent_init | apply stamped_init | simpl; lia | exact Hrun |].
  destruct (run_consistent (init num_frames k) s os HK (consistent_init _ _) Hrun)
    as [_ Hk]. simpl in Hk.
  unfold node_of in Hn'.
  destruct (node_store_ s !! f') as [p' |] eqn:Hp'; [| discriminate]. simpl in Hn'.
  assert (p' ∈ less_k_ s) as Hcold'.
  { apply (cold_nodes s Hc). exists (history_ n'). unfold hist_of. rewrite Hn'.
    split; [reflexivity | lia]. }
  unfold Evict in Hev.
  destruct (scan_evictable_spec s (less_k_ s))
    as [(before & p & n & after & Hless & Hn & Hflag & Hbefore & Hscan) | [Hnone _]].
  { intros q Hq. apply (pool_node_live s q Hc). apply elem_of_app. left. exact Hq. }
  2: { exfalso. apply (Hnone p' Hcold'). unfold evictable_at. rewrite Hn'.
       simpl. congruence. }
  rewrite Hscan in Hev. simpl in Hev. injection Hev as <- _.
  assert (p ∈ less_k_ s) as Hcold.
  { rewrite Hless. apply elem_of_app. right. apply list_elem_of_here. }
  apply (cold_nodes s Hc) in Hcold as (h & Hh & Hlen).
  unfold hist_of in Hh. rewrite Hn in Hh. injection Hh as <-.
  assert (node_store_ s !! fid_ n = Some p) as Hp.
  { apply (live_tracked s Hc). unfold fid_of. rewrite Hn. reflexivity. }
  assert (∀ q m, nodes s !! q = Some m → ∃ t, head (history_ m) = Some t
                                              ∧ front_of s q = Some t) as Hfront.
  { intros q m Hm.
    pose proof (history_bounds s Hc q (history_ m)) as Hb. unfold hist_of in Hb.
    rewrite Hm in Hb. specialize (Hb eq_refl).
    unfold front_of, front_in. rewrite Hm. simpl.
    destruct (history_ m) as [| t hm]; [simpl in Hb; lia | eauto]. }
  destruct (Hfront p n Hn) as (t & Ht & Hft).
  destruct (Hfront p' n' Hn') as (t' & Ht' & Hft').
  exists n, t, t'. unfold node_of. rewrite Hp. simpl.
  split; [exact Hn |]. split; [exact Hflag |]. split; [lia |].
  split; [exact Ht |]. split; [exact Ht' |].
  destruct (decide (p' = p)) as [-> | Hne].
  { rewrite Hft in Hft'. injection Hft' as <-. lia. }
  rewrite Hless in Hcold'.
  apply elem_of_app in Hcold' as [Hin | [-> | Hin]%elem_of_cons]; [| congruence |].
  - exfalso. apply (Hbefore p' Hin). unfold evictable_at. rewrite Hn'. simpl. congruence.
  - pose proof (cold_ascending s Hs) as Hasc. rewrite Hless in Hasc.
    destruct (ascending_behind _ _ _ p t Hasc Hft p' Hin) as (b & Hb & Hle).
    rewrite Hft' in Hb. injection Hb as <-. exact Hle.
Qed.

(** ** The eviction rule with K >= 2 *)

(** The node [Evict] takes, of content [n] at address [p], leaves the
    tracking map and both pools; the other frames keep their nodes. *)
Lemma victim_leaves (s s' : LRUKReplacer) (p : ptr) (n : LRUKNode) :
  consistent s →
  nodes s !! p = Some n →
  nodes s' = delete p (nodes s) →
  node_store_ s' = delete (fid_ n) (node_store_ s) →
  less_k_ s' = list_remove p (less_k_ s) →
  more_k_ s' = list_remove p (more_k_ s) →
  node_of s' (fid_ n) = None
  ∧ (∀ q, node_store_ s !! fid_ n = Some q → q ∉ less_k_ s' ++ more_k_ s')
  ∧ ∀ f', f' ≠ fid_ n → node_of s' f' = node_of s f'.
Proof.
  intros Hc Hn Hnodes Hstore Hless Hmore.
  destruct (untrack_others s s' p n Hc Hn Hnodes Hstore) as [Hgone Hothers].
  split; [exact Hgone |]. split; [| exact Hothers].
  intros q Hq.
  assert (node_store_ s !! fid_ n = Some p) as Hp.
  { apply (live_tracked s Hc). unfold fid_of. rewrite Hn. reflexivity. }
  rewrite Hp in Hq. injection Hq as <-.
  rewrite Hless, Hmore, elem_of_app, !list_remove_elem. intros [[H _] | [H _]]; congruence.
Qed.

(** X26. With K >= 2 [Evict] follows the LRU-K rule, in every state a run
    of fewer than 2^64 calls reaches from the constructor. It returns
    nothing exactly when no tracked frame is evictable, and then changes
    nothing. The frame it returns is evictable. When that frame has fewer
    than K accesses, its first access is no later than that of any other
    evictable frame with fewer than K accesses. When it has K, every
    evictable frame has K and its K-th most recent access is no later than
    theirs: a frame with fewer than K accesses goes first. The frame
    returned is no longer tracked, its node is in neither pool, the other
    frames keep their nodes and [curr_size_] is one lower. *)
Theorem Evict_follows_lruk_when_K_ge_2
    (num_frames k : Z) (os : list op) (s s' : LRUKReplacer) (victim : option Z) :
  2 ≤ k →
  Z.of_nat (length os) < SIZE_MOD →
  run (init num_frames k) os = Done s →
  Evict s = Done (victim, s') →
  match victim with
  | None =>
      (∀ f n, node_of s f = Some n → is_evictable_ n = false) ∧ s' = s
  | Some f =>
      ∃ n t,
        node_of s f = Some n
        ∧ is_evictable_ n = true
        ∧ head (history_ n) = Some t
        ∧ 1 ≤ Z.of_nat (length (history_ n)) ≤ k
        ∧ (Z.of_nat (length (history_ n)) < k →
           ∀ f' n', node_of s f' = Some n' → is_evictable_ n' = true →
                    Z.of_nat (length (history_ n')) < k →
                    ∃ t', head (history_ n') = Some t' ∧ t ≤ t')
        ∧ (Z.of_nat (length (history_ n)) = k →
           kth_recent k (history_ n) = Some t
           ∧ ∀ f' n', node_of s f' = Some n' → is_evictable_ n' = true →
                      Z.of_nat (length (history_ n')) = k
                      ∧ ∃ t', kth_recent k (history_ n') = Some t' ∧ t ≤ t')
        ∧ node_of s' f = None
        ∧ (∀ p, node_store_ s !! f = Some p → p ∉ less_k_ s' ++ more_k_ s')
        ∧ (∀ f', f' ≠ f → node_of s' f' = node_of s f')
        ∧ Size s' = to_size_t (Size s - 1)
  end.
Proof.
  intros HK Hmax Hrun Hev.
  destruct (run_stamped (init num_frames k) s os) as (Hs & Hc & _);
    [exact HK | apply consistent_init | apply stamped_init | simpl; lia | exact Hrun |].
  destruct (run_consistent (init num_frames k) s os HK (consistent_init _ _) Hrun)
    as [_ Hk]. simpl in Hk.
  (* what the invariant says of a tracked frame *)
  assert (∀ f n, node_of s f = Some n →
            ∃ p, node_store_ s !! f = Some p ∧ nodes s !! p = Some n
                 ∧ 1 ≤ Z.of_nat (length (history_ n)) ≤ k
                 ∧ (p ∈ less_k_ s ↔ Z.of_nat (length (history_ n)) < k)
                 ∧ (p ∈ more_k_ s ↔ Z.of_nat (length (history_ n)) = k)
                 ∧ ∃ t, head (history_ n) = Some t ∧ front_of s p = Some t)
    as Htracked.
  { intros f n Hn. unfold node_of in Hn.
    destruct (node_store_ s !! f) as [p |] eqn:Hp; [| discriminate]. simpl in Hn.
    assert (hist_of s p = Some (history_ n)) as Hh.
    { unfold hist_of. rewrite Hn. reflexivity. }
    pose proof (history_bounds s Hc p _ Hh) as Hb. rewrite Hk in Hb.
    exists p. split; [reflexivity |]. split; [exact Hn |]. split; [exact Hb |].
    split; [| split].
    - rewrite (cold_nodes s Hc), Hk. split.
      + intros (h & Hh' & Hlt). rewrite Hh in Hh'. injection Hh' as <-. exact Hlt.
      + intros Hlt. eauto.
    - rewrite (warm_nodes s Hc), Hk. split.
      + intros (h & Hh' & Heq). rewrite Hh in Hh'. injection Hh' as <-. exact Heq.
      + intros Heq. eauto.
    - unfold front_of, front_in. rewrite Hn. simpl.
      destruct (history_ n) as [| t h]; [simpl in Hb; lia | eauto]. }
  assert (∀ p n, nodes s !! p = Some n → node_of s (fid_ n) = Some n) as Hlive.
  { intros p n Hn. unfold node_of.
    rewrite (live_tracked s Hc p (fid_ n)); [exact Hn |].
    unfold fid_of. rewrite Hn. reflexivity. }
  assert (∀ f n p, node_of s f = Some n → node_store_ s !! f = Some p →
                   is_evictable_ n = true → evictable_at s p) as Hflag.
  { intros f n p Hn Hp He. unfold node_of in Hn. rewrite Hp in Hn. simpl in Hn.
    unfold evictable_at. rewrite Hn. simpl. congruence. }
  unfold Evict in Hev.
  destruct (scan_evictable_spec s (less_k_ s))
    as [(before & p & n & after & Hless & Hn & He & Hbefore & Hscan) | [Hcold Hscan]].
  { intros q Hq. apply (pool_node_live s q Hc). apply elem_of_app. left. exact Hq. }
  - (* a victim in the cold pool *)
    rewrite Hscan in Hev. simpl in Hev. injection Hev as <- Hs'.
    destruct (Htracked _ n (Hlive p n Hn)) as (p0 & Hp0 & _ & Hb & Hcoldp & Hwarmp & t & Ht & Hft).
    assert (p0 = p) as ->.
    { pose proof (live_tracked s Hc p (fid_ n)) as H. unfold fid_of in H.
      rewrite Hn in H. specialize (H eq_refl). congruence. }
    assert (p ∈ less_k_ s) as Hin.
    { rewrite Hless. apply elem_of_app. right. apply list_elem_of_here. }
    exists n, t. split; [exact (Hlive p n Hn) |]. split; [exact He |].
    split; [exact Ht |]. split; [exact Hb |]. split; [| split].
    + intros _ f' n' Hn' He' Hlt'.
      destruct (Htracked f' n' Hn') as (p' & Hp' & _ & _ & Hcold' & _ & t' & Ht' & Hft').
      exists t'. split; [exact Ht' |].
      apply Hcold' in Hlt'. rewrite Hless in Hlt'.
      apply elem_of_app in Hlt' as [Hb' | [-> | Ha']%elem_of_cons].
      * exfalso. exact (Hbefore p' Hb' (Hflag f' n' p' Hn' Hp' He')).
      * rewrite Hft in Hft'. injection Hft' as <-. lia.
      * pose proof (cold_ascending s Hs) as Hasc. rewrite Hless in Hasc.
        destruct (ascending_behind _ _ _ p t Hasc Hft p' Ha') as (b & Hb' & Hle).
        rewrite Hft' in Hb'. injection Hb' as <-. exact Hle.
    + intros Heq. apply Hcoldp in Hin. lia.
    + destruct (victim_leaves s s' p n Hc Hn) as (H1 & H2 & H3);
        try (rewrite <- Hs'; reflexivity).
      { rewrite <- Hs'. simpl. symmetry. apply list_remove_absent. intros Hm.
        exact (consistent_not_both s p Hc Hin Hm). }
      split; [exact H1 |]. split; [exact H2 |]. split; [exact H3 |].
      rewrite <- Hs'. reflexivity.
  - rewrite Hscan in Hev. simpl in Hev.
    destruct (scan_evictable_spec s (more_k_ s))
      as [(before & p & n & after & Hmore & Hn & He & Hbefore & Hscan')
         | [Hwarm Hscan']].
    { intros q Hq. apply (pool_node_live s q Hc). apply elem_of_app. right. exact Hq. }
    + (* a victim in the warm pool *)
      rewrite Hscan' in Hev. simpl in Hev. injection Hev as <- Hs'.
      destruct (Htracked _ n (Hlive p n Hn))
        as (p0 & Hp0 & _ & Hb & Hcoldp & Hwarmp & t & Ht & Hft).
      assert (p0 = p) as ->.
      { pose proof (live_tracked s Hc p (fid_ n)) as H. unfold fid_of in H.
        rewrite Hn in H. specialize (H eq_refl). congruence. }
      assert (p ∈ more_k_ s) as Hin.
      { rewrite Hmore. apply elem_of_app. right. apply list_elem_of_here. }
      exists n, t. split; [exact (Hlive p n Hn) |]. split; [exact He |].
      split; [exact Ht |]. split; [exact Hb |]. split; [| split].
      * intros Hlt. apply Hwarmp in Hin. lia.
      * intros Heq. split; [rewrite (kth_recent_full k _ Heq); exact Ht |].
        intros f' n' Hn' He'.
        destruct (Htracked f' n' Hn')
          as (p' & Hp' & Hlive' & Hb' & Hcold' & Hwarm' & t' & Ht' & Hft').
        assert (p' ∈ more_k_ s) as Hin'.
        { destruct (consistent_one_pool s p' Hc (mk_is_Some _ _ Hlive')) as [Hl | Hm];
            [| exact Hm].
          exfalso. exact (Hcold p' Hl (Hflag f' n' p' Hn' Hp' He')). }
        pose proof (proj1 Hwarm' Hin') as Hlen'. split; [exact Hlen' |].
        exists t'. split; [rewrite (kth_recent_full k _ Hlen'); exact Ht' |].
        rewrite Hmore in Hin'.
        apply elem_of_app in Hin' as [Hb'' | [-> | Ha']%elem_of_cons].
        -- exfalso. exact (Hbefore p' Hb'' (Hflag f' n' p' Hn' Hp' He')).
        -- rewrite Hft in Hft'. injection Hft' as <-. lia.
        -- pose proof (warm_ascending s Hc) as Hasc. rewrite Hmore in Hasc.
           destruct (ascending_behind _ _ _ p t Hasc Hft p' Ha') as (b & Hb'' & Hle).
           rewrite Hft' in Hb''. injection Hb'' as <-. exact Hle.
      * destruct (victim_leaves s s' p n Hc Hn) as (H1 & H2 & H3);
          try (rewrite <- Hs'; reflexivity).
        { rewrite <- Hs'. simpl. symmetry. apply list_remove_absent. intros Hl.
          exact (consistent_not_both s p Hc Hl Hin). }
        split; [exact H1 |]. split; [exact H2 |]. split; [exact H3 |].
        rewrite <- Hs'. reflexivity.
    + (* nothing to take *)
      rewrite Hscan' in Hev. simpl in Hev. injection Hev as <- <-.
      split; [| reflexivity]. intros f n Hn.
      destruct (Htracked f n Hn) as (p & Hp & Hlive' & _).
      destruct (is_evictable_ n) eqn:He; [| reflexivity]. exfalso.
      destruct (consistent_one_pool s p Hc (mk_is_Some _ _ Hlive')) as [Hl | Hm].
      * exact (Hcold p Hl (Hflag f n p Hn Hp He)).
      * exact (Hwarm p Hm (Hflag f n p Hn Hp He)).
Qed.

(** ** The destructor *)

Lemma delete_each_spec (h : gmap ptr LRUKNode) (l : list ptr) :
  NoDup l →
  (∀ p, p ∈ l → is_Some (h !! p)) →
  ∃ h', delete_each h l = Done h'
        ∧ ∀ q, h' !! q = if decide (q ∈ l) then None else h !! q.
Proof.
  revert h. induction l as [| p l IH]; intros h Hnd Hlive.
  - exists h. split; [reflexivity |]. intros q.
    destruct (decide (q ∈ [])) as [H | _]; [inversion H | reflexivity].
  - apply NoDup_cons in Hnd as [Hp Hnd].
    destruct (Hlive p) as [n Hn]; [apply list_elem_of_here |].
    simpl. rewrite Hn. simpl.
    destruct (IH (delete p h) Hnd) as (h' & Hrun & Hh').
    { intros q Hq. rewrite lookup_delete_ne by (intros ->; contradiction).
      apply Hlive. apply list_elem_of_further. exact Hq. }
    exists h'. split; [exact Hrun |]. intros q. rewrite Hh'.
    destruct (decide (q ∈ l)) as [Hq | Hq], (decide (q ∈ p :: l)) as [Hq' | Hq'];
      try reflexivity.
    + exfalso. apply Hq'. apply list_elem_of_further. exact Hq.
    + apply elem_of_cons in Hq' as [-> | Hq']; [| contradiction].
      apply lookup_delete_eq.
    + apply lookup_delete_ne. intros ->. apply Hq'. apply list_elem_of_here.
Qed.

(** X25. With K >= 2 the destructor frees every node exactly once: in whatever
    state a run of calls has left the replacer, its two loops delete live
    nodes only (no node is deleted twice) and no node is left behind. *)
Theorem destructor_frees_every_node
    (num_frames k : Z) (os : list op) (s : LRUKReplacer) :
  2 ≤ k →
  run (init num_frames k) os = Done s →
  destructor s = Done ∅.
Proof.
  intros HK Hrun.
  destruct (run_consistent (init num_frames k) s os HK (consistent_init _ _) Hrun)
    as [Hc _].
  unfold destructor.
  destruct (delete_each_spec (nodes s) (less_k_ s)) as (h1 & -> & Hh1).
  { exact (cold_nodup s Hc). }
  { intros p Hp. apply (pool_node_live s p Hc). apply elem_of_app. left. exact Hp. }
  simpl.
  destruct (delete_each_spec h1 (more_k_ s)) as (h2 & -> & Hh2).
  { exact (warm_nodup s Hc). }
  { intros p Hp. rewrite Hh1.
    destruct (decide (p ∈ less_k_ s)) as [Hl | _].
    - exfalso. exact (consistent_not_both s p Hc Hl Hp).
    - apply (pool_node_live s p Hc). apply elem_of_app. right. exact Hp. }
  f_equal. apply map_eq. intros q. rewrite lookup_empty, Hh2.
  destruct (decide (q ∈ more_k_ s)) as [_ | Hm]; [reflexivity |].
  rewrite Hh1. destruct (decide (q ∈ less_k_ s)) as [_ | Hl]; [reflexivity |].
  destruct (nodes s !! q) as [n |] eqn:Hn; [| reflexivity].
  destruct (consistent_one_pool s q Hc (mk_is_Some _ _ Hn)); contradiction.
Qed.

(** With K = 1 it does not: after two accesses of one frame the node is in
    both lists, and the second loop deletes it again. *)
Example K1_destructor_deletes_twice :
  destructor (after (init 7 1) [OpRecordAccess 0; OpRecordAccess 0])
  = Fail Undefined.
Proof. vm_compute. reflexivity. Qed.

(** ** The laws at concrete replacers

    Seven frames, K = 2: [abcd_abc] tracks frames 1 to 4, all evictable,
    frames 1 to 3 with two accesses and frame 4 with one. *)

Lemma after_init_consistent (num_frames k : Z) (os : list op) :
  2 ≤ k → consistent (after (init num_frames k) os).
Proof.
  intros HK. unfold after.
  destruct (run (init num_frames k) os) as [s |] eqn:Hrun; [| apply consistent_init].
  exact (proj1 (run_consistent (init num_frames k) s os HK (consistent_init _ _) Hrun)).
Qed.

Lemma guard_rejects_witness :
  RecordAccess (init 7 2) (-1) = Fail (Thrown "unexpected fram_id")
  ∧ (∀ b, SetEvictable (init 7 2) (-1) b = Fail (Thrown "unexpected fram_id"))
  ∧ Remove (init 7 2) (-1) = Fail (Thrown "unexpected fram_id").
Proof. apply (guard_rejects (init 7 2) (-1)); simpl; lia. Defined.

Lemma step_consistent_witness :
  ∃ s', step abcd_abc (OpRemove 4) = Done s' ∧ consistent s'
        ∧ k_ s' = k_ abcd_abc ∧ replacer_size_ s' = replacer_size_ abcd_abc.
Proof.
  apply (step_consistent abcd_abc (OpRemove 4)).
  - vm_compute. discriminate.
  - apply after_init_consistent. lia.
  - split; [vm_compute; intuition discriminate |].
    intros n Hn. vm_compute in Hn. injection Hn as <-. reflexivity.
Defined.

Lemma one_pool_when_K_ge_2_witness :
  (in_cold abcd_abc 4 ∧ ¬ in_warm abcd_abc 4)
  ∨ (in_warm abcd_abc 4 ∧ ¬ in_cold abcd_abc 4).
Proof.
  apply (one_pool_when_K_ge_2 7 2
           [OpRecordAccess 1; OpRecordAccess 2; OpRecordAccess 3; OpRecordAccess 4;
            OpRecordAccess 1; OpRecordAccess 2; OpRecordAccess 3;
            OpSetEvictable 1 true; OpSetEvictable 2 true; OpSetEvictable 3 true;
            OpSetEvictable 4 true] abcd_abc).
  - lia.
  - vm_compute. reflexivity.
  - vm_compute. eauto.
Defined.

Lemma warm_from_Kth_access_when_K_ge_2_witness :
  let s' := after (init 7 2) [OpRecordAccess 1; OpRecordAccess 1] in
  ∃ h, (history_ <$> node_of s' 1) = Some h
       ∧ 1 ≤ Z.of_nat (length h) ≤ 2
       ∧ (Z.of_nat (length h) < 2 → in_cold s' 1 ∧ ¬ in_warm s' 1)
       ∧ (Z.of_nat (length h) = 2 → in_warm s' 1 ∧ ¬ in_cold s' 1)
       ∧ warm_sorted s' = true.
Proof.
  cbv zeta.
  apply (warm_from_Kth_access_when_K_ge_2 7 2 [OpRecordAccess 1]
           (after (init 7 2) [OpRecordAccess 1])).
  - lia.
  - vm_compute. reflexivity.
  - vm_compute. reflexivity.
Defined.

Lemma Size_counts_evictable_without_Remove_witness :
  let s' := after abcd_abc [OpEvict] in
  Size s' = count_evictable s'.
Proof.
  cbv zeta.
  apply (Size_counts_evictable_without_Remove abcd_abc _ OpEvict).
  - apply after_init_consistent. lia.
  - vm_compute. reflexivity.
  - vm_compute. reflexivity.
  - intros f. discriminate.
  - vm_compute. reflexivity.
Defined.

Lemma SetEvictable_idempotent_witness :
  let s' := after (init 7 2) [OpRecordAccess 1; OpSetEvictable 1 true] in
  SetEvictable s' 1 true = Done s'.
Proof.
  cbv zeta.
  apply (SetEvictable_idempotent (after (init 7 2) [OpRecordAccess 1])).
  vm_compute. reflexivity.
Defined.

Lemma SetEvictable_adjusts_Size_witness :
  let s := after (init 7 2) [OpRecordAccess 1] in
  let s' := after s [OpSetEvictable 1 true] in
  node_store_ s' = node_store_ s
  ∧ less_k_ s' = less_k_ s ∧ more_k_ s' = more_k_ s
  ∧ current_timestamp_ s' = current_timestamp_ s
  ∧ (∀ q, hist_of s' q = hist_of s q ∧ fid_of s' q = fid_of s q)
  ∧ (∀ q, node_store_ s !! 1 ≠ Some q → nodes s' !! q = nodes s !! q)
  ∧ (∀ n, node_of s' 1 = Some n → is_evictable_ n = true)
  ∧ Size s' = to_size_t (Size s + 1).
Proof.
  cbv zeta.
  exact (SetEvictable_adjusts_Size (after (init 7 2) [OpRecordAccess 1]) _ 1 true
           ltac:(vm_compute; reflexivity)).
Defined.

Lemma Evict_none_iff_witness :
  let s := after (init 7 2) [OpRecordAccess 1] in
  (Evict s = Done (None, s) ↔ count_evictable s = 0)
  ∧ (∀ s', Evict s = Done (None, s') → s' = s).
Proof.
  cbv zeta. apply Evict_none_iff. apply after_init_consistent. lia.
Defined.

Lemma Evict_takes_only_its_victim_witness :
  let s' := after abcd_abc [OpEvict] in
  (is_evictable_ <$> node_of abcd_abc 4) = Some true
  ∧ node_of s' 4 = None
  ∧ ∀ f', f' ≠ 4 → node_of s' f' = node_of abcd_abc f'.
Proof.
  cbv zeta. apply Evict_takes_only_its_victim.
  - apply after_init_consistent. lia.
  - vm_compute. reflexivity.
Defined.

Lemma Remove_takes_only_its_frame_witness :
  ∃ s', Remove abcd_abc 1 = Done s'
        ∧ node_of s' 1 = None
        ∧ (∀ p, node_store_ abcd_abc !! 1 = Some p → p ∉ less_k_ s' ++ more_k_ s')
        ∧ ∀ f', f' ≠ 1 → node_of s' f' = node_of abcd_abc f'.
Proof.
  exact (Remove_takes_only_its_frame abcd_abc 1
           (after_init_consistent 7 2 _ ltac:(lia)) ltac:(vm_compute; reflexivity)).
Defined.

Lemma Evict_spares_unevictable_witness :
  let s1 := after abcd_abc [OpSetEvictable 4 false] in
  Evict s1 = Done (Some 1, after s1 [OpEvict]) ∧ Some 1 ≠ Some 4.
Proof.
  cbv zeta. split; [vm_compute; reflexivity |].
  apply (Evict_spares_unevictable abcd_abc
           (after abcd_abc [OpSetEvictable 4 false])
           (after abcd_abc [OpSetEvictable 4 false; OpEvict]) 4 (Some 1)).
  - apply after_init_consistent. lia.
  - vm_compute. reflexivity.
  - vm_compute. reflexivity.
Defined.

Lemma evicted_frame_starts_again_witness :
  let s1 := after abcd_abc [OpEvict] in
  let s2 := after s1 [OpRecordAccess 4] in
  node_of s2 4
  = Some {| history_ := [to_size_t (current_timestamp_ abcd_abc + 1)]; fid_ := 4;
            is_evictable_ := false |}
  ∧ in_cold s2 4
  ∧ Size s2 = Size s1.
Proof.
  cbv zeta. apply (evicted_frame_starts_again abcd_abc (after abcd_abc [OpEvict])).
  - vm_compute. reflexivity.
  - vm_compute. reflexivity.
Defined.

Lemma RecordAccess_keeps_last_K_witness :
  let s' := after abcd_abc [OpRecordAccess 1] in
  ∃ h', (history_ <$> node_of s' 1) = Some h'
        ∧ current_timestamp_ s' = 8
        ∧ last h' = Some 8
        ∧ h' = [5; 8]
        ∧ Z.of_nat (length h') = 2.
Proof.
  cbv zeta.
  exact (RecordAccess_keeps_last_K abcd_abc _ 1 ltac:(vm_compute; discriminate)
           (after_init_consistent 7 2 _ ltac:(lia)) ltac:(vm_compute; reflexivity)).
Defined.

Lemma RecordAccess_touches_one_frame_witness :
  let s' := after abcd_abc [OpRecordAccess 1] in
  Size s' = Size abcd_abc
  ∧ (is_evictable_ <$> node_of s' 1)
    = Some (default false (is_evictable_ <$> node_of abcd_abc 1))
  ∧ (fid_ <$> node_of s' 1) = Some 1
  ∧ ∀ f', f' ≠ 1 → node_of s' f' = node_of abcd_abc f'.
Proof.
  cbv zeta. apply RecordAccess_touches_one_frame.
  - apply after_init_consistent. lia.
  - vm_compute. reflexivity.
Defined.

Lemma timestamps_increase_witness :
  0 ≤ current_timestamp_ abcd_abc ≤ 11
  ∧ ∀ f n, node_of abcd_abc f = Some n →
           increasing (history_ n) = true
           ∧ ∀ t, t ∈ history_ n → 1 ≤ t ≤ current_timestamp_ abcd_abc.
Proof.
  apply (timestamps_increase 7 2
           [OpRecordAccess 1; OpRecordAccess 2; OpRecordAccess 3; OpRecordAccess 4;
            OpRecordAccess 1; OpRecordAccess 2; OpRecordAccess 3;
            OpSetEvictable 1 true; OpSetEvictable 2 true; OpSetEvictable 3 true;
            OpSetEvictable 4 true] abcd_abc).
  - lia.
  - vm_compute. reflexivity.
  - vm_compute. reflexivity.
Defined.

Lemma cold_victim_is_oldest_witness :
  let s := after (init 7 2)
             [OpRecordAccess 1; OpRecordAccess 2;
              OpSetEvictable 2 true; OpSetEvictable 1 true] in
  Evict s = Done (Some 1, after s [OpEvict])
  ∧ ∃ n t t', node_of s 1 = Some n
              ∧ is_evictable_ n = true
              ∧ Z.of_nat (length (history_ n)) < 2
              ∧ head (history_ n) = Some t
              ∧ head [2] = Some t'
              ∧ t ≤ t'.
Proof.
  cbv zeta. split; [vm_compute; reflexivity |].
  apply (cold_victim_is_oldest 7 2
           [OpRecordAccess 1; OpRecordAccess 2;
            OpSetEvictable 2 true; OpSetEvictable 1 true]
           _ (after (init 7 2)
                [OpRecordAccess 1; OpRecordAccess 2;
                 OpSetEvictable 2 true; OpSetEvictable 1 true; OpEvict]) 1
           ltac:(lia) ltac:(vm_compute; reflexivity) ltac:(vm_compute; reflexivity)
           ltac:(vm_compute; reflexivity) 2
           {| history_ := [2]; fid_ := 2; is_evictable_ := true |}).
  - vm_compute. reflexivity.
  - reflexivity.
  - simpl. lia.
Defined.

Lemma Evict_follows_lruk_when_K_ge_2_witness :
  let s := after abcd_abc [OpEvict] in
  let s' := after s [OpEvict] in
  ∃ n t,
    node_of s 1 = Some n
    ∧ is_evictable_ n = true
    ∧ head (history_ n) = Some t
    ∧ 1 ≤ Z.of_nat (length (history_ n)) ≤ 2
    ∧ (Z.of_nat (length (history_ n)) < 2 →
       ∀ f' n', node_of s f' = Some n' → is_evictable_ n' = true →
                Z.of_nat (length (history_ n')) < 2 →
                ∃ t', head (history_ n') = Some t' ∧ t ≤ t')
    ∧ (Z.of_nat (length (history_ n)) = 2 →
       kth_recent 2 (history_ n) = Some t
       ∧ ∀ f' n', node_of s f' = Some n' → is_evictable_ n' = true →
                  Z.of_nat (length (history_ n')) = 2
                  ∧ ∃ t', kth_recent 2 (history_ n') = Some t' ∧ t ≤ t')
    ∧ node_of s' 1 = None
    ∧ (∀ p, node_store_ s !! 1 = Some p → p ∉ less_k_ s' ++ more_k_ s')
    ∧ (∀ f', f' ≠ 1 → node_of s' f' = node_of s f')
    ∧ Size s' = to_size_t (Size s - 1).
Proof.
  cbv zeta.
  exact (Evict_follows_lruk_when_K_ge_2 7 2
           [OpRecordAccess 1; OpRecordAccess 2; OpRecordAccess 3; OpRecordAccess 4;
            OpRecordAccess 1; OpRecordAccess 2; OpRecordAccess 3;
            OpSetEvictable 1 true; OpSetEvictable 2 true; OpSetEvictable 3 true;
            OpSetEvictable 4 true; OpEvict]
           (after abcd_abc [OpEvict]) (after (after abcd_abc [OpEvict]) [OpEvict])
           (Some 1) ltac:(lia) ltac:(vm_compute; reflexivity)
           ltac:(vm_compute; reflexivity) ltac:(vm_compute; reflexivity)).
Defined.

Lemma destructor_frees_every_node_witness : destructor abcd_abc = Done ∅.
Proof.
  apply (destructor_frees_every_node 7 2
           [OpRecordAccess 1; OpRecordAccess 2; OpRecordAccess 3; OpRecordAccess 4;
            OpRecordAccess 1; OpRecordAccess 2; OpRecordAccess 3;
            OpSetEvictable 1 true; OpSetEvictable 2 true; OpSetEvictable 3 true;
            OpSetEvictable 4 true]).
  - lia.
  - vm_compute. reflexivity.
Defined.

End ReplacerLaws.

(** * Further properties of the buffer pool manager *)

Module BufferPoolLaws.

Import Replacer ReplacerFacts ReplacerLaws BufferPool BufferPoolFacts.

(** ** What the last unpin leaves to the replacer *)

(** Once [SetEvictable(frame_id, true)] has run, [Remove] accepts the
    frame. *)
Lemma SetEvictable_makes_removable (r : LRUKReplacer) (frame_id : Z) :
  usable r frame_id = true →
  ∃ r', SetEvictable r frame_id true = Done r' ∧ removable r' frame_id = true.
Proof.
  unfold usable, removable, SetEvictable. intros [Hb Hl]%andb_true_iff.
  apply negb_true_iff in Hb. rewrite Hb.
  destruct (node_store_ r !! frame_id) as [p |] eqn:Hp; simpl.
  - apply bool_decide_eq_true in Hl as [n Hn]. rewrite Hn. simpl.
    destruct (is_evictable_ n) eqn:He; simpl; eexists; (split; [reflexivity |]);
      simpl; rewrite Hb, Hp; simpl.
    + rewrite Hn. simpl. exact He.
    + rewrite lookup_insert_eq. reflexivity.
  - exists r. split; [reflexivity |]. rewrite Hb, Hp. reflexivity.
Qed.

Section Manager.

Variables (INVALID INVALID_PAGE_ID : Z) (PAGE_SIZE : nat).

Abbreviation NewPage := (BufferPool.NewPage INVALID INVALID_PAGE_ID PAGE_SIZE).
Abbreviation DeletePage := (BufferPool.DeletePage INVALID_PAGE_ID PAGE_SIZE).
Abbreviation FlushPage := (BufferPool.FlushPage INVALID_PAGE_ID).
Abbreviation free_page := (BufferPool.free_page INVALID_PAGE_ID PAGE_SIZE).

(** ** [FlushPage] and [FlushAllPages] *)

(** X21. [FlushPage] refuses [INVALID_PAGE_ID]; for a page that is not resident
    it returns false and does nothing; for a resident page it writes the
    frame's bytes to disk, dirty or not and pinned or not, clears the dirty
    flag, and leaves the pin count, the other frames, the page table, the
    free list and the replacer as they were. *)
Theorem FlushPage_writes_and_cleans (s : BufferPoolManager) (page_id : Z) :
  (page_id = INVALID_PAGE_ID →
   FlushPage s page_id = Fail (Thrown "invalid page ID"))
  ∧ (page_id ≠ INVALID_PAGE_ID → page_table_ s !! page_id = None →
     FlushPage s page_id = Done (false, s))
  ∧ (∀ frame_id page,
       page_id ≠ INVALID_PAGE_ID →
       page_table_ s !! page_id = Some frame_id →
       page_at s frame_id = Some page →
       ∃ s', FlushPage s page_id = Done (true, s')
             ∧ page_at s' frame_id = Some (flushed page)
             ∧ (∀ f, f ≠ frame_id → page_at s' f = page_at s f)
             ∧ on_disk (disk_manager_ s') !! page_id = Some (data_ page)
             ∧ calls (disk_manager_ s')
               = calls (disk_manager_ s) ++ [CallWrite page_id (data_ page)]
             ∧ page_table_ s' = page_table_ s
             ∧ free_list_ s' = free_list_ s
             ∧ replacer_ s' = replacer_ s
             ∧ next_page_id_ s' = next_page_id_ s).
Proof.
  unfold BufferPool.FlushPage. split; [| split].
  - intros ->. rewrite Z.eqb_refl. reflexivity.
  - intros Hne Hpt. destruct (Z.eqb_spec page_id INVALID_PAGE_ID); [contradiction |].
    rewrite Hpt. reflexivity.
  - intros f page Hne Hpt Hpage.
    destruct (Z.eqb_spec page_id INVALID_PAGE_ID); [contradiction |].
    rewrite Hpt, Hpage. simpl. eexists. split; [reflexivity |].
    split; [| split; [| split; [| repeat split]]].
    + apply (page_at_store_page_eq (set_disk s _) f). exact (mk_is_Some _ _ Hpage).
    + intros f' Hf'.
      apply (page_at_store_page_ne (set_disk s _) f' f); [| exact Hf'].
      exact (mk_is_Some _ _ Hpage).
    + simpl. apply lookup_insert_eq.
Qed.

(** The loop of [FlushAllPages] over a list of entries with distinct page
    ids, each pointing into the pool. *)
Lemma flush_loop (s : BufferPoolManager) (l : list (Z * Z)) :
  NoDup l.*1 →
  (∀ entry, entry ∈ l → is_Some (page_at s entry.2)) →
  ∃ s',
    foldl (λ acc entry,
             s ← acc;
             page ← deref (page_at s entry.2);
             let s := set_disk s (WritePage (disk_manager_ s) entry.1 (data_ page)) in
             Done (store_page s entry.2
                     {| data_ := data_ page; page_id_ := page_id_ page;
                        pin_count_ := pin_count_ page; is_dirty_ := false |}))
          (Done s) l = Done s'
    ∧ (∀ f, page_at s' f = (if decide (f ∈ l.*2) then flushed <$> page_at s f
                            else page_at s f))
    ∧ (∀ entry, entry ∈ l →
         on_disk (disk_manager_ s') !! entry.1 = data_ <$> page_at s entry.2)
    ∧ (∀ page_id, page_id ∉ l.*1 →
         on_disk (disk_manager_ s') !! page_id = on_disk (disk_manager_ s) !! page_id)
    ∧ calls (disk_manager_ s')
      = calls (disk_manager_ s)
        ++ ((λ entry, CallWrite entry.1 (default [] (data_ <$> page_at s entry.2)))
              <$> l)
    ∧ page_table_ s' = page_table_ s
    ∧ free_list_ s' = free_list_ s
    ∧ replacer_ s' = replacer_ s
    ∧ next_page_id_ s' = next_page_id_ s.
Proof.
  induction l as [| x l IH] using rev_ind; intros Hnd Hin.
  - exists s. simpl. split; [reflexivity |]. split.
    { intros f. destruct (decide (f ∈ [])) as [H | _]; [inversion H | reflexivity]. }
    split; [intros entry H; inversion H |]. split; [reflexivity |].
    split; [symmetry; apply app_nil_r |]. auto.
  - rewrite fmap_app in Hnd. apply NoDup_app in Hnd as (Hnd & Hfresh & _).
    destruct IH as (s1 & Hrun & Hpages & Hdisk & Hrest & Hcalls & Hpt & Hfl & Hr & Hnext);
      [exact Hnd | intros e He; apply Hin, elem_of_app; auto |].
    rewrite foldl_app, Hrun. simpl.
    destruct (Hin x) as [page Hpage]; [apply elem_of_app; right; apply list_elem_of_here |].
    assert (∃ page1, page_at s1 x.2 = Some page1 ∧ flushed page1 = flushed page
                     ∧ data_ page1 = data_ page) as (page1 & Hpage1 & Hfl1 & Hdata1).
    { rewrite Hpages, Hpage. destruct (decide (x.2 ∈ l.*2)); simpl; eauto. }
    rewrite Hpage1. simpl. eexists. split; [reflexivity |].
    split; [| split; [| split; [| split; [| auto]]]].
    + intros f. rewrite fmap_app. simpl.
      destruct (decide (f = x.2)) as [-> | Hne].
      * rewrite (page_at_store_page_eq (set_disk s1 _) _ _ (mk_is_Some _ _ Hpage1)).
        change (Some (flushed page1)
                = (if decide (x.2 ∈ l.*2 ++ [x.2]) then flushed <$> page_at s x.2
                   else page_at s x.2)).
        destruct (decide (x.2 ∈ l.*2 ++ [x.2])) as [_ | Hn].
        -- rewrite Hpage, Hfl1. reflexivity.
        -- exfalso. apply Hn, elem_of_app. right. apply list_elem_of_here.
      * rewrite (page_at_store_page_ne (set_disk s1 _) f x.2 _ (mk_is_Some _ _ Hpage1) Hne).
        change (page_at (set_disk s1 _) f) with (page_at s1 f). rewrite Hpages.
        destruct (decide (f ∈ l.*2)) as [Hf | Hf],
                 (decide (f ∈ l.*2 ++ [x.2])) as [Hf' | Hf']; try reflexivity.
        -- exfalso. apply Hf', elem_of_app. auto.
        -- exfalso. apply elem_of_app in Hf' as [Hf' | Hf']; [contradiction |].
           apply list_elem_of_singleton in Hf'. contradiction.
    + intros entry [He | ->%list_elem_of_singleton]%elem_of_app; simpl.
      * rewrite lookup_insert_ne; [exact (Hdisk entry He) |].
        intros Heq. apply (Hfresh entry.1).
        -- apply list_elem_of_fmap. exists entry. auto.
        -- rewrite <- Heq. apply list_elem_of_here.
      * rewrite lookup_insert_eq, Hpage, Hdata1. reflexivity.
    + intros page_id Hnotin. simpl. rewrite fmap_app in Hnotin.
      apply not_elem_of_app in Hnotin as [Hl Hx].
      rewrite lookup_insert_ne; [exact (Hrest page_id Hl) |].
      intros Heq. apply Hx. simpl. rewrite Heq. apply list_elem_of_here.
    + simpl. rewrite Hcalls, fmap_app, Hdata1, <- app_assoc. simpl.
      rewrite Hpage. reflexivity.
Qed.

(** X22. When the page table points into the pool, [FlushAllPages] returns,
    whatever the order in which the table is walked: every resident page
    has its bytes on disk and its frame clean, with the same bytes, page
    id and pin count; the disk manager receives one [WritePage] per entry
    of the page table, with the bytes of its frame, in the order of the
    walk, and no other call; the frames that hold no page, the page table,
    the free list and the replacer are as they were. *)
Theorem FlushAllPages_cleans (s : BufferPoolManager) (walk : list (Z * Z)) :
  walk_of (page_table_ s) walk →
  (∀ page_id f, page_table_ s !! page_id = Some f → is_Some (page_at s f)) →
  ∃ s',
    FlushAllPages s walk = Done s'
    ∧ (∀ page_id f, page_table_ s !! page_id = Some f →
         page_at s' f = flushed <$> page_at s f
         ∧ on_disk (disk_manager_ s') !! page_id = data_ <$> page_at s f)
    ∧ (∀ f, (∀ page_id, page_table_ s !! page_id ≠ Some f) →
            page_at s' f = page_at s f)
    ∧ (∀ page_id, page_table_ s !! page_id = None →
         on_disk (disk_manager_ s') !! page_id = on_disk (disk_manager_ s) !! page_id)
    ∧ calls (disk_manager_ s')
      = calls (disk_manager_ s)
        ++ ((λ entry, CallWrite entry.1 (default [] (data_ <$> page_at s entry.2)))
              <$> walk)
    ∧ page_table_ s' = page_table_ s
    ∧ free_list_ s' = free_list_ s
    ∧ replacer_ s' = replacer_ s.
Proof.
  unfold walk_of. intros Hwalk Hres. unfold FlushAllPages.
  assert (∀ page_id f, (page_id, f) ∈ walk ↔ page_table_ s !! page_id = Some f)
    as Hentry.
  { intros page_id f. rewrite Hwalk. apply elem_of_map_to_list. }
  destruct (flush_loop s walk)
    as (s' & Hrun & Hpages & Hdisk & Hrest & Hcalls & Hpt & Hfl & Hr & _).
  { rewrite Hwalk. apply NoDup_fst_map_to_list. }
  { intros [page_id f] He%Hentry. exact (Hres page_id f He). }
  exists s'. split; [exact Hrun |].
  assert (∀ f, f ∈ walk.*2 ↔ ∃ page_id, page_table_ s !! page_id = Some f) as Hsnd.
  { intros f. rewrite list_elem_of_fmap. split.
    - intros ([page_id f'] & -> & He%Hentry). eauto.
    - intros [page_id He]. exists (page_id, f). split; [reflexivity |].
      apply Hentry. exact He. }
  split; [| split; [| split; [| split; [| auto]]]].
  - intros page_id f He. split.
    + rewrite Hpages. destruct (decide (f ∈ _)) as [_ | Hn]; [reflexivity |].
      exfalso. apply Hn, Hsnd. eauto.
    + apply (Hdisk (page_id, f)). apply Hentry. exact He.
  - intros f Hf. rewrite Hpages. destruct (decide (f ∈ _)) as [Hin | _]; [| reflexivity].
    apply Hsnd in Hin as [page_id He]. exfalso. exact (Hf page_id He).
  - intros page_id Hnone. apply Hrest.
    intros ([page_id' f] & -> & He%Hentry)%list_elem_of_fmap.
    simpl in Hnone. congruence.
  - exact Hcalls.
Qed.

(** ** [UnpinPage] then [DeletePage] *)

(** X23. The unpin that brings the pin count to zero makes the page deletable:
    [DeletePage] then returns true, the page is no longer resident, its
    frame is untracked by the replacer, back in the free state and at the
    back of the free list, and the disk manager has been told to
    deallocate the page. *)
Theorem last_unpin_allows_delete
    (s : BufferPoolManager) (page_id frame_id : Z) (page : Page) (is_dirty : bool) :
  page_table_ s !! page_id = Some frame_id →
  page_at s frame_id = Some page →
  pin_count_ page = 1 →
  usable (replacer_ s) frame_id = true →
  ∃ s1 s2,
    UnpinPage s page_id is_dirty = Done (true, s1)
    ∧ DeletePage s1 page_id = Done (true, s2)
    ∧ page_table_ s2 = delete page_id (page_table_ s)
    ∧ free_list_ s2 = free_list_ s ++ [frame_id]
    ∧ page_at s2 frame_id = Some free_page
    ∧ node_store_ (replacer_ s2) !! frame_id = None
    ∧ calls (disk_manager_ s2) = calls (disk_manager_ s) ++ [CallDeallocate page_id].
Proof.
  intros Hpt Hpage Hpin Hok.
  destruct (SetEvictable_makes_removable _ _ Hok) as (r & Hr & Hrem).
  set (page1 := {| data_ := data_ page; page_id_ := page_id_ page;
                   pin_count_ := 0; is_dirty_ := is_dirty_ page || is_dirty |}).
  set (s1 := store_page (set_replacer s r) frame_id page1).
  destruct (DeletePage_unpinned INVALID_PAGE_ID PAGE_SIZE s1 page_id frame_id page1)
    as (r' & _ & Hgone & Hdel).
  { exact Hpt. }
  { apply (page_at_store_page_eq (set_replacer s r)). exact (mk_is_Some _ _ Hpage). }
  { simpl. lia. }
  { exact Hrem. }
  exists s1. eexists. split.
  { unfold UnpinPage. rewrite Hpt, Hpage. simpl. rewrite Hpin. simpl.
    rewrite Hr. reflexivity. }
  split; [exact Hdel |]. simpl.
  split; [reflexivity |]. split; [reflexivity |]. split; [| auto].
  unfold page_at in *. simpl. destruct (frame_id <? 0); [discriminate |].
  rewrite list_insert_insert_eq. apply list_lookup_insert_eq.
  apply lookup_lt_Some in Hpage. exact Hpage.
Qed.

(** X24. Once [DeletePage] has returned true the page is not resident: the
    page table has no entry for it and those of the other pages are
    untouched; [UnpinPage] and [FlushPage] return false and [DeletePage]
    returns true again, all three without a change; and [DeletePage]
    leaves [next_page_id_], the counter of [AllocatePage], as it was. *)
Theorem deleted_page_is_gone (s s' : BufferPoolManager) (page_id : Z) :
  DeletePage s page_id = Done (true, s') →
  page_table_ s' !! page_id = None
  ∧ (∀ other, other ≠ page_id → page_table_ s' !! other = page_table_ s !! other)
  ∧ (∀ is_dirty, UnpinPage s' page_id is_dirty = Done (false, s'))
  ∧ (page_id ≠ INVALID_PAGE_ID → FlushPage s' page_id = Done (false, s'))
  ∧ DeletePage s' page_id = Done (true, s')
  ∧ next_page_id_ s' = next_page_id_ s.
Proof.
  intros Hdel.
  assert (page_table_ s' !! page_id = None
          ∧ (∀ other, other ≠ page_id → page_table_ s' !! other = page_table_ s !! other)
          ∧ next_page_id_ s' = next_page_id_ s) as (Hgone & Hothers & Hnext).
  { unfold BufferPool.DeletePage in Hdel.
    destruct (page_table_ s !! page_id) as [f |] eqn:Hpt.
    2: { injection Hdel as <-. auto. }
    destruct (page_at s f) as [page |]; simpl in Hdel; [| discriminate].
    destruct (pin_count_ page >? 0); [discriminate |].
    destruct (Remove _ _) as [r |]; simpl in Hdel; [| discriminate].
    injection Hdel as <-. simpl. split; [apply lookup_delete_eq |].
    split; [| reflexivity]. intros other Hne. apply lookup_delete_ne. congruence. }
  split; [exact Hgone |]. split; [exact Hothers |].
  split; [| split; [| split; [| exact Hnext]]].
  - intros is_dirty. unfold UnpinPage. rewrite Hgone. reflexivity.
  - intros Hne. unfold BufferPool.FlushPage.
    destruct (Z.eqb_spec page_id INVALID_PAGE_ID); [contradiction |].
    rewrite Hgone. reflexivity.
  - unfold BufferPool.DeletePage. rewrite Hgone. reflexivity.
Qed.

(** ** [DeletePage] on a replacer that keeps its invariant *)

(** X27. In a manager whose replacer satisfies the representation
    invariant, [DeletePage] of a resident page that is not pinned, and
    whose frame the replacer does not track or tracks as evictable,
    returns true: the page-table entry is erased and the others stay; the
    frame is at the back of the free list, zeroed, with page id
    [INVALID_PAGE_ID], pin count 0 and not dirty, and the other frames are
    untouched; the replacer no longer tracks the frame, the node it had is
    deleted and in neither pool, the other frames keep their nodes and the
    replacer keeps its invariant; the disk manager receives one
    [DeallocatePage] and what is on disk stays. *)
Theorem DeletePage_frees_frame
    (s : BufferPoolManager) (page_id frame_id : Z) (page : Page) :
  page_table_ s !! page_id = Some frame_id →
  page_at s frame_id = Some page →
  pin_count_ page ≤ 0 →
  consistent (replacer_ s) →
  (to_size_t frame_id >? replacer_size_ (replacer_ s)) = false →
  (∀ n, node_of (replacer_ s) frame_id = Some n → is_evictable_ n = true) →
  ∃ s' page',
    DeletePage s page_id = Done (true, s')
    ∧ page_table_ s' !! page_id = None
    ∧ (∀ other, other ≠ page_id → page_table_ s' !! other = page_table_ s !! other)
    ∧ free_list_ s' = free_list_ s ++ [frame_id]
    ∧ page_at s' frame_id = Some page'
    ∧ data_ page' = replicate PAGE_SIZE 0
    ∧ page_id_ page' = INVALID_PAGE_ID
    ∧ pin_count_ page' = 0
    ∧ is_dirty_ page' = false
    ∧ (∀ f, f ≠ frame_id → page_at s' f = page_at s f)
    ∧ Remove (replacer_ s) frame_id = Done (replacer_ s')
    ∧ node_store_ (replacer_ s') !! frame_id = None
    ∧ (∀ p, node_store_ (replacer_ s) !! frame_id = Some p →
            nodes (replacer_ s') !! p = None
            ∧ p ∉ less_k_ (replacer_ s') ++ more_k_ (replacer_ s'))
    ∧ (∀ f, f ≠ frame_id →
            node_of (replacer_ s') f = node_of (replacer_ s) f)
    ∧ consistent (replacer_ s')
    ∧ calls (disk_manager_ s') = calls (disk_manager_ s) ++ [CallDeallocate page_id]
    ∧ on_disk (disk_manager_ s') = on_disk (disk_manager_ s)
    ∧ next_page_id_ s' = next_page_id_ s.
Proof.
  intros Hpt Hpage Hpin Hc Hg Hev.
  destruct (Remove_untracks (replacer_ s) frame_id Hc Hg Hev)
    as (r & Hr & Hc' & Hgone & Hnode & Hothers).
  unfold BufferPool.DeletePage. rewrite Hpt, Hpage. simpl.
  destruct (Z.gtb_spec (pin_count_ page) 0); [lia |].
  rewrite Hr. simpl. eexists. eexists. split; [reflexivity |]. simpl.
  split; [apply lookup_delete_eq |].
  split; [intros other Hne; apply lookup_delete_ne; congruence |].
  split; [reflexivity |].
  split.
  { unfold page_at in *. simpl. destruct (frame_id <? 0); [discriminate |].
    apply list_lookup_insert_eq. apply lookup_lt_Some in Hpage. exact Hpage. }
  simpl. repeat (split; [reflexivity |]).
  split.
  { intros f Hf. unfold page_at in *. simpl.
    destruct (Z.ltb_spec frame_id 0); [discriminate |].
    destruct (Z.ltb_spec f 0); [reflexivity |].
    apply list_lookup_insert_ne. lia. }
  split; [reflexivity |]. split; [exact Hgone |]. split; [exact Hnode |].
  split; [exact Hothers |]. split; [exact Hc' |]. auto.
Qed.

(** ** [NewPage] and [AllocatePage] *)

(** The counter of [AllocatePage] is a 32-bit one. *)
Lemma to_page_id_t_next (z : Z) :
  (- 2 ^ 31 ≤ z < 2 ^ 31 - 1 → to_page_id_t (z + 1) = z + 1)
  ∧ (z = 2 ^ 31 - 1 → to_page_id_t (z + 1) = - 2 ^ 31).
Proof.
  unfold to_page_id_t. split.
  - intros Hz. rewrite Z.mod_small; lia.
  - intros ->. reflexivity.
Qed.

(** X18. The page ids [NewPage] gives out are the successive values of
    [next_page_id_], a 32-bit counter: a call that returns a frame returns
    the current value and advances the counter, by one below 2^31 - 1 and
    from 2^31 - 1 around to -2^31; a call that returns null gives
    [INVALID], uses up no page id and changes nothing. *)
Theorem NewPage_page_ids
    (s s' : BufferPoolManager) (page_id : Z) (frame : option Z) :
  NewPage s = Done ((page_id, frame), s') →
  match frame with
  | Some _ =>
      page_id = next_page_id_ s
      ∧ next_page_id_ s' = to_page_id_t (next_page_id_ s + 1)
      ∧ (- 2 ^ 31 ≤ next_page_id_ s < 2 ^ 31 - 1 →
         next_page_id_ s' = next_page_id_ s + 1)
      ∧ (next_page_id_ s = 2 ^ 31 - 1 → next_page_id_ s' = - 2 ^ 31)
  | None => page_id = INVALID ∧ s' = s
  end.
Proof.
  unfold BufferPool.NewPage. destruct (exhausted s).
  { intros [= <- <- <-]. auto. }
  assert (∀ f s1, GetFreeFrame INVALID_PAGE_ID s = Done (f, s1) →
                  next_page_id_ s1 = next_page_id_ s) as Hfree.
  { intros f s1. unfold GetFreeFrame.
    destruct (free_list_ s) as [| f0 rest]; [| intros [= <- <-]; reflexivity].
    destruct (Evict (replacer_ s)) as [[[v |] r] |]; simpl; try discriminate.
    destruct (page_at (set_replacer s r) v) as [page |]; simpl; [| discriminate].
    destruct (is_dirty_ page); simpl; [| intros [= <- <-]; reflexivity].
    unfold BufferPool.FlushPage.
    destruct (page_id_ page =? INVALID_PAGE_ID); simpl; [discriminate |].
    destruct (page_table_ s !! page_id_ page) as [f' |]; simpl;
      [| intros [= <- <-]; reflexivity].
    destruct (page_at (set_replacer s r) f'); simpl; [| discriminate].
    intros [= <- <-]. reflexivity. }
  destruct (GetFreeFrame _ s) as [[f s1] |]; simpl; [| discriminate].
  specialize (Hfree f s1 eq_refl).
  unfold InitNewPage. simpl.
  destruct (page_at _ f) as [page |]; simpl; [| discriminate].
  unfold Pinpage. simpl. rewrite lookup_insert_eq. simpl.
  destruct (page_at _ f) as [page' |]; simpl; [| discriminate].
  destruct (RecordAccess _ _) as [r1 |]; simpl; [| discriminate].
  destruct (SetEvictable _ _ _) as [r2 |]; simpl; [| discriminate].
  intros [= <- <- <-]. simpl. rewrite Hfree.
  destruct (to_page_id_t_next (next_page_id_ s)) as [Hin Hmax].
  split; [reflexivity |]. split; [reflexivity |]. split; [exact Hin | exact Hmax].
Qed.

(** ** The constructor *)

(** X17. The manager the constructor builds: every frame of the pool is in the
    free list, once, frame [i] at position [i], and in the free state; no
    page is resident; and it has a frame to give exactly when the pool has
    one. The frame ids are [int]s: the pool has fewer than 2^31 frames. *)
Theorem constructor_frames_all_free (pool_size replacer_k : Z) (disk : DiskManager) :
  0 ≤ pool_size < 2 ^ 31 →
  let s := init INVALID_PAGE_ID PAGE_SIZE pool_size replacer_k disk in
  NoDup (free_list_ s)
  ∧ (∀ f, f ∈ free_list_ s ↔ 0 ≤ f < pool_size)
  ∧ (∀ i f, free_list_ s !! i = Some f → f = Z.of_nat i)
  ∧ (∀ f, 0 ≤ f < pool_size → page_at s f = Some free_page)
  ∧ page_table_ s = ∅
  ∧ exhausted s = (pool_size =? 0).
Proof.
  intros Hpool. cbv zeta. simpl.
  split; [| split; [| split; [| split; [| split; [reflexivity |]]]]].
  - apply NoDup_fmap; [intros x y; lia | apply NoDup_seq].
  - intros f. rewrite list_elem_of_fmap. split.
    + intros (i & -> & Hi%elem_of_seq). lia.
    + intros Hf. exists (Z.to_nat f). split; [lia |]. apply elem_of_seq. lia.
  - intros i f. rewrite list_lookup_fmap.
    destruct (seq 0 (Z.to_nat pool_size) !! i) as [j |] eqn:Hj; [| discriminate].
    apply lookup_seq in Hj as [-> _]. simpl. intros [= <-]. reflexivity.
  - intros f Hf. unfold page_at. simpl.
    destruct (Z.ltb_spec f 0); [lia |].
    apply lookup_replicate. split; [reflexivity | lia].
  - unfold exhausted. simpl. rewrite andb_true_r.
    destruct (Z.eqb_spec pool_size 0) as [-> | Hne]; [reflexivity |].
    apply bool_decide_eq_false. intros Hnil.
    apply (f_equal length) in Hnil. rewrite length_fmap, length_seq in Hnil.
    simpl in Hnil. lia.
Qed.

End Manager.

(** ** The laws at concrete managers

    One frame of four bytes, both sentinels -1: [page0_pinned] holds page 0
    pinned once, [page0_dirty] holds it unpinned and dirty. *)

Lemma FlushPage_writes_and_cleans_witness :
  let s := page0_dirty (-1) (-1) 4 in
  let page := {| data_ := [0; 0; 0; 0]; page_id_ := 0; pin_count_ := 0;
                 is_dirty_ := true |} in
  ∃ s', FlushPage (-1) s 0 = Done (true, s')
        ∧ page_at s' 0 = Some (flushed page)
        ∧ (∀ f, f ≠ 0 → page_at s' f = page_at s f)
        ∧ on_disk (disk_manager_ s') !! 0 = Some [0; 0; 0; 0]
        ∧ calls (disk_manager_ s')
          = calls (disk_manager_ s) ++ [CallWrite 0 [0; 0; 0; 0]]
        ∧ page_table_ s' = page_table_ s
        ∧ free_list_ s' = free_list_ s
        ∧ replacer_ s' = replacer_ s
        ∧ next_page_id_ s' = next_page_id_ s.
Proof.
  cbv zeta.
  apply (proj2 (proj2 (FlushPage_writes_and_cleans (-1) (page0_dirty (-1) (-1) 4) 0)) 0
           {| data_ := [0; 0; 0; 0]; page_id_ := 0; pin_count_ := 0;
              is_dirty_ := true |}).
  - discriminate.
  - vm_compute. reflexivity.
  - vm_compute. reflexivity.
Defined.

Lemma FlushAllPages_cleans_witness :
  let s := two_pages (-1) (-1) 4 in
  let walk := [(1, 1); (0, 0)] in
  ∃ s',
    FlushAllPages s walk = Done s'
    ∧ (∀ page_id f, page_table_ s !! page_id = Some f →
         page_at s' f = flushed <$> page_at s f
         ∧ on_disk (disk_manager_ s') !! page_id = data_ <$> page_at s f)
    ∧ (∀ f, (∀ page_id, page_table_ s !! page_id ≠ Some f) →
            page_at s' f = page_at s f)
    ∧ (∀ page_id, page_table_ s !! page_id = None →
         on_disk (disk_manager_ s') !! page_id = on_disk (disk_manager_ s) !! page_id)
    ∧ calls (disk_manager_ s')
      = calls (disk_manager_ s)
        ++ [CallWrite 1 [0; 0; 0; 0]; CallWrite 0 [0; 0; 0; 0]]
    ∧ page_table_ s' = page_table_ s
    ∧ free_list_ s' = free_list_ s
    ∧ replacer_ s' = replacer_ s.
Proof.
  cbv zeta. apply (FlushAllPages_cleans (two_pages (-1) (-1) 4) [(1, 1); (0, 0)]).
  - unfold walk_of. apply (bool_decide_unpack _). vm_compute. exact I.
  - intros page_id f Hpt.
    assert (page_table_ (two_pages (-1) (-1) 4) = <[0 := 0]> (<[1 := 1]> ∅)) as Heq
      by (vm_compute; reflexivity).
    rewrite Heq in Hpt.
    apply lookup_insert_Some in Hpt as [[_ <-] | [_ Hpt]]; [vm_compute; eauto |].
    apply lookup_insert_Some in Hpt as [[_ <-] | [_ Hpt]]; [vm_compute; eauto |].
    rewrite lookup_empty in Hpt. discriminate.
Defined.

Lemma last_unpin_allows_delete_witness :
  let s := page0_pinned (-1) (-1) 4 in
  ∃ s1 s2,
    UnpinPage s 0 true = Done (true, s1)
    ∧ DeletePage (-1) 4 s1 0 = Done (true, s2)
    ∧ page_table_ s2 = delete 0 (page_table_ s)
    ∧ free_list_ s2 = free_list_ s ++ [0]
    ∧ page_at s2 0 = Some (free_page (-1) 4)
    ∧ node_store_ (replacer_ s2) !! 0 = None
    ∧ calls (disk_manager_ s2) = calls (disk_manager_ s) ++ [CallDeallocate 0].
Proof.
  cbv zeta.
  apply (last_unpin_allows_delete (-1) 4 (page0_pinned (-1) (-1) 4) 0 0
           {| data_ := [0; 0; 0; 0]; page_id_ := 0; pin_count_ := 1;
              is_dirty_ := false |} true);
    vm_compute; reflexivity.
Defined.

Lemma DeletePage_frees_frame_witness :
  let s := page0_dirty (-1) (-1) 4 in
  ∃ s' page',
    DeletePage (-1) 4 s 0 = Done (true, s')
    ∧ page_table_ s' !! 0 = None
    ∧ (∀ other, other ≠ 0 → page_table_ s' !! other = page_table_ s !! other)
    ∧ free_list_ s' = free_list_ s ++ [0]
    ∧ page_at s' 0 = Some page'
    ∧ data_ page' = [0; 0; 0; 0]
    ∧ page_id_ page' = -1
    ∧ pin_count_ page' = 0
    ∧ is_dirty_ page' = false
    ∧ (∀ f, f ≠ 0 → page_at s' f = page_at s f)
    ∧ Remove (replacer_ s) 0 = Done (replacer_ s')
    ∧ node_store_ (replacer_ s') !! 0 = None
    ∧ (∀ p, node_store_ (replacer_ s) !! 0 = Some p →
            nodes (replacer_ s') !! p = None
            ∧ p ∉ less_k_ (replacer_ s') ++ more_k_ (replacer_ s'))
    ∧ (∀ f, f ≠ 0 → node_of (replacer_ s') f = node_of (replacer_ s) f)
    ∧ consistent (replacer_ s')
    ∧ calls (disk_manager_ s') = calls (disk_manager_ s) ++ [CallDeallocate 0]
    ∧ on_disk (disk_manager_ s') = on_disk (disk_manager_ s)
    ∧ next_page_id_ s' = next_page_id_ s.
Proof.
  cbv zeta.
  apply (DeletePage_frees_frame (-1) 4 (page0_dirty (-1) (-1) 4) 0 0
           {| data_ := [0; 0; 0; 0]; page_id_ := 0; pin_count_ := 0;
              is_dirty_ := true |}).
  - vm_compute. reflexivity.
  - vm_compute. reflexivity.
  - simpl. lia.
  - assert (replacer_ (page0_dirty (-1) (-1) 4)
            = after (Replacer.init 1 2)
                [OpRecordAccess 0; OpSetEvictable 0 false; OpSetEvictable 0 true])
      as -> by (vm_compute; reflexivity).
    apply after_init_consistent. lia.
  - vm_compute. reflexivity.
  - intros n Hn. vm_compute in Hn. injection Hn as <-. reflexivity.
Defined.

Lemma deleted_page_is_gone_witness :
  let s := page0_dirty (-1) (-1) 4 in
  let s' := state_after s (DeletePage (-1) 4 s 0) in
  page_table_ s' !! 0 = None
  ∧ (∀ other, other ≠ 0 → page_table_ s' !! other = page_table_ s !! other)
  ∧ (∀ is_dirty, UnpinPage s' 0 is_dirty = Done (false, s'))
  ∧ (0 ≠ -1 → FlushPage (-1) s' 0 = Done (false, s'))
  ∧ DeletePage (-1) 4 s' 0 = Done (true, s')
  ∧ next_page_id_ s' = next_page_id_ s.
Proof.
  cbv zeta. apply deleted_page_is_gone. vm_compute. reflexivity.
Defined.

Lemma NewPage_page_ids_witness :
  let s := init (-1) 4 1 2 empty_disk in
  let s' := page0_pinned (-1) (-1) 4 in
  NewPage (-1) (-1) 4 s = Done ((0, Some 0), s')
  ∧ 0 = next_page_id_ s
  ∧ next_page_id_ s' = to_page_id_t (next_page_id_ s + 1)
  ∧ (- 2 ^ 31 ≤ next_page_id_ s < 2 ^ 31 - 1 → next_page_id_ s' = next_page_id_ s + 1)
  ∧ (next_page_id_ s = 2 ^ 31 - 1 → next_page_id_ s' = - 2 ^ 31).
Proof.
  cbv zeta. split; [vm_compute; reflexivity |].
  apply (NewPage_page_ids (-1) (-1) 4 (init (-1) 4 1 2 empty_disk)
           (page0_pinned (-1) (-1) 4) 0 (Some 0)).
  vm_compute. reflexivity.
Defined.

(** At the last value of the counter: the page gets id 2^31 - 1 and the
    next id is -2^31. *)
Example NewPage_counter_wraps :
  (let s := set_next_page_id (init (-1) 4 1 2 empty_disk) (2 ^ 31 - 1) in
   '(r, s') ← NewPage (-1) (-1) 4 s;
   Done (r, next_page_id_ s'))
  = Done ((2147483647, Some 0), -2147483648).
Proof. vm_compute. reflexivity. Qed.

Lemma constructor_frames_all_free_witness :
  let s := init (-1) 4 3 2 empty_disk in
  NoDup (free_list_ s)
  ∧ (∀ f, f ∈ free_list_ s ↔ 0 ≤ f < 3)
  ∧ (∀ i f, free_list_ s !! i = Some f → f = Z.of_nat i)
  ∧ (∀ f, 0 ≤ f < 3 → page_at s f = Some (free_page (-1) 4))
  ∧ page_table_ s = ∅
  ∧ exhausted s = false.
Proof.
  cbv zeta. apply (constructor_frames_all_free (-1) 4 3 2 empty_disk). lia.
Defined.

Lemma NewPage_returns_frame_witness :
  let s := init (-1) 4 3 2 empty_disk in
  ∃ f s',
    NewPage (-1) (-1) 4 s = Done ((0, Some f), s')
    ∧ page_table_ s' !! 0 = Some f
    ∧ page_at s' f
      = Some {| data_ := [0; 0; 0; 0]; page_id_ := 0; pin_count_ := 1;
                is_dirty_ := false |}.
Proof.
  cbv zeta. apply (NewPage_returns_frame (-1) (-1) 4 (init (-1) 4 3 2 empty_disk)).
  - apply serviceable_init; lia.
  - vm_compute. reflexivity.
Defined.

Lemma FetchPage_returns_frame_witness :
  let s := init (-1) 4 3 2 empty_disk in
  ∃ f s',
    FetchPage (-1) 4 s 7 = Done (Some f, s')
    ∧ page_table_ s' !! 7 = Some f.
Proof.
  cbv zeta. apply (FetchPage_returns_frame (-1) 4 (init (-1) 4 3 2 empty_disk) 7).
  - apply serviceable_init; lia.
  - right. vm_compute. reflexivity.
Defined.

End BufferPoolLaws.
